(** * Import extraction from JavaScript sources (gazelle/parse.go)

    A shallow embedding of [ParseJS], [unquoteImportString] and
    [compileJsImportPattern], together with the parts of the Go standard
    library they call: leftmost-first regular expression search
    ([regexp.FindAllSubmatch]), [bytes.Split], [bytes.Join],
    [strconv.Unquote], [strings.ToLower] and [sort.Strings]. *)

From Stdlib Require Import Ascii String.
From Stdlib Require Import List Arith ZArith Lia Bool.
From Stdlib Require Import Sorting.Sorted Sorting.Permutation.
Import ListNotations.
Open Scope list_scope.

Set Implicit Arguments.

(** ** Bytes *)

(** A Go [[]byte] or [string] is a sequence of 8-bit bytes. *)
Definition bytes := list ascii.

Definition B (s : string) : bytes := list_ascii_of_string s.

Definition byteZ (c : ascii) : Z := Z.of_N (N_of_ascii c).
Definition zbyte (z : Z) : ascii := ascii_of_N (Z.to_N (z mod 256)).

Definition dquote : ascii := ascii_of_nat 34.
Definition squote : ascii := ascii_of_nat 39.
Definition bslash : ascii := ascii_of_nat 92.
Definition newline : ascii := ascii_of_nat 10.
Definition bquote : ascii := ascii_of_nat 96.

(** [b[lo:hi]] for [lo <= hi <= len(b)]. *)
Definition slice (b : bytes) (lo hi : nat) : bytes := firstn (hi - lo) (skipn lo b).

(** [b[i] = c]; the callers below only write inside the buffer. *)
Fixpoint set_nth {A} (l : list A) (i : nat) (x : A) : list A :=
  match l, i with
  | [], _ => []
  | _ :: tl, 0 => x :: tl
  | y :: tl, S j => y :: set_nth tl j x
  end.

(** ** UTF-8 (package unicode/utf8) *)

Module utf8.

Definition RuneError : Z := 65533.
Definition RuneSelf : Z := 128.
Definition MaxRune : Z := 1114111.

Definition inb (lo hi : Z) (c : ascii) : bool :=
  (lo <=? byteZ c)%Z && (byteZ c <=? hi)%Z.

Definition cont (c : ascii) : bool := inb 128 191 c.

(** The accept range of the second byte, after the table [first] and
    [acceptRanges] of the package; [None] for a byte that starts no
    multi-byte sequence. *)
Definition second_range (b0 : ascii) : option (nat * Z * Z) :=
  let z := byteZ b0 in
  if (z <? 194)%Z then None
  else if (z <=? 223)%Z then Some (2%nat, 128%Z, 191%Z)
  else if (z =? 224)%Z then Some (3%nat, 160%Z, 191%Z)
  else if (z <=? 236)%Z then Some (3%nat, 128%Z, 191%Z)
  else if (z =? 237)%Z then Some (3%nat, 128%Z, 159%Z)
  else if (z <=? 239)%Z then Some (3%nat, 128%Z, 191%Z)
  else if (z =? 240)%Z then Some (4%nat, 144%Z, 191%Z)
  else if (z <=? 243)%Z then Some (4%nat, 128%Z, 191%Z)
  else if (z =? 244)%Z then Some (4%nat, 128%Z, 143%Z)
  else None.

Definition low6 (c : ascii) : Z := Z.land (byteZ c) 63.

(** [utf8.DecodeRune]: the rune at the head of [p] and its width in
    bytes; [(RuneError, 0)] for the empty input and [(RuneError, 1)] for an
    invalid or truncated encoding. *)
Definition DecodeRune (p : bytes) : Z * nat :=
  match p with
  | [] => (RuneError, 0)
  | b0 :: tl =>
    if (byteZ b0 <? RuneSelf)%Z then (byteZ b0, 1)
    else match second_range b0 with
    | None => (RuneError, 1)
    | Some (sz, lo, hi) =>
      match tl with
      | b1 :: tl1 =>
        if negb (inb lo hi b1) then (RuneError, 1)
        else match sz with
        | 2 => (Z.lor (Z.shiftl (Z.land (byteZ b0) 31) 6) (low6 b1), 2)
        | _ =>
          match tl1 with
          | b2 :: tl2 =>
            if negb (cont b2) then (RuneError, 1)
            else match sz with
            | 3 => (Z.lor (Z.lor (Z.shiftl (Z.land (byteZ b0) 15) 12)
                                 (Z.shiftl (low6 b1) 6)) (low6 b2), 3)
            | _ =>
              match tl2 with
              | b3 :: _ =>
                if negb (cont b3) then (RuneError, 1)
                else (Z.lor (Z.lor (Z.lor (Z.shiftl (Z.land (byteZ b0) 7) 18)
                                          (Z.shiftl (low6 b1) 12))
                                   (Z.shiftl (low6 b2) 6)) (low6 b3), 4)
              | [] => (RuneError, 1)
              end
            end
          | [] => (RuneError, 1)
          end
        end
      | [] => (RuneError, 1)
      end
    end
  end.

Definition ValidRune (r : Z) : bool :=
  ((0 <=? r) && (r <? 55296) || (57343 <? r) && (r <=? MaxRune))%Z.

Definition contb (z : Z) : ascii := zbyte (Z.lor 128 (Z.land z 63)).

(** [utf8.EncodeRune] / [utf8.AppendRune]: an invalid rune is written as
    the encoding of [RuneError]. *)
Definition EncodeRune (r : Z) : bytes :=
  if ((0 <=? r) && (r <=? 127))%Z then [zbyte r]
  else if ((0 <=? r) && (r <=? 2047))%Z then
    [zbyte (Z.lor 192 (Z.shiftr r 6)); contb r]
  else if negb (ValidRune r) then
    [zbyte 239; zbyte 191; zbyte 189]
  else if (r <=? 65535)%Z then
    [zbyte (Z.lor 224 (Z.shiftr r 12)); contb (Z.shiftr r 6); contb r]
  else
    [zbyte (Z.lor 240 (Z.shiftr r 18)); contb (Z.shiftr r 12);
     contb (Z.shiftr r 6); contb r].

(** [utf8.Valid]; the fuel is the length of the input, every step
    consumes at least one byte. *)
Fixpoint Valid_fuel (n : nat) (p : bytes) : bool :=
  match p with
  | [] => true
  | _ =>
    match n with
    | 0 => false
    | S n' =>
      let '(r, w) := DecodeRune p in
      if ((r =? RuneError)%Z && (w =? 1)) then false
      else Valid_fuel n' (skipn w p)
    end
  end.

Definition Valid (p : bytes) : bool := Valid_fuel (length p) p.

End utf8.

(** ** Regular expressions (packages regexp/syntax and regexp) *)

(** The operators that [compileJsImportPattern] uses.  [Lit] is a single
    literal byte of the pattern (all are ASCII), [AnyNotNL] is [.] outside
    of the [s] flag, [Space] is the Perl class [\s], [BOL] is [^] under the
    [m] flag, [Cap n] is the [n]-th capturing group; the flag of [Star]
    says whether the operator is greedy. *)
Inductive regex : Type :=
| Eps
| Lit (c : ascii)
| AnyNotNL
| Space
| BOL
| Cat (r1 r2 : regex)
| Alt (r1 r2 : regex)
| Star (greedy : bool) (r : regex)
| Cap (n : nat) (r : regex).

(** [r+] and [r+?] loop back after one [r]; [r?] prefers [r], [r??]
    prefers to skip it. *)
Definition Plus (greedy : bool) (r : regex) : regex := Cat r (Star greedy r).
Definition Quest (greedy : bool) (r : regex) : regex :=
  if greedy then Alt r Eps else Alt Eps r.

Fixpoint lits (l : bytes) : regex :=
  match l with
  | [] => Eps
  | c :: tl => Cat (Lit c) (lits tl)
  end.

Fixpoint cats (l : list regex) : regex :=
  match l with
  | [] => Eps
  | r :: tl => Cat r (cats tl)
  end.

(** [strings.Join(alternatives, "|")]: alternation associates to the
    right, the leftmost alternative has priority. *)
Fixpoint alts (r : regex) (l : list regex) : regex :=
  match l with
  | [] => r
  | r' :: tl => Alt r (alts r' tl)
  end.

(** A thread of the matcher: its offset in the input and its capture
    registers, byte spans [(start, end)] of the input. *)
Record mstate : Type := MState {
  pos : nat;
  caps : list (option (nat * nat))
}.

Definition is_nl (c : ascii) : bool := Ascii.eqb c newline.

(** [\s] is [[\t\n\f\r ]]. *)
Definition is_space (c : ascii) : bool :=
  let n := nat_of_ascii c in
  (n =? 9) || (n =? 10) || (n =? 12) || (n =? 13) || (n =? 32).

Definition advance (w : nat) (s : mstate) : mstate := MState (pos s + w) (caps s).

Definition setcap (n : nat) (lo hi : nat) (s : mstate) : mstate :=
  MState (pos s) (set_nth (caps s) n (Some (lo, hi))).

Definition orelse {A} (a : option A) (b : unit -> option A) : option A :=
  match a with
  | Some x => Some x
  | None => b tt
  end.

Definition cont_t : Type := mstate -> option mstate.

Section Matcher.

(** The input of the search. *)
Variable data : bytes.

(** [i.step(pos)]: the rune at an offset and its width, 0 at the end. *)
Definition step (p : nat) : Z * nat := utf8.DecodeRune (skipn p data).

(** [i.context(pos)], as far as [^] under [(?m)] looks at it: the offset
    is 0 or the byte before it is a newline. *)
Definition bol_at (p : nat) : bool :=
  match p with
  | 0 => true
  | S q => match nth_error data q with
           | Some c => is_nl c
           | None => false
           end
  end.

(** The loop of a star over [body] with at most [n] iterations; an
    iteration has to consume input. *)
Fixpoint star_loop (body : cont_t -> cont_t) (greedy : bool) (k : cont_t)
  (n : nat) (s : mstate) {struct n} : option mstate :=
  match n with
  | 0 => k s
  | S n' =>
    let again (_ : unit) :=
      body (fun s' => if pos s <? pos s' then star_loop body greedy k n' s'
                      else None) s in
    if greedy then orelse (again tt) (fun _ => k s)
    else orelse (k s) again
  end.

(** Leftmost-first matching, as the package documents it: of the matches
    that start at an offset, the one a backtracking search finds first.
    [rmatch r k s] runs [r] from [s] and hands every way to match it, in
    priority order, to the continuation [k], until [k] accepts.  No
    starred expression of the pattern below matches the empty string
    ([star_bodies_consume], [Matches_consumes]), and an iteration that
    consumes input leaves less of it, so the bound of [star_loop] never cuts
    a loop short ([rmatch_complete]). *)
Fixpoint rmatch (r : regex) (k : cont_t) (s : mstate) {struct r} : option mstate :=
  match r with
  | Eps => k s
  | Lit c =>
    match nth_error data (pos s) with
    | Some x => if Ascii.eqb x c then k (advance 1 s) else None
    | None => None
    end
  | AnyNotNL =>
    match nth_error data (pos s) with
    | Some x => if is_nl x then None else k (advance (snd (step (pos s))) s)
    | None => None
    end
  | Space =>
    match nth_error data (pos s) with
    | Some x => if is_space x then k (advance 1 s) else None
    | None => None
    end
  | BOL => if bol_at (pos s) then k s else None
  | Cat r1 r2 => rmatch r1 (rmatch r2 k) s
  | Alt r1 r2 => orelse (rmatch r1 k s) (fun _ => rmatch r2 k s)
  | Star greedy r' => star_loop (rmatch r') greedy k (S (length data - pos s)) s
  | Cap n r' => rmatch r' (fun s' => k (setcap n (pos s) (pos s') s')) s
  end.

(** A match as [FindAllSubmatch] delivers it: for every group the span
    of the input it captured, [None] for Go's [nil]; the whole match is
    group 0. *)
Definition gomatch : Type := list (option (nat * nat)).

(** The leftmost match at or after offset [p]: the start moves on rune
    by rune up to the end of the input, [fuel] bounds the moves. *)
Fixpoint search (fuel : nat) (re : regex) (ncap : nat) (p : nat) : option gomatch :=
  match rmatch re Some (MState p (repeat None ncap)) with
  | Some r => Some (set_nth (caps r) 0 (Some (p, pos r)))
  | None =>
    match fuel with
    | 0 => None
    | S fuel' =>
      let width := snd (step p) in
      if width =? 0 then None else search fuel' re ncap (p + width)
    end
  end.

(** [re.doExecute(..., pos, ...)] *)
Definition doExecute (re : regex) (ncap : nat) (p : nat) : option gomatch :=
  search (length data - p) re ncap p.

Definition span0 (m : gomatch) : nat * nat :=
  match nth 0 m None with
  | Some se => se
  | None => (0, 0)
  end.

(** The loop of [allMatches]: [i] counts the delivered matches, [p] is
    [pos], [prevMatchEnd] is [None] for -1.  Every round moves [p]
    forward, and the loop ends when [p] passes the end of the input. *)
Fixpoint allMatches (fuel : nat) (re : regex) (ncap : nat) (n i p : nat)
  (prevMatchEnd : option nat) : list gomatch :=
  match fuel with
  | 0 => []
  | S fuel' =>
    if (i <? n) && (p <=? length data) then
      match doExecute re ncap p with
      | None => []
      | Some m =>
        let '(b, e) := span0 m in
        if e =? p then
          let accept :=
            match prevMatchEnd with
            | Some q => negb (b =? q)
            | None => true
            end in
          let width := snd (step p) in
          let p' := if 0 <? width then p + width else length data + 1 in
          if accept
          then m :: allMatches fuel' re ncap n (S i) p' (Some e)
          else allMatches fuel' re ncap n i p' (Some e)
        else m :: allMatches fuel' re ncap n (S i) e (Some e)
      end
    else []
  end.

End Matcher.

(** ** The pattern of [compileJsImportPattern] *)

Definition IMPORT : nat := 1.
Definition REQUIRE : nat := 2.
Definition EXPORT : nat := 3.
Definition JEST_MOCK : nat := 4.
Definition JEST_REQUIRE_ACTUAL : nat := 5.
Definition REQUIRE_RESOLVE : nat := 6.
Definition JEST_CREATE_MOCK_FROM_MODULE : nat := 7.

(** [charactersPattern] is [.+] *)
Definition charactersPattern : regex := Plus true AnyNotNL.

(** The two alternatives of [stringLiteralPattern], written here with DQ
    for the double quote character: ['(?:.+|DQ)*'] and [DQ(?:.+|')*DQ]. *)
Definition singleQuoted : regex :=
  cats [Lit squote; Star true (Alt charactersPattern (Lit dquote)); Lit squote].
Definition doubleQuoted : regex :=
  cats [Lit dquote; Star true (Alt charactersPattern (Lit squote)); Lit dquote].

Definition stringLiteralPattern : regex := Alt singleQuoted doubleQuoted.

(** [(?:const .+ = )?] *)
Definition constPrefix : regex :=
  Quest true (cats [lits (B "const "); Plus true AnyNotNL; lits (B " = ")]).

(** [(?:(?:.|\n)+?from )??] *)
Definition fromClause : regex :=
  Quest false (cats [Plus false (Alt AnyNotNL (Lit newline)); lits (B "from ")]).

(** [(?m)^import\s(?:(?:.|\n)+?from )??(?P<import>LITERAL).*?] *)
Definition importPattern : regex :=
  cats [BOL; lits (B "import"); Space; fromClause;
        Cap IMPORT stringLiteralPattern; Star false AnyNotNL].

(** [(?m)^\s*?(?:const .+ = )?require\((?P<require>LITERAL)\).*] *)
Definition requirePattern : regex :=
  cats [BOL; Star false Space; constPrefix; lits (B "require(");
        Cap REQUIRE stringLiteralPattern; Lit ")"; Star true AnyNotNL].

(** [(?m)^export\s(?:(?:.|\n)+?from )??(?P<export>LITERAL).*?] *)
Definition exportPattern : regex :=
  cats [BOL; lits (B "export"); Space; fromClause;
        Cap EXPORT stringLiteralPattern; Star false AnyNotNL].

(** [(?m)^\s*?(?:const .+ = )?jest.mock\(] and then the group [jestMock]
    under a star, the body of the group being LITERAL followed by [,*].
    The dot is not escaped, and inside the group the alternation of the
    string literal binds weaker than the concatenation with [,*], which
    therefore follows the double-quoted alternative only. *)
Definition jestMockPattern : regex :=
  cats [BOL; Star false Space; constPrefix;
        lits (B "jest"); AnyNotNL; lits (B "mock(");
        Star true (Cap JEST_MOCK
          (Alt singleQuoted (Cat doubleQuoted (Star true (Lit ",")))))].

(** [(?m)^\s*?(?:return )?jest.requireActual\((?P<jestRequireActual>LITERAL).*?] *)
Definition jestRequireActualPattern : regex :=
  cats [BOL; Star false Space; Quest true (lits (B "return "));
        lits (B "jest"); AnyNotNL; lits (B "requireActual(");
        Cap JEST_REQUIRE_ACTUAL stringLiteralPattern; Star false AnyNotNL].

(** [(?m)^\s*?(?:const .+ = )?require.resolve\((?P<requireResolve>LITERAL)\).*] *)
Definition requireResolvePattern : regex :=
  cats [BOL; Star false Space; constPrefix;
        lits (B "require"); AnyNotNL; lits (B "resolve(");
        Cap REQUIRE_RESOLVE stringLiteralPattern; Lit ")"; Star true AnyNotNL].

(** [(?m)^\s*?(?:const .+ = )?jest.createMockFromModule\((?P<createMockFromModule>LITERAL)\).*] *)
Definition jestCreateMockFromModulePattern : regex :=
  cats [BOL; Star false Space; constPrefix;
        lits (B "jest"); AnyNotNL; lits (B "createMockFromModule(");
        Cap JEST_CREATE_MOCK_FROM_MODULE stringLiteralPattern; Lit ")";
        Star true AnyNotNL].

Definition compileJsImportPattern : regex :=
  alts importPattern
    [requirePattern; exportPattern; jestMockPattern; jestRequireActualPattern;
     requireResolvePattern; jestCreateMockFromModulePattern].

Definition jsImportPattern : regex := Eval cbv in compileJsImportPattern.

(** [re.NumSubexp() + 1]: the registers of a match, the whole match first. *)
Definition numCap : nat := 8.

(** [re.FindAllSubmatch(data, -1)]: a negative [n] stands for
    [len(data) + 1], and [length data + 2] rounds of the loop are enough. *)
Definition FindAllSubmatch (re : regex) (data : bytes) : list gomatch :=
  allMatches data (length data + 2) re numCap (length data + 1) 0 0 None.

(** ** Package bytes *)

(** [bytes.Split(s, []byte{sep})]: the pieces of [s] between the
    occurrences of [sep]; one more piece than occurrences.  The pieces are
    slices of [s] whose capacity is cut to their length, so that appending
    to a piece copies it and leaves [s] alone. *)
Fixpoint bytes_Split (s : bytes) (sep : ascii) : list bytes :=
  match s with
  | [] => [[]]
  | c :: tl =>
    if Ascii.eqb c sep then [] :: bytes_Split tl sep
    else match bytes_Split tl sep with
         | piece :: pieces => (c :: piece) :: pieces
         | [] => [[c]]
         end
  end.

(** [bytes.Join(pieces, sep)] *)
Fixpoint bytes_Join (pieces : list bytes) (sep : bytes) : bytes :=
  match pieces with
  | [] => []
  | [piece] => piece
  | piece :: tl => piece ++ sep ++ bytes_Join tl sep
  end.

(** ** Package strconv *)

Module strconv.

Definition contains (s : bytes) (c : ascii) : bool := existsb (Ascii.eqb c) s.

(** [index(s, c)], [None] for -1. *)
Fixpoint index (s : bytes) (c : ascii) : option nat :=
  match s with
  | [] => None
  | x :: tl => if Ascii.eqb x c then Some 0 else option_map S (index tl c)
  end.

Definition unhex (c : ascii) : option Z :=
  let z := byteZ c in
  if ((48 <=? z) && (z <=? 57))%Z then Some (z - 48)%Z
  else if ((97 <=? z) && (z <=? 102))%Z then Some (z - 97 + 10)%Z
  else if ((65 <=? z) && (z <=? 70))%Z then Some (z - 65 + 10)%Z
  else None.

(** Arithmetic on [rune], a 32-bit signed integer. *)
Definition wrap32 (z : Z) : Z := ((z + 2147483648) mod 4294967296 - 2147483648)%Z.

(** [for j := 0; j < n; j++ { x, ok := unhex(s[j]); v = v<<4 | x }] *)
Fixpoint hexdigits (n : nat) (v : Z) (s : bytes) : option (Z * bytes) :=
  match n with
  | 0 => Some (v, s)
  | S n' =>
    match s with
    | [] => None
    | c :: tl =>
      match unhex c with
      | Some x => hexdigits n' (wrap32 (Z.lor (Z.shiftl v 4) x)) tl
      | None => None
      end
    end
  end.

(** The two octal digits after the first. *)
Fixpoint octdigits (n : nat) (v : Z) (s : bytes) : option (Z * bytes) :=
  match n with
  | 0 => Some (v, s)
  | S n' =>
    match s with
    | [] => None
    | c :: tl =>
      let x := (byteZ c - 48)%Z in
      if ((x <? 0) || (7 <? x))%Z then None
      else octdigits n' (Z.lor (Z.shiftl v 3) x) tl
    end
  end.

(** [strconv.UnquoteChar(s, quote)]: the value, whether it is a
    multi-byte rune, and the tail; [None] for [ErrSyntax]. *)
Definition UnquoteChar (s : bytes) (quote : ascii) : option (Z * bool * bytes) :=
  match s with
  | [] => None
  | c :: tl =>
    if Ascii.eqb c quote && (Ascii.eqb quote squote || Ascii.eqb quote dquote) then None
    else if (utf8.RuneSelf <=? byteZ c)%Z then
      let '(r, size) := utf8.DecodeRune s in Some (r, true, skipn size s)
    else if negb (Ascii.eqb c bslash) then Some (byteZ c, false, tl)
    else
      match tl with
      | [] => None
      | c1 :: s2 =>
        match c1 with
        | "a"%char => Some (7, false, s2)
        | "b"%char => Some (8, false, s2)
        | "f"%char => Some (12, false, s2)
        | "n"%char => Some (10, false, s2)
        | "r"%char => Some (13, false, s2)
        | "t"%char => Some (9, false, s2)
        | "v"%char => Some (11, false, s2)
        | "x"%char =>
          match hexdigits 2 0 s2 with
          | Some (v, s3) => Some (v, false, s3)
          | None => None
          end
        | "u"%char | "U"%char =>
          let n := (if Ascii.eqb c1 "u" then 4 else 8)%nat in
          match hexdigits n 0 s2 with
          | Some (v, s3) => if utf8.ValidRune v then Some (v, true, s3) else None
          | None => None
          end
        | "0"%char | "1"%char | "2"%char | "3"%char
        | "4"%char | "5"%char | "6"%char | "7"%char =>
          if (length s2 <? 2)%nat then None
          else match octdigits 2 (byteZ c1 - 48) s2 with
               | Some (v, s3) => if (255 <? v)%Z then None else Some (v, false, s3)
               | None => None
               end
        | "\"%char => Some (92, false, s2)
        | "'"%char => if Ascii.eqb c1 quote then Some (byteZ c1, false, s2) else None
        | _ =>
          if Ascii.eqb c1 dquote
          then (if Ascii.eqb c1 quote then Some (byteZ c1, false, s2) else None)
          else None
        end
      end
  end%Z.

(** The loop of [unquote] over a literal with escape sequences: the
    decoded bytes and what is left at the closing quote.  A round consumes
    at least one byte, so the length of the input is enough fuel. *)
Fixpoint unquote_loop (fuel : nat) (quote : ascii) (inp buf : bytes)
  : option (bytes * bytes) :=
  match inp with
  | [] => Some (buf, inp)
  | c :: _ =>
    if Ascii.eqb c quote then Some (buf, inp)
    else match fuel with
    | 0 => None
    | S fuel' =>
      match UnquoteChar inp quote with
      | None => None
      | Some (r, multibyte, rem) =>
        if is_nl c then None
        else
          let buf' :=
            if (r <? utf8.RuneSelf)%Z || negb multibyte
            then buf ++ [zbyte r] else buf ++ utf8.EncodeRune r in
          if Ascii.eqb quote squote then Some (buf', rem)
          else unquote_loop fuel' quote rem buf'
      end
    end
  end.

(** [unquote(in, true)]: the value and the text after the closing quote.
    A literal without backslash and newline that is valid UTF-8 is returned
    as it is; every other one goes through the loop. *)
Definition unquote (inp : bytes) : option (bytes * bytes) :=
  if length inp <? 2 then None
  else
    let quote := nth 0 inp zero in
    match index (skipn 1 inp) quote with
    | None => None
    | Some e =>
      let endp := e + 2 in
      if Ascii.eqb quote bquote then
        Some (filter (fun c => negb (Ascii.eqb c (ascii_of_nat 13)))
                     (slice inp 1 (endp - 1)), skipn endp inp)
      else if Ascii.eqb quote dquote || Ascii.eqb quote squote then
        let plain :=
          negb (contains (firstn endp inp) bslash)
          && negb (contains (firstn endp inp) newline) in
        let valid :=
          if Ascii.eqb quote dquote then utf8.Valid (slice inp 1 (endp - 1))
          else let '(r, n) := utf8.DecodeRune (slice inp 1 (endp - 1)) in
               (1 + n + 1 =? endp) && negb ((r =? utf8.RuneError)%Z && (n =? 1)) in
        if plain && valid then Some (slice inp 1 (endp - 1), skipn endp inp)
        else
          match unquote_loop (length inp) quote (skipn 1 inp) [] with
          | Some (buf, c :: rem) =>
            if Ascii.eqb c quote then Some (buf, rem) else None
          | _ => None
          end
      else None
    end.

(** [strconv.Unquote(s)]; [None] stands for [ErrSyntax]. *)
Definition Unquote (s : bytes) : option bytes :=
  match unquote s with
  | Some (out, []) => Some out
  | _ => None
  end.

(** [ErrSyntax.Error()] *)
Definition ErrSyntax : bytes := B "invalid syntax".

End strconv.

(** ** Package sort *)

(** The order [<=] of Go strings: byte-wise lexical. *)
Fixpoint bytes_leb (a b : bytes) : bool :=
  match a, b with
  | [], _ => true
  | _ :: _, [] => false
  | x :: a', y :: b' =>
    if (N_of_ascii x <? N_of_ascii y)%N then true
    else if (N_of_ascii y <? N_of_ascii x)%N then false
    else bytes_leb a' b'
  end.

Fixpoint insert_sorted (x : bytes) (l : list bytes) : list bytes :=
  match l with
  | [] => [x]
  | y :: tl => if bytes_leb x y then x :: l else y :: insert_sorted x tl
  end.

(** [sort.Strings]: the strings in increasing order.  The library's
    algorithm is not stable, which equal strings cannot show: the result is
    the one sorted arrangement of the input ([sort_Strings_unique]). *)
Fixpoint sort_Strings (l : list bytes) : list bytes :=
  match l with
  | [] => []
  | x :: tl => insert_sorted x (sort_Strings tl)
  end.

(** ** The extractor *)

(** What a Go call gives back: a value, an error with its message, or a
    run-time panic (an index or slice bound out of range). *)
Inductive result (A : Type) : Type :=
| Ok (a : A)
| Err (msg : bytes)
| Panic.
Arguments Ok {A} a.
Arguments Err {A} msg.
Arguments Panic {A}.

(** A byte slice is a window on a backing array.  The captures of a
    match are windows on the input [data]; [append] to a full slice makes
    a fresh array. *)
Inductive sliceref : Type :=
| InData (lo hi : nat)
| Fresh (b : bytes).

Definition rd (data : bytes) (q : sliceref) : bytes :=
  match q with
  | InData lo hi => slice data lo hi
  | Fresh b => b
  end.

(** [q[i] = c]: the write lands in the array behind [q]. *)
Definition wr (data : bytes) (q : sliceref) (i : nat) (c : ascii)
  : bytes * sliceref :=
  match q with
  | InData lo hi => (set_nth data (lo + i) c, q)
  | Fresh b => (data, Fresh (set_nth b i c))
  end.

(** The loop at lines 97-101 of [unquoteImportString], [steps] rounds
    from index [i]. *)
Fixpoint escapePieces (steps i : nat) (noQuotes : list bytes) : list bytes :=
  match steps with
  | 0 => noQuotes
  | S steps' =>
    let piece := nth i noQuotes [] in
    escapePieces steps' (S i)
      (if (length piece =? 0) || negb (Ascii.eqb (last piece zero) bslash)
       then set_nth noQuotes i (piece ++ [bslash])
       else noQuotes)
  end.

(** [unquoteImportString(quoted)] for [quoted = data[lo:hi]]: the input
    buffer after the call and the result. *)
Definition unquoteImportString (data : bytes) (lo hi : nat)
  : bytes * result bytes :=
  let quoted := InData lo hi in
  if length (rd data quoted) <? 2 then (data, Panic)
  else
    let noQuotes :=
      bytes_Split (slice (rd data quoted) 1 (length (rd data quoted) - 1)) dquote in
    let quoted :=
      if negb (length noQuotes =? 1) then
        Fresh (([dquote] ++
                bytes_Join (escapePieces (length noQuotes - 1) 0 noQuotes) [dquote])
               ++ [dquote])
      else quoted in
    let '(data, quoted) :=
      if Ascii.eqb (nth 0 (rd data quoted) zero) squote then
        let '(data1, quoted1) := wr data quoted 0 dquote in
        wr data1 quoted1 (length (rd data1 quoted1) - 1) dquote
      else (data, quoted) in
    match strconv.Unquote (rd data quoted) with
    | Some res => (data, Ok res)
    | None =>
      (data, Err (B "unquoting string literal " ++ rd data quoted ++
                  B " from js: " ++ strconv.ErrSyntax))
    end.

(** The cases of the switch of [ParseJS] in their order, each with
    whether it passes the unquoted value through [strings.ToLower]. *)
Definition cases : list (nat * bool) :=
  [ (IMPORT, false); (REQUIRE, true); (EXPORT, true); (JEST_MOCK, true);
    (JEST_REQUIRE_ACTUAL, true); (REQUIRE_RESOLVE, true);
    (JEST_CREATE_MOCK_FROM_MODULE, true) ].

(** The first case whose [match[K] != nil] holds. *)
Fixpoint switch (m : gomatch) (cs : list (nat * bool))
  : option (nat * (nat * nat) * bool) :=
  match cs with
  | [] => None
  | (K, lower) :: cs' =>
    match nth K m None with
    | Some span => Some (K, span, lower)
    | None => switch m cs'
    end
  end.

Section Extractor.

(** [unicode.ToLower] on the runes above ASCII: the case tables of
    package unicode. *)
Variable unicode_ToLower : Z -> Z.

Definition lowerRune (r : Z) : Z :=
  if (r <=? 127)%Z then
    (if ((65 <=? r) && (r <=? 90))%Z then r + 32 else r)%Z
  else unicode_ToLower r.

(** [strings.Map(mapping, s)]: rune by rune, an invalid byte read as
    [RuneError], a negative image dropped. *)
Fixpoint strings_Map (fuel : nat) (mapping : Z -> Z) (s : bytes) : bytes :=
  match s with
  | [] => []
  | _ =>
    match fuel with
    | 0 => []
    | S fuel' =>
      let '(c, width) := utf8.DecodeRune s in
      let r := mapping c in
      (if (r <? 0)%Z then [] else utf8.EncodeRune r)
        ++ strings_Map fuel' mapping (skipn width s)
    end
  end.

(** [strings.ToLower] *)
Definition strings_ToLower (s : bytes) : bytes :=
  if forallb (fun c => (byteZ c <? utf8.RuneSelf)%Z) s
  then map (fun c => zbyte (lowerRune (byteZ c))) s
  else strings_Map (length s) lowerRune s.

(** The body of the loop of [ParseJS] run over the matches: [data] is the
    input buffer, which the captures point into, and [imports] the slice
    collected so far. *)
Fixpoint ParseJS_loop (ms : list gomatch) (data : bytes) (imports : list bytes)
  : bytes * result (list bytes) :=
  match ms with
  | [] => (data, Ok imports)
  | m :: ms' =>
    match switch m cases with
    | None => ParseJS_loop ms' data imports
    | Some (_, (lo, hi), lower) =>
      match unquoteImportString data lo hi with
      | (data', Ok unquoted) =>
        ParseJS_loop ms' data'
          (imports ++ [if lower then strings_ToLower unquoted else unquoted])
      | (data', Err err) =>
        (data', Err (B "unquoting string literal " ++ slice data' lo hi ++
                     B " from js, " ++ err))
      | (data', Panic) => (data', Panic)
      end
    end
  end.

(** [ParseJS(data)] with the input buffer as the call leaves it. *)
Definition ParseJS_run (data : bytes) : bytes * result (list bytes) :=
  let '(data', r) := ParseJS_loop (FindAllSubmatch jsImportPattern data) data [] in
  (data', match r with
          | Ok imports => Ok (sort_Strings imports)
          | Err e => Err e
          | Panic => Panic
          end).

Definition ParseJS (data : bytes) : result (list bytes) := snd (ParseJS_run data).

End Extractor.

(** ** Inputs of the examples *)

Definition nl : bytes := [newline].
Definition dq : bytes := [dquote].
Definition sq : bytes := [squote].

(** [require(] literal [)] with the quote character [q] around [p]. *)
Definition require_of (q : ascii) (p : bytes) : bytes :=
  B "require(" ++ [q] ++ p ++ [q] ++ B ")".

(** A case table for the examples, which are ASCII and never consult it:
    the runes above ASCII are left as they are. *)
Definition asciiCase : Z -> Z := fun r => r.

(** [strings.HasPrefix(s, sub)] and [strings.Contains(s, sub)], to look
    into the text of an error. *)
Fixpoint prefixb (sub s : bytes) : bool :=
  match sub, s with
  | [], _ => true
  | _ :: _, [] => false
  | x :: sub', y :: s' => Ascii.eqb x y && prefixb sub' s'
  end.

Fixpoint containsb (s sub : bytes) : bool :=
  prefixb sub s ||
  match s with
  | [] => false
  | _ :: s' => containsb s' sub
  end.

(** No quote character and no backslash. *)
Definition plain_path (p : bytes) : Prop :=
  forall c, In c p -> c <> squote /\ c <> dquote /\ c <> bslash.

(** ** The order of the result *)

Definition bytes_le (a b : bytes) : Prop := bytes_leb a b = true.

(** ** What a regular expression matches *)

(** [Matches data r s s']: the expression [r] matches the input between
    the offsets of [s] and [s'] and leaves the capture registers of [s'].
    The relation knows no priorities; [rmatch] picks among these matches
    ([rmatch_sound], [rmatch_complete]). *)
Inductive Matches (data : bytes) : regex -> mstate -> mstate -> Prop :=
| M_Eps : forall s, Matches data Eps s s
| M_Lit : forall c s,
    nth_error data (pos s) = Some c ->
    Matches data (Lit c) s (advance 1 s)
| M_Any : forall x s,
    nth_error data (pos s) = Some x -> is_nl x = false ->
    Matches data AnyNotNL s (advance (snd (step data (pos s))) s)
| M_Space : forall x s,
    nth_error data (pos s) = Some x -> is_space x = true ->
    Matches data Space s (advance 1 s)
| M_BOL : forall s, bol_at data (pos s) = true -> Matches data BOL s s
| M_Cat : forall r1 r2 s s1 s2,
    Matches data r1 s s1 -> Matches data r2 s1 s2 ->
    Matches data (Cat r1 r2) s s2
| M_AltL : forall r1 r2 s s',
    Matches data r1 s s' -> Matches data (Alt r1 r2) s s'
| M_AltR : forall r1 r2 s s',
    Matches data r2 s s' -> Matches data (Alt r1 r2) s s'
| M_Star0 : forall g r s, Matches data (Star g r) s s
| M_StarS : forall g r s s1 s2,
    Matches data r s s1 -> pos s < pos s1 ->
    Matches data (Star g r) s1 s2 ->
    Matches data (Star g r) s s2
| M_Cap : forall n r s s1,
    Matches data r s s1 ->
    Matches data (Cap n r) s (setcap n (pos s) (pos s1) s1).

(** Whether an expression can match the empty string. *)
Fixpoint nullable (r : regex) : bool :=
  match r with
  | Eps | BOL | Star _ _ => true
  | Lit _ | AnyNotNL | Space => false
  | Cat r1 r2 => nullable r1 && nullable r2
  | Alt r1 r2 => nullable r1 || nullable r2
  | Cap _ r' => nullable r'
  end.

(** No expression under a star can match the empty string. *)
Fixpoint star_bodies_consume_b (r : regex) : bool :=
  match r with
  | Eps | BOL | Lit _ | AnyNotNL | Space => true
  | Cat r1 r2 | Alt r1 r2 => star_bodies_consume_b r1 && star_bodies_consume_b r2
  | Star _ r' => negb (nullable r') && star_bodies_consume_b r'
  | Cap _ r' => star_bodies_consume_b r'
  end.

(** Whether a group occurs in an expression. *)
Fixpoint has_group (r : regex) : bool :=
  match r with
  | Cat r1 r2 | Alt r1 r2 => has_group r1 || has_group r2
  | Star _ r' => has_group r'
  | Cap _ _ => true
  | _ => false
  end.

(** Whether an expression can consume a newline. *)
Fixpoint eats_newline (r : regex) : bool :=
  match r with
  | Lit c => is_nl c
  | Space => true
  | Cat r1 r2 | Alt r1 r2 => eats_newline r1 || eats_newline r2
  | Star _ r' | Cap _ r' => eats_newline r'
  | _ => false
  end.

(** ** The unquoter in the words of the specification *)

Definition ends_in_backslash (piece : bytes) : bool :=
  match rev piece with
  | c :: _ => Ascii.eqb c bslash
  | [] => false
  end.

(** Every piece but the last gets a backslash when it is empty or does
    not end in one. *)
Fixpoint spec_reescape (pieces : list bytes) : list bytes :=
  match pieces with
  | [] => []
  | [lastp] => [lastp]
  | piece :: others =>
    (if ends_in_backslash piece then piece else piece ++ [bslash])
      :: spec_reescape others
  end.

(** Without the first and the last byte. *)
Definition spec_strip (quoted : bytes) : bytes := removelast (tl quoted).

(** The first and the last byte rewritten to double quotes. *)
Definition spec_requote (buf : bytes) : bytes :=
  [dquote] ++ removelast (tl buf) ++ [dquote].

(** The text handed to the decoder. *)
Definition spec_prepare (quoted : bytes) : bytes :=
  let pieces := bytes_Split (spec_strip quoted) dquote in
  let buf :=
    match pieces with
    | [_] => quoted
    | _ => [dquote] ++ bytes_Join (spec_reescape pieces) [dquote] ++ [dquote]
    end in
  match quoted with
  | c :: _ => if Ascii.eqb c squote then spec_requote buf else buf
  | [] => buf
  end.

Definition spec_unquote (quoted : bytes) : result bytes :=
  match strconv.Unquote (spec_prepare quoted) with
  | Some v => Ok v
  | None => Err (B "unquoting string literal " ++ spec_prepare quoted ++
                 B " from js: " ++ strconv.ErrSyntax)
  end.

(** ** Notions of the further properties *)

(** The groups that occur in an expression. *)
Fixpoint groups_of (r : regex) : list nat :=
  match r with
  | Cat r1 r2 | Alt r1 r2 => groups_of r1 ++ groups_of r2
  | Star _ r' => groups_of r'
  | Cap n r' => n :: groups_of r'
  | _ => []
  end.

(** The matches in the order of delivery, each starting at or after the
    end of the one before. *)
Fixpoint chained (p : nat) (ms : list gomatch) : Prop :=
  match ms with
  | [] => True
  | m :: ms' =>
    p <= fst (span0 m) /\ fst (span0 m) <= snd (span0 m) /\
    chained (snd (span0 m)) ms'
  end.

(** Whether a match reaches a case of the switch other than the default. *)
Definition capturing (m : gomatch) : bool :=
  match switch m cases with
  | Some _ => true
  | None => false
  end.

(** Whether the unquoter rewrites the delimiters of [data[lo:hi]] in the
    buffer: the capture starts with a single quote and has no double quote
    between its first and last byte. *)
Definition rewrites_in_place (data : bytes) (lo hi : nat) : bool :=
  Ascii.eqb (nth lo data zero) squote
  && negb (existsb (Ascii.eqb dquote) (slice data (lo + 1) (hi - 1))).

(** The span of a literal: at least two bytes inside the input, with a
    single quote at its end when it has one at its start. *)
Definition literal_ends (data : bytes) (lo hi : nat) : Prop :=
  lo + 2 <= hi /\ hi <= length data /\
  (nth_error data lo = Some squote -> nth_error data (hi - 1) = Some squote).

(** A buffer that differs from the input only where a single quote of
    the input has become a double quote. *)
Definition quotes_rewritten (data buf : bytes) : Prop :=
  length buf = length data /\
  forall i, nth_error buf i = nth_error data i \/
            (nth_error data i = Some squote /\ nth_error buf i = Some dquote).

(** Text of ASCII bytes, and text without backslash and newline. *)
Definition ascii_text (s : bytes) : Prop := forall c, In c s -> (byteZ c < 128)%Z.
Definition no_escape (s : bytes) : Prop :=
  forall c, In c s -> c <> bslash /\ c <> newline.

(** A text with a backslash put before each of its double quotes. *)
Definition esc (s : bytes) : bytes :=
  flat_map (fun c => if Ascii.eqb c dquote then [bslash; dquote] else [c]) s.

(** [jest.mock(] literal [,] and the rest of the line. *)
Definition jest_mock_of (q : ascii) (p rest : bytes) : bytes :=
  B "jest.mock(" ++ [q] ++ p ++ [q] ++ B "," ++ rest.

(** The body of the starred group of [jestMockPattern]. *)
Definition jestMockGroup : regex :=
  Cap JEST_MOCK (Alt singleQuoted (Cat doubleQuoted (Star true (Lit ","%char)))).

(** [unicode.ToLower] on an ASCII byte. *)
Definition lower_ascii (c : ascii) : ascii :=
  if ((65 <=? byteZ c) && (byteZ c <=? 90))%Z then zbyte (byteZ c + 32) else c.

(** Two inputs of more than one line: a require and an import, and
    three requires of which the second does not decode. *)
Definition twoLines : bytes :=
  B "require('a')" ++ nl ++ B "import x from " ++ dq ++ B "b" ++ dq.
Definition badSecond : bytes :=
  B "require('a')" ++ nl ++ B "require('\q')" ++ nl ++ B "require('c')".

(** * Properties *)

(** ** sort.Strings *)

Lemma N_of_ascii_inj : forall x y, N_of_ascii x = N_of_ascii y -> x = y.
Proof.
  intros x y H.
  rewrite <- (ascii_N_embedding x), <- (ascii_N_embedding y).
  now rewrite H.
Qed.

Lemma bytes_leb_refl : forall a, bytes_leb a a = true.
Proof.
  induction a as [|x a IH]; simpl; [reflexivity|].
  now rewrite N.ltb_irrefl.
Qed.

Lemma bytes_leb_total : forall a b, bytes_leb a b = false -> bytes_leb b a = true.
Proof.
  induction a as [|x a IH]; intros [|y b]; simpl; try discriminate; auto.
  destruct (N.ltb_spec (N_of_ascii x) (N_of_ascii y)); [discriminate|].
  destruct (N.ltb_spec (N_of_ascii y) (N_of_ascii x)); [reflexivity|].
  auto.
Qed.

Lemma bytes_leb_antisym : forall a b,
  bytes_leb a b = true -> bytes_leb b a = true -> a = b.
Proof.
  induction a as [|x a IH]; intros [|y b]; simpl; try discriminate; auto.
  destruct (N.ltb_spec (N_of_ascii x) (N_of_ascii y));
    destruct (N.ltb_spec (N_of_ascii y) (N_of_ascii x));
    try discriminate; try lia.
  intros H1 H2.
  assert (x = y) by (apply N_of_ascii_inj; lia).
  subst. f_equal. auto.
Qed.

Lemma bytes_leb_trans : forall a b c,
  bytes_leb a b = true -> bytes_leb b c = true -> bytes_leb a c = true.
Proof.
  induction a as [|x a IH]; intros [|y b] [|z c]; simpl; try discriminate; auto.
  destruct (N.ltb_spec (N_of_ascii x) (N_of_ascii y));
    destruct (N.ltb_spec (N_of_ascii y) (N_of_ascii z));
    destruct (N.ltb_spec (N_of_ascii x) (N_of_ascii z));
    destruct (N.ltb_spec (N_of_ascii y) (N_of_ascii x));
    destruct (N.ltb_spec (N_of_ascii z) (N_of_ascii y));
    destruct (N.ltb_spec (N_of_ascii z) (N_of_ascii x));
    try discriminate; try lia; auto.
  apply IH.
Qed.

Lemma insert_sorted_perm : forall x l, Permutation (x :: l) (insert_sorted x l).
Proof.
  induction l as [|y l IH]; simpl; [reflexivity|].
  destruct (bytes_leb x y); [reflexivity|].
  rewrite perm_swap. now constructor.
Qed.

Lemma sort_Strings_perm : forall l, Permutation l (sort_Strings l).
Proof.
  induction l as [|x l IH]; simpl; [constructor|].
  rewrite <- insert_sorted_perm. now constructor.
Qed.

Lemma insert_sorted_sorted : forall x l,
  StronglySorted bytes_le l -> StronglySorted bytes_le (insert_sorted x l).
Proof.
  induction 1 as [|y l Hs IH Hall]; simpl.
  - repeat constructor.
  - destruct (bytes_leb x y) eqn:E.
    + constructor; [now constructor|].
      constructor; [exact E|].
      rewrite Forall_forall in *. intros z Hz.
      eapply bytes_leb_trans; [exact E|]. now apply Hall.
    + constructor; [exact IH|].
      rewrite Forall_forall in *. intros z Hz.
      apply (Permutation_in _ (Permutation_sym (insert_sorted_perm x l))) in Hz.
      destruct Hz as [<-|Hz]; [now apply bytes_leb_total|now apply Hall].
Qed.

Lemma sort_Strings_sorted : forall l, StronglySorted bytes_le (sort_Strings l).
Proof.
  induction l as [|x l IH]; simpl; [constructor|].
  now apply insert_sorted_sorted.
Qed.

(** Two sorted arrangements of the same strings are equal: what
    [sort.Strings] returns does not depend on its algorithm. *)
Lemma sorted_perm_unique : forall l1 l2,
  StronglySorted bytes_le l1 -> StronglySorted bytes_le l2 ->
  Permutation l1 l2 -> l1 = l2.
Proof.
  induction l1 as [|x l1 IH]; intros l2 S1 S2 HP.
  - now apply Permutation_nil in HP.
  - destruct l2 as [|y l2].
    + apply Permutation_sym, Permutation_nil in HP. discriminate.
    + inversion S1 as [|? ? S1' A1]; inversion S2 as [|? ? S2' A2]; subst.
      rewrite Forall_forall in A1, A2.
      assert (x = y) as ->.
      { assert (Hx : In x (y :: l2)) by (eapply Permutation_in; [exact HP|now left]).
        assert (Hy : In y (x :: l1))
          by (eapply Permutation_in; [exact (Permutation_sym HP)|now left]).
        destruct Hx as [->|Hx]; [reflexivity|].
        destruct Hy as [->|Hy]; [reflexivity|].
        apply bytes_leb_antisym; [now apply A1|now apply A2]. }
      f_equal. apply IH; auto.
      now apply Permutation_cons_inv in HP.
Qed.

Lemma sort_Strings_unique : forall l l',
  Permutation l l' -> StronglySorted bytes_le l' -> sort_Strings l = l'.
Proof.
  intros l l' HP HS.
  apply sorted_perm_unique; auto using sort_Strings_sorted.
  now rewrite <- (sort_Strings_perm l).
Qed.

(** ** The loop of ParseJS *)

Lemma switch_none : forall m,
  (forall K, 1 <= K <= 7 -> nth K m None = None) -> switch m cases = None.
Proof.
  intros m H. unfold cases, switch.
  unfold IMPORT, REQUIRE, EXPORT, JEST_MOCK, JEST_REQUIRE_ACTUAL,
    REQUIRE_RESOLVE, JEST_CREATE_MOCK_FROM_MODULE.
  now rewrite !H by lia.
Qed.

Lemma switch_some : forall m cs K span lower,
  switch m cs = Some (K, span, lower) ->
  In (K, lower) cs /\ nth K m None = Some span.
Proof.
  induction cs as [|[K' l'] cs IH]; simpl; intros K span lower H; [discriminate|].
  destruct (nth K' m None) eqn:E.
  - injection H as <- <- <-. auto.
  - apply IH in H. tauto.
Qed.

Lemma cases_lower : forall K lower,
  In (K, lower) cases -> 1 <= K <= 7 /\ lower = negb (K =? IMPORT).
Proof.
  unfold cases. simpl. intros K lower H.
  repeat (destruct H as [H|H]; [injection H as <- <-; split; [cbv; lia|reflexivity]|]).
  contradiction.
Qed.

Lemma length_set_nth : forall A (l : list A) i x, length (set_nth l i x) = length l.
Proof.
  induction l as [|y l IH]; intros [|i] x; simpl; auto.
Qed.

Lemma unquoteImportString_length : forall data lo hi,
  length (fst (unquoteImportString data lo hi)) = length data.
Proof.
  intros data lo hi. unfold unquoteImportString.
  destruct (length (rd data (InData lo hi)) <? 2); [reflexivity|].
  set (q := if negb _ then _ else _).
  destruct (Ascii.eqb (nth 0 (rd data q) zero) squote).
  - destruct q as [lo' hi'|b]; simpl.
    + destruct (strconv.Unquote _); simpl; now rewrite !length_set_nth.
    + destruct (strconv.Unquote _); reflexivity.
  - destruct (strconv.Unquote _); reflexivity.
Qed.

Section ExtractorFacts.

Variable tbl : Z -> Z.

Lemma ParseJS_loop_skip : forall m ms data imports,
  switch m cases = None ->
  ParseJS_loop tbl (m :: ms) data imports = ParseJS_loop tbl ms data imports.
Proof.
  intros m ms data imports H. cbn [ParseJS_loop]. now rewrite H.
Qed.

Lemma ParseJS_loop_app : forall ms1 ms2 data imports,
  ParseJS_loop tbl (ms1 ++ ms2) data imports =
  match ParseJS_loop tbl ms1 data imports with
  | (data', Ok imports') => ParseJS_loop tbl ms2 data' imports'
  | other => other
  end.
Proof.
  induction ms1 as [|m ms1 IH]; intros ms2 data imports;
    cbn [ParseJS_loop app]; [reflexivity|].
  destruct (switch m cases) as [[[K [lo hi]] lower]|]; [|apply IH].
  destruct (unquoteImportString data lo hi) as [data' [u|e|]]; auto.
Qed.

(** The values collected so far are never dropped or reordered by later
    rounds of the loop. *)
Lemma ParseJS_loop_prefix : forall ms data imports data' collected,
  ParseJS_loop tbl ms data imports = (data', Ok collected) ->
  exists more, collected = imports ++ more.
Proof.
  induction ms as [|m ms IH]; cbn [ParseJS_loop];
    intros data imports data' collected H.
  - injection H as _ <-. exists []. now rewrite app_nil_r.
  - destruct (switch m cases) as [[[K [lo hi]] lower]|]; [|eauto].
    destruct (unquoteImportString data lo hi) as [d1 [u|e|]]; try discriminate.
    apply IH in H. destruct H as [more ->].
    eexists. now rewrite <- app_assoc.
Qed.

Lemma ParseJS_ok_inv : forall data l,
  ParseJS tbl data = Ok l ->
  exists buf collected,
    ParseJS_loop tbl (FindAllSubmatch jsImportPattern data) data [] = (buf, Ok collected)
    /\ l = sort_Strings collected.
Proof.
  intros data l. unfold ParseJS, ParseJS_run.
  destruct (ParseJS_loop _ _ _ _) as [buf [c|e|]]; simpl; try discriminate.
  intros H. injection H as <-. eauto.
Qed.

(** C3: when extraction succeeds the result is in ascending byte-wise
    order and is a rearrangement of the values the scan collected, so that
    a path referenced twice appears twice; [require] of z on a line before
    [require] of a gives a, z. *)
Theorem C3_result_sorted_duplicates_kept : forall data l,
  ParseJS tbl data = Ok l ->
  StronglySorted bytes_le l /\
  (exists buf collected,
     ParseJS_loop tbl (FindAllSubmatch jsImportPattern data) data []
       = (buf, Ok collected)
     /\ Permutation collected l) /\
  ParseJS tbl (require_of dquote (B "z") ++ nl ++ require_of dquote (B "a"))
    = Ok [B "a"; B "z"] /\
  ParseJS tbl (require_of dquote (B "a") ++ nl ++ require_of dquote (B "z")
               ++ nl ++ require_of dquote (B "a"))
    = Ok [B "a"; B "a"; B "z"].
Proof.
  intros data l H.
  destruct (ParseJS_ok_inv _ H) as (buf & collected & Hl & ->).
  split; [apply sort_Strings_sorted|].
  split; [exists buf, collected; split; [exact Hl|apply sort_Strings_perm]|].
  split; vm_compute; reflexivity.
Qed.

(** C4: on the line [jest.mock('x', factoryFn)] the result is exactly x;
    the comma and the second argument stay out of the capture. *)
Theorem C4_jest_mock_second_argument :
  FindAllSubmatch jsImportPattern (B "jest.mock('x', factoryFn)")
    = [[Some (0, 13); None; None; None; Some (10, 13); None; None; None]] /\
  ParseJS tbl (B "jest.mock('x', factoryFn)") = Ok [B "x"].
Proof.
  split; vm_compute; reflexivity.
Qed.

Lemma ParseJS_no_captures : forall data,
  (forall m K, In m (FindAllSubmatch jsImportPattern data) ->
               1 <= K <= 7 -> nth K m None = None) ->
  ParseJS_run tbl data = (data, Ok []).
Proof.
  intros data H. unfold ParseJS_run.
  assert (L : forall ms, (forall m, In m ms -> switch m cases = None) ->
              ParseJS_loop tbl ms data [] = (data, Ok [])).
  { induction ms as [|m ms IH]; intros Hs; [reflexivity|].
    rewrite ParseJS_loop_skip by (apply Hs; now left).
    apply IH. intros m' Hm'. apply Hs. now right. }
  rewrite L; [reflexivity|].
  intros m Hm. apply switch_none. intros K HK. now apply H.
Qed.

(** C8: when no match of the pattern carries one of the seven captures,
    in particular when the pattern matches nowhere, extraction succeeds
    with the empty sequence and leaves the input as it was. *)
Theorem C8_no_form_no_imports : forall data,
  (forall m K, In m (FindAllSubmatch jsImportPattern data) ->
               1 <= K <= 7 -> nth K m None = None) ->
  ParseJS_run tbl data = (data, Ok []) /\ ParseJS tbl data = Ok [] /\
  ParseJS tbl (B "// import 'x'" ++ nl ++ B "/* require('y') */") = Ok [] /\
  ParseJS tbl (B "var x = 1;" ++ nl ++ B "function f() { return x; }") = Ok [].
Proof.
  intros data H.
  pose proof (ParseJS_no_captures data H) as E.
  split; [exact E|].
  split; [unfold ParseJS; now rewrite E|].
  split; vm_compute; reflexivity.
Qed.

(** C10: a match none of whose seven groups captured takes no part in
    the run of the loop, wherever it stands among the matches: the result,
    value or error, is that of the other matches.  [jest.mock(] before an
    argument that is no literal gives such a match. *)
Theorem C10_captureless_match_is_inert : forall ms1 m ms2 data imports,
  (forall K, 1 <= K <= 7 -> nth K m None = None) ->
  ParseJS_loop tbl (ms1 ++ m :: ms2) data imports
    = ParseJS_loop tbl (ms1 ++ ms2) data imports /\
  FindAllSubmatch jsImportPattern (B "jest.mock(foo)")
    = [[Some (0, 10); None; None; None; None; None; None; None]] /\
  ParseJS tbl (B "jest.mock(foo)") = Ok [].
Proof.
  intros ms1 m ms2 data imports H.
  split; [|split; vm_compute; reflexivity].
  rewrite !ParseJS_loop_app.
  destruct (ParseJS_loop tbl ms1 data imports) as [d [im|e|]]; auto.
  apply ParseJS_loop_skip. now apply switch_none.
Qed.

End ExtractorFacts.

Section CaseAndErrors.

Variable tbl : Z -> Z.

(** C1, amended: of the seven forms only StaticImport stores the
    unquoted value as it is; the other six, StaticExport among them, store
    it lower-cased. *)
Theorem C1_only_import_keeps_case :
  forall m ms data imports K lo hi lower data' u,
  switch m cases = Some (K, (lo, hi), lower) ->
  unquoteImportString data lo hi = (data', Ok u) ->
  1 <= K <= 7 /\
  ParseJS_loop tbl (m :: ms) data imports
    = ParseJS_loop tbl ms data'
        (imports ++ [if K =? IMPORT then u else strings_ToLower tbl u]) /\
  ParseJS tbl (B "import " ++ dq ++ B "A/B" ++ dq) = Ok [B "A/B"] /\
  ParseJS tbl (B "require(" ++ dq ++ B "A/B" ++ dq ++ B ")") = Ok [B "a/b"] /\
  ParseJS tbl (B "export * from " ++ dq ++ B "A/B" ++ dq) = Ok [B "a/b"] /\
  ParseJS tbl (B "jest.mock(" ++ dq ++ B "A/B" ++ dq ++ B ")") = Ok [B "a/b"] /\
  ParseJS tbl (B "jest.requireActual(" ++ dq ++ B "A/B" ++ dq ++ B ")")
    = Ok [B "a/b"] /\
  ParseJS tbl (B "require.resolve(" ++ dq ++ B "A/B" ++ dq ++ B ")")
    = Ok [B "a/b"] /\
  ParseJS tbl (B "jest.createMockFromModule(" ++ dq ++ B "A/B" ++ dq ++ B ")")
    = Ok [B "a/b"].
Proof.
  intros m ms data imports K lo hi lower data' u Hs Hu.
  pose proof Hs as Hin. apply switch_some in Hin. destruct Hin as [Hin _].
  apply cases_lower in Hin. destruct Hin as [HK ->].
  split; [exact HK|].
  split.
  - cbn [ParseJS_loop]. rewrite Hs, Hu.
    now destruct (K =? IMPORT).
  - repeat split; vm_compute; reflexivity.
Qed.

(** The first capture that fails to unquote ends the run with an error:
    the matches after it are not looked at and the values collected before
    it are not returned. *)
Lemma ParseJS_fail_fast : forall ms1 m ms2 data imports d1 collected K lo hi lower d2 e,
  ParseJS_loop tbl ms1 data imports = (d1, Ok collected) ->
  switch m cases = Some (K, (lo, hi), lower) ->
  unquoteImportString d1 lo hi = (d2, Err e) ->
  ParseJS_loop tbl (ms1 ++ m :: ms2) data imports
    = (d2, Err (B "unquoting string literal " ++ slice d2 lo hi
                ++ B " from js, " ++ e)).
Proof.
  intros ms1 m ms2 data imports d1 collected K lo hi lower d2 e H1 Hs Hu.
  rewrite ParseJS_loop_app, H1. cbn [ParseJS_loop]. now rewrite Hs, Hu.
Qed.

(** C2, at the input [require('\q')]: the call fails and returns no
    path, but the text in the error is the literal with double quotes
    around it, as the unquoter rewrote it in the input buffer, and not the
    single-quoted text of the source; a double-quoted literal is reported
    as written. *)
Theorem C2_error_text_after_rewriting :
  ParseJS_run tbl (require_of squote (B "\q"))
    = (require_of dquote (B "\q"),
       Err (B "unquoting string literal " ++ dq ++ B "\q" ++ dq ++
            B " from js, unquoting string literal " ++ dq ++ B "\q" ++ dq ++
            B " from js: invalid syntax")) /\
  (forall msg, ParseJS tbl (require_of squote (B "\q")) = Err msg ->
               containsb msg (sq ++ B "\q" ++ sq) = false) /\
  (forall msg, ParseJS tbl (require_of dquote (B "\q")) = Err msg ->
               containsb msg (dq ++ B "\q" ++ dq) = true).
Proof.
  split; [vm_compute; reflexivity|].
  split; intros msg; vm_compute; intros H; injection H as <-; reflexivity.
Qed.

(** C5, at the inputs of the claim: [require('it\'s')] does not
    succeed, since the decoder of double-quoted text refuses a backslash
    before a single quote; the double-quoted literal with backslashes
    before its inner double quotes decodes to the text with the quotes in
    it. *)
Theorem C5_escaped_quote_inside_literal :
  ParseJS tbl (B "require('it\'s')")
    = Err (B "unquoting string literal " ++ dq ++ B "it\'s" ++ dq ++
           B " from js, unquoting string literal " ++ dq ++ B "it\'s" ++ dq ++
           B " from js: invalid syntax") /\
  ParseJS tbl (B "import " ++ dq ++ B "she said \" ++ dq ++ B "hi\" ++ dq ++ dq)
    = Ok [B "she said " ++ dq ++ B "hi" ++ dq] /\
  ParseJS tbl (B "require('say " ++ dq ++ B "hi" ++ dq ++ B "')")
    = Ok [B "say " ++ dq ++ B "hi" ++ dq].
Proof.
  repeat split; vm_compute; reflexivity.
Qed.

End CaseAndErrors.

(** C1 as stated fails: a static export of A/B is stored as a/b. *)
Lemma C1_export_is_lowercased :
  ParseJS asciiCase (B "export * from " ++ dq ++ B "A/B" ++ dq) = Ok [B "a/b"] /\
  ParseJS asciiCase (B "export * from " ++ dq ++ B "A/B" ++ dq) <> Ok [B "A/B"].
Proof.
  split; vm_compute; [reflexivity|discriminate].
Qed.

Lemma C1_witness :
  let data := B "export * from " ++ dq ++ B "A/B" ++ dq in
  let m := [Some (0, 19); None; None; Some (14, 19); None; None; None; None] in
  switch m cases = Some (EXPORT, (14, 19), true) /\
  unquoteImportString data 14 19 = (data, Ok (B "A/B")) /\
  ParseJS_loop asciiCase [m] data [] = (data, Ok [B "a/b"]).
Proof.
  intros data m.
  split; [reflexivity|]. split; [vm_compute; reflexivity|].
  destruct (@C1_only_import_keeps_case asciiCase m [] data [] EXPORT 14 19 true
              data (B "A/B")) as (_ & E & _);
    [reflexivity|vm_compute; reflexivity|].
  etransitivity; [exact E|vm_compute; reflexivity].
Defined.

Lemma C3_witness :
  let data := require_of dquote (B "z") ++ nl ++ require_of dquote (B "a") in
  ParseJS asciiCase data = Ok [B "a"; B "z"] /\
  StronglySorted bytes_le [B "a"; B "z"].
Proof.
  intros data.
  assert (H : ParseJS asciiCase data = Ok [B "a"; B "z"]) by (vm_compute; reflexivity).
  split; [exact H|].
  exact (proj1 (@C3_result_sorted_duplicates_kept asciiCase data _ H)).
Defined.

Lemma C8_witness :
  let data := B "// import 'x'" ++ nl ++ B "var x = 1;" in
  (forall m K, In m (FindAllSubmatch jsImportPattern data) ->
               1 <= K <= 7 -> nth K m None = None) /\
  ParseJS asciiCase data = Ok [].
Proof.
  intros data.
  assert (H : forall m K, In m (FindAllSubmatch jsImportPattern data) ->
                          1 <= K <= 7 -> nth K m None = None).
  { intros m K Hin. vm_compute in Hin. contradiction. }
  split; [exact H|].
  exact (proj1 (proj2 (@C8_no_form_no_imports asciiCase data H))).
Defined.

Lemma C10_witness :
  let m := [Some (0, 10); None; None; None; None; None; None; None] in
  let m' := [Some (11, 23); None; Some (19, 22); None; None; None; None; None] in
  let data := B "jest.mock(f)" ++ nl ++ B "require('x')" in
  (forall K, 1 <= K <= 7 -> nth K m None = None) /\
  ParseJS_loop asciiCase ([] ++ m :: [m']) data []
    = ParseJS_loop asciiCase ([] ++ [m']) data [].
Proof.
  intros m m' data.
  assert (H : forall K, 1 <= K <= 7 -> nth K m None = None).
  { intros K HK.
    do 8 (destruct K as [|K]; [try reflexivity; lia|]). lia. }
  split; [exact H|].
  exact (proj1 (@C10_captureless_match_is_inert asciiCase [] m [m'] data [] H)).
Defined.

(** ** The unquoter against its description *)

Lemma skipn_set_nth : forall A (l : list A) lo i x,
  skipn lo (set_nth l (lo + i) x) = set_nth (skipn lo l) i x.
Proof.
  intros A l lo. revert l.
  induction lo as [|lo IH]; intros [|y l] i x; simpl; auto.
Qed.

Lemma firstn_set_nth : forall A (l : list A) n i x,
  firstn n (set_nth l i x) = set_nth (firstn n l) i x.
Proof.
  induction l as [|y l IH]; intros [|n] [|i] x; simpl; auto.
  now rewrite IH.
Qed.

Lemma slice_set_nth : forall data lo hi i x,
  slice (set_nth data (lo + i) x) lo hi = set_nth (slice data lo hi) i x.
Proof.
  intros. unfold slice. now rewrite skipn_set_nth, firstn_set_nth.
Qed.

Lemma length_slice : forall data lo hi,
  hi <= length data -> length (slice data lo hi) = hi - lo.
Proof.
  intros data lo hi H. unfold slice.
  rewrite length_firstn, length_skipn. lia.
Qed.

Lemma slice_inner : forall q : bytes,
  slice q 1 (length q - 1) = spec_strip q.
Proof.
  intros [|c q]; [reflexivity|].
  unfold slice, spec_strip. simpl skipn. simpl tl.
  rewrite removelast_firstn_len. f_equal. simpl. lia.
Qed.

Lemma set_nth_last : forall A (l : list A) (x : A),
  l <> [] -> set_nth l (length l - 1) x = removelast l ++ [x].
Proof.
  induction l as [|y l IH]; intros x H; [contradiction|].
  destruct l as [|z l]; [reflexivity|].
  specialize (IH x ltac:(discriminate)).
  cbn [length Nat.sub] in IH |- *. rewrite Nat.sub_0_r in IH.
  cbn [set_nth]. cbn [set_nth] in IH.
  change (removelast (y :: z :: l)) with (y :: removelast (z :: l)).
  cbn [app]. f_equal. exact IH.
Qed.

Lemma requote_in_place : forall q : bytes,
  2 <= length q ->
  set_nth (set_nth q 0 dquote) (length (set_nth q 0 dquote) - 1) dquote
    = spec_requote q.
Proof.
  intros [|c [|d q]] H; simpl in H; try lia.
  rewrite set_nth_last by discriminate. reflexivity.
Qed.

Lemma needs_backslash_spec : forall piece : bytes,
  (length piece =? 0) || negb (Ascii.eqb (last piece zero) bslash)
    = negb (ends_in_backslash piece).
Proof.
  intros piece. unfold ends_in_backslash.
  destruct piece as [|c piece] using rev_ind; [reflexivity|].
  rewrite rev_app_distr, last_last, length_app. simpl.
  now replace (length piece + 1 =? 0) with false by (symmetry; apply Nat.eqb_neq; lia).
Qed.

Lemma set_nth_middle : forall A (done : list A) y todo x,
  set_nth (done ++ y :: todo) (length done) x = done ++ x :: todo.
Proof.
  induction done as [|z done IH]; intros; simpl; [reflexivity|].
  now rewrite IH.
Qed.

Lemma nth_middle_bytes : forall (done : list bytes) y todo,
  nth (length done) (done ++ y :: todo) [] = y.
Proof.
  induction done as [|z done IH]; intros; simpl; auto.
Qed.

(** The index loop of the source against the recursion over the pieces. *)
Lemma escapePieces_spec : forall todo done,
  escapePieces (length todo - 1) (length done) (done ++ todo)
    = done ++ spec_reescape todo.
Proof.
  induction todo as [|piece todo IH]; intros done; [reflexivity|].
  destruct todo as [|next todo]; [reflexivity|].
  replace (length (piece :: next :: todo) - 1) with (S (length (next :: todo) - 1))
    by (simpl; lia).
  cbn [escapePieces spec_reescape].
  rewrite nth_middle_bytes, needs_backslash_spec, set_nth_middle.
  destruct (ends_in_backslash piece); cbn [negb].
  - specialize (IH (done ++ [piece])).
    rewrite length_app, <- !app_assoc in IH. simpl in IH.
    replace (S (length done)) with (length done + 1) by lia.
    exact IH.
  - specialize (IH (done ++ [piece ++ [bslash]])).
    rewrite length_app, <- !app_assoc in IH. simpl in IH.
    replace (S (length done)) with (length done + 1) by lia.
    exact IH.
Qed.

Lemma bytes_Split_nonempty : forall s sep, bytes_Split s sep <> [].
Proof.
  induction s as [|c s IH]; intros sep; simpl; [discriminate|].
  destruct (Ascii.eqb c sep); [discriminate|].
  destruct (bytes_Split s sep); discriminate.
Qed.

(** C6: on a capture of at least two bytes the unquoter strips the
    delimiters, splits the body on the double quote, re-escapes all pieces
    but the last and wraps the joined pieces in double quotes when there are
    several, leaves the capture alone when there is one, rewrites
    single-quote delimiters, and decodes. *)
Theorem C6_unquoter_follows_description : forall data lo hi,
  lo + 2 <= hi -> hi <= length data ->
  snd (unquoteImportString data lo hi) = spec_unquote (slice data lo hi).
Proof.
  intros data lo hi H2 Hhi.
  unfold unquoteImportString, spec_unquote, spec_prepare.
  cbn [rd].
  pose proof (length_slice data lo Hhi) as Hlen.
  set (q := slice data lo hi) in *.
  replace (length q <? 2) with false by (symmetry; apply Nat.ltb_ge; lia).
  rewrite slice_inner.
  pose proof (bytes_Split_nonempty (spec_strip q) dquote) as Hne.
  destruct (bytes_Split (spec_strip q) dquote) as [|p1 [|p2 ps]] eqn:Es;
    [contradiction| |].
  - (* one piece: the capture itself, rewritten in the buffer *)
    cbn [length Nat.eqb negb rd].
    fold q.
    destruct q as [|c q'] eqn:Eq; [simpl in Hlen; lia|].
    cbn [nth].
    destruct (Ascii.eqb c squote) eqn:Ec.
    + cbn [wr rd].
      rewrite !slice_set_nth. fold q. rewrite Eq.
      rewrite requote_in_place by (simpl in *; lia).
      destruct (strconv.Unquote _); reflexivity.
    + cbn [rd]. fold q. rewrite Eq.
      destruct (strconv.Unquote _); reflexivity.
  - (* several pieces: a fresh buffer between double quotes *)
    replace (negb (length (p1 :: p2 :: ps) =? 1)) with true by reflexivity.
    pose proof (escapePieces_spec (p1 :: p2 :: ps) []) as Hesc.
    cbn [app length] in Hesc. cbn [length]. rewrite Hesc.
    cbn [rd nth app]. cbn [Ascii.eqb dquote squote ascii_of_nat].
    assert (Hdq : Ascii.eqb dquote squote = false) by reflexivity.
    rewrite Hdq.
    set (body := bytes_Join _ _).
    assert (Hre : spec_requote (dquote :: body ++ [dquote]) = dquote :: body ++ [dquote]).
    { unfold spec_requote. cbn [tl]. now rewrite removelast_last. }
    destruct q as [|c q']; [simpl in Hlen; lia|].
    destruct (Ascii.eqb c squote); cbn [app]; rewrite ?Hre;
      destruct (strconv.Unquote _); reflexivity.
Qed.

Lemma C6_witness :
  let data := B "require('a" ++ dq ++ B "b')" in
  8 + 2 <= 13 /\ 13 <= length data /\
  snd (unquoteImportString data 8 13) = Ok (B "a" ++ dq ++ B "b").
Proof.
  intros data.
  split; [lia|]. split; [vm_compute; lia|].
  rewrite (@C6_unquoter_follows_description data 8 13) by (vm_compute; lia).
  vm_compute. reflexivity.
Defined.

(** ** The matcher against the matches of an expression *)

Lemma star_bodies_consume : star_bodies_consume_b jsImportPattern = true.
Proof. reflexivity. Qed.

Lemma DecodeRune_width : forall p : bytes,
  p <> [] -> 1 <= snd (utf8.DecodeRune p) <= length p.
Proof.
  intros p Hp. unfold utf8.DecodeRune.
  destruct p as [|b0 [|b1 [|b2 [|b3 tl]]]]; [contradiction| | | |];
    repeat match goal with
           | |- context [match ?x with _ => _ end] => destruct x
           end; simpl; lia.
Qed.

Lemma second_range_low : forall b0 sz lo hi,
  utf8.second_range b0 = Some (sz, lo, hi) -> (128 <= lo)%Z.
Proof.
  intros b0 sz lo hi. unfold utf8.second_range.
  repeat match goal with
         | |- context [if ?x then _ else _] => destruct x
         end; intros H; try discriminate; injection H as <- <- <-; lia.
Qed.

(** The bytes of a rune after its first are not ASCII. *)
Lemma DecodeRune_tail_high : forall (p : bytes) i c,
  0 < i < snd (utf8.DecodeRune p) -> nth_error p i = Some c ->
  (128 <= byteZ c)%Z.
Proof.
  intros p i c. unfold utf8.DecodeRune.
  destruct p as [|b0 tl]; [simpl; lia|].
  destruct (byteZ b0 <? utf8.RuneSelf)%Z; [simpl; lia|].
  destruct (utf8.second_range b0) as [[[sz lo] hi]|] eqn:Er; [|simpl; lia].
  apply second_range_low in Er.
  destruct tl as [|b1 tl]; [simpl; lia|].
  destruct (utf8.inb lo hi b1) eqn:E1; cbn [negb]; [|simpl; lia].
  assert (H1 : (128 <= byteZ b1)%Z).
  { unfold utf8.inb in E1. apply andb_prop in E1. destruct E1 as [E1 _].
    apply Z.leb_le in E1. lia. }
  assert (Hc : forall b, utf8.cont b = true -> (128 <= byteZ b)%Z).
  { intros b Hb. unfold utf8.cont, utf8.inb in Hb.
    apply andb_prop in Hb. destruct Hb as [Hb _]. now apply Z.leb_le in Hb. }
  destruct sz as [|[|[|sz]]].
  - destruct tl as [|b2 tl]; [simpl; lia|].
    destruct (utf8.cont b2) eqn:E2; cbn [negb]; [|simpl; lia].
    destruct tl as [|b3 tl]; [simpl; lia|].
    destruct (utf8.cont b3) eqn:E3; cbn [negb]; [|simpl; lia].
    cbn [snd]. intros Hi Hn.
    destruct i as [|[|[|[|i]]]]; try lia; simpl in Hn; injection Hn as <-; auto.
  - destruct tl as [|b2 tl]; [simpl; lia|].
    destruct (utf8.cont b2) eqn:E2; cbn [negb]; [|simpl; lia].
    destruct tl as [|b3 tl]; [simpl; lia|].
    destruct (utf8.cont b3) eqn:E3; cbn [negb]; [|simpl; lia].
    cbn [snd]. intros Hi Hn.
    destruct i as [|[|[|[|i]]]]; try lia; simpl in Hn; injection Hn as <-; auto.
  - cbn [snd]. intros Hi Hn.
    destruct i as [|[|i]]; try lia. simpl in Hn. injection Hn as <-. auto.
  - destruct tl as [|b2 tl]; [simpl; lia|].
    destruct (utf8.cont b2) eqn:E2; cbn [negb]; [|simpl; lia].
    destruct sz as [|sz].
    + cbn [snd]. intros Hi Hn.
      destruct i as [|[|[|i]]]; try lia; simpl in Hn; injection Hn as <-; auto.
    + destruct tl as [|b3 tl]; [simpl; lia|].
      destruct (utf8.cont b3) eqn:E3; cbn [negb]; [|simpl; lia].
      cbn [snd]. intros Hi Hn.
      destruct i as [|[|[|[|i]]]]; try lia; simpl in Hn; injection Hn as <-; auto.
Qed.

Section MatcherFacts.

Variable data : bytes.

Lemma step_width : forall p,
  p < length data -> 1 <= snd (step data p) <= length data - p.
Proof.
  intros p Hp. unfold step.
  rewrite <- (length_skipn p data).
  apply DecodeRune_width.
  intros E. apply (f_equal (@length ascii)) in E.
  rewrite length_skipn in E. simpl in E. lia.
Qed.

Lemma nth_error_lt : forall (p : nat) (c : ascii),
  nth_error data p = Some c -> p < length data.
Proof.
  intros p c H. apply nth_error_Some. congruence.
Qed.

(** A match moves forward and stays inside the input. *)
Lemma Matches_pos : forall r s s',
  Matches data r s s' -> pos s <= length data ->
  pos s <= pos s' <= length data.
Proof.
  induction 1; intros Hwf; simpl;
    try (apply nth_error_lt in H; try pose proof (step_width H));
    try specialize (IHMatches Hwf);
    try specialize (IHMatches1 Hwf);
    try specialize (IHMatches2 ltac:(lia));
    try lia; auto.
Qed.

Definition sound_body (r : regex) (body : cont_t -> cont_t) : Prop :=
  forall k s res, body k s = Some res ->
    exists s', Matches data r s s' /\ k s' = Some res.

Lemma star_loop_sound : forall r body g,
  sound_body r body ->
  forall n k s res, star_loop body g k n s = Some res ->
    exists s', Matches data (Star g r) s s' /\ k s' = Some res.
Proof.
  intros r body g Hb n.
  induction n as [|n IH]; intros k s res H; cbn [star_loop] in H.
  - exists s. split; [constructor|exact H].
  - assert (Again : forall res',
      body (fun s' => if pos s <? pos s' then star_loop body g k n s' else None) s
        = Some res' ->
      exists s', Matches data (Star g r) s s' /\ k s' = Some res').
    { intros res' Hr. apply Hb in Hr. destruct Hr as (s1 & M1 & K1).
      destruct (Nat.ltb_spec (pos s) (pos s1)); [|discriminate].
      apply IH in K1. destruct K1 as (s2 & M2 & K2).
      exists s2. split; [eapply M_StarS; eauto|exact K2]. }
    destruct g; unfold orelse in H.
    + destruct (body _ s) eqn:E.
      * injection H as <-. now apply Again.
      * exists s. split; [constructor|exact H].
    + destruct (k s) eqn:E.
      * injection H as <-. exists s. split; [constructor|exact E].
      * now apply Again.
Qed.

(** Whatever the matcher returns, it got from its continuation at the
    end of a match of the expression. *)
Lemma rmatch_sound : forall r k s res,
  rmatch data r k s = Some res ->
  exists s', Matches data r s s' /\ k s' = Some res.
Proof.
  induction r; intros k s res H; cbn [rmatch] in H.
  - exists s. split; [constructor|exact H].
  - destruct (nth_error data (pos s)) as [x|] eqn:E; [|discriminate].
    destruct (Ascii.eqb_spec x c); [|discriminate]. subst x.
    eexists. split; [now apply M_Lit|exact H].
  - destruct (nth_error data (pos s)) as [x|] eqn:E; [|discriminate].
    destruct (is_nl x) eqn:En; [discriminate|].
    eexists. split; [eapply M_Any; eauto|exact H].
  - destruct (nth_error data (pos s)) as [x|] eqn:E; [|discriminate].
    destruct (is_space x) eqn:En; [|discriminate].
    eexists. split; [eapply M_Space; eauto|exact H].
  - destruct (bol_at data (pos s)) eqn:E; [|discriminate].
    exists s. split; [now constructor|exact H].
  - apply IHr1 in H. destruct H as (s1 & M1 & H).
    apply IHr2 in H. destruct H as (s2 & M2 & H).
    exists s2. split; [econstructor; eauto|exact H].
  - unfold orelse in H. destruct (rmatch data r1 k s) eqn:E.
    + injection H as <-. apply IHr1 in E. destruct E as (s1 & M1 & E).
      exists s1. split; [now apply M_AltL|exact E].
    + apply IHr2 in H. destruct H as (s1 & M1 & H).
      exists s1. split; [now apply M_AltR|exact H].
  - eapply star_loop_sound; [|exact H]. exact IHr.
  - apply IHr in H. destruct H as (s1 & M1 & H).
    exists (setcap n (pos s) (pos s1) s1).
    split; [apply M_Cap; exact M1|exact H].
Qed.

Definition complete_body (r : regex) (body : cont_t -> cont_t) : Prop :=
  forall k s s' x, pos s <= length data -> Matches data r s s' ->
    k s' = Some x -> exists y, body k s = Some y.

Lemma star_loop_complete : forall r body g,
  complete_body r body ->
  forall n k s s' x,
    length data - pos s < n -> pos s <= length data ->
    Matches data (Star g r) s s' -> k s' = Some x ->
    exists y, star_loop body g k n s = Some y.
Proof.
  intros r body g Hb n.
  induction n as [|n IH]; intros k s s' x Hn Hwf HM Hk; [lia|].
  cbn [star_loop]. unfold orelse.
  inversion HM as [| | | | | | | |g0 r0 s0|g0 r0 s0 s1 s2 M1 Hlt M2|]; subst.
  - destruct g.
    + destruct (body _ s'); eauto.
    + rewrite Hk. eauto.
  - pose proof (Matches_pos M1 Hwf) as P1.
    destruct (IH k s1 s' x) as [y Hy]; try lia; auto.
    destruct (Hb (fun s'0 => if pos s <? pos s'0
                             then star_loop body g k n s'0 else None)
                 s s1 y Hwf M1) as [y' Hy'].
    { destruct (Nat.ltb_spec (pos s) (pos s1)); [exact Hy|lia]. }
    destruct g.
    + rewrite Hy'. eauto.
    + destruct (k s); eauto.
Qed.

(** When the expression has a match that the continuation accepts, the
    matcher returns a result. *)
Lemma rmatch_complete : forall r k s s' x,
  pos s <= length data -> Matches data r s s' -> k s' = Some x ->
  exists y, rmatch data r k s = Some y.
Proof.
  induction r; intros k s s' x Hwf HM Hk; cbn [rmatch];
    inversion HM; subst;
    repeat match goal with
           | H : nth_error data _ = Some _ |- _ => rewrite H; clear H
           | H : is_nl _ = _ |- _ => rewrite H; clear H
           | H : is_space _ = _ |- _ => rewrite H; clear H
           | H : bol_at data _ = _ |- _ => rewrite H; clear H
           end;
    rewrite ?Ascii.eqb_refl; eauto.
  - match goal with
    | M1 : Matches data r1 s ?s1, M2 : Matches data r2 ?s1 s' |- _ =>
      pose proof (Matches_pos M1 Hwf);
      destruct (IHr2 k s1 s' x) as [y Hy]; [lia|exact M2|exact Hk|];
      eapply IHr1; eauto
    end.
  - unfold orelse.
    match goal with
    | M1 : Matches data r1 s s' |- _ =>
      destruct (IHr1 k s s' x) as [y Hy]; [exact Hwf|exact M1|exact Hk|];
      rewrite Hy; eauto
    end.
  - unfold orelse. destruct (rmatch data r1 k s); eauto.
  - eapply star_loop_complete; eauto.
  - eapply star_loop_complete; eauto.
Qed.

End MatcherFacts.

(** ** What the capture registers hold *)

Lemma nth_set_nth : forall A (l : list A) i j x d,
  nth j (set_nth l i x) d = if (j =? i) && (i <? length l) then x else nth j l d.
Proof.
  induction l as [|y l IH]; intros i j x d.
  - cbn [set_nth length].
    replace (i <? 0) with false by (symmetry; apply Nat.ltb_ge; lia).
    now rewrite Bool.andb_false_r.
  - destruct i as [|i], j as [|j]; simpl; auto.
Qed.

Section CaptureInvariant.

Variable data : bytes.

(** A property of the spans that groups capture. *)
Variable Q : nat -> nat -> Prop.

(** Every match of the body of every group of [r] spans a [Q]. *)
Fixpoint groups_span (r : regex) : Prop :=
  match r with
  | Cat r1 r2 | Alt r1 r2 => groups_span r1 /\ groups_span r2
  | Star _ r' => groups_span r'
  | Cap _ r' =>
    groups_span r' /\
    (forall s s', pos s <= length data -> Matches data r' s s' -> Q (pos s) (pos s'))
  | _ => True
  end.

Definition caps_ok (s : mstate) : Prop :=
  forall n lo hi, nth n (caps s) None = Some (lo, hi) -> Q lo hi.

Lemma Matches_caps_ok : forall r s s',
  Matches data r s s' -> groups_span r -> pos s <= length data ->
  caps_ok s -> caps_ok s'.
Proof.
  induction 1; intros G Hwf Hok; cbn [groups_span] in G; auto.
  - destruct G as [G1 G2].
    pose proof (Matches_pos H Hwf). apply IHMatches2; auto; lia.
  - destruct G as [G1 G2]. auto.
  - destruct G as [G1 G2]. auto.
  - pose proof (Matches_pos H Hwf). apply IHMatches2; auto; lia.
  - destruct G as [G1 G2].
    intros j lo hi. unfold setcap. cbn [caps]. rewrite nth_set_nth.
    destruct ((j =? n) && (n <? length (caps s1))).
    + intros E. injection E as <- <-. now apply G2.
    + apply IHMatches; auto.
Qed.

End CaptureInvariant.

Section PatternFacts.

Variable data : bytes.

Lemma jsImportPattern_eq : jsImportPattern = compileJsImportPattern.
Proof. reflexivity. Qed.

(** A literal between two quote characters [q]: where it starts and
    ends, and the match of what is between the quotes. *)
Lemma quoted_span : forall q inner s s',
  Matches data (cats [Lit q; inner; Lit q]) s s' ->
  pos s <= length data ->
  nth_error data (pos s) = Some q /\
  nth_error data (pos s' - 1) = Some q /\
  pos s + 2 <= pos s' /\ pos s' <= length data /\
  exists s1 s2, pos s1 = pos s + 1 /\ caps s1 = caps s /\
                Matches data inner s1 s2 /\
                pos s' = pos s2 + 1 /\ caps s' = caps s2.
Proof.
  intros q inner s s' HM Hwf. cbn [cats] in HM.
  inversion HM as [| | | | |? ? ? t1 ? M1 M2| | | | |]; subst; clear HM.
  inversion M1; subst; clear M1.
  inversion M2 as [| | | | |? ? ? t2 ? M3 M4| | | | |]; subst; clear M2.
  inversion M4 as [| | | | |? ? ? t3 ? M5 M6| | | | |]; subst; clear M4.
  inversion M5; subst; clear M5.
  inversion M6; subst; clear M6.
  match goal with
  | H : nth_error data (pos s) = Some q |- _ =>
    pose proof H as Hs; apply nth_error_lt in Hs
  end.
  match goal with
  | H : nth_error data (pos t2) = Some q |- _ =>
    pose proof H as Ht; apply nth_error_lt in Ht
  end.
  assert (P3 := Matches_pos M3). cbn [advance pos] in P3 |- *.
  specialize (P3 ltac:(lia)).
  replace (pos t2 + 1 - 1) with (pos t2) by lia.
  repeat split; auto; try lia.
  exists (advance 1 s), t2. cbn [advance pos caps]. auto.
Qed.

(** The spans that the groups of the pattern capture: at least two
    bytes inside the input, the first of them a quote character. *)
Definition literal_span (lo hi : nat) : Prop :=
  lo + 2 <= hi /\ hi <= length data /\
  (nth_error data lo = Some squote \/ nth_error data lo = Some dquote).

Lemma stringLiteral_span : forall s s',
  pos s <= length data -> Matches data stringLiteralPattern s s' ->
  literal_span (pos s) (pos s').
Proof.
  intros s s' Hwf HM. unfold stringLiteralPattern in HM.
  inversion HM; subst;
    match goal with
    | H : Matches data _ s s' |- _ =>
      apply quoted_span in H; [|exact Hwf];
      destruct H as (H1 & _ & H2 & H3 & _)
    end; unfold literal_span; auto.
Qed.

Lemma jestMock_span : forall s s',
  pos s <= length data ->
  Matches data (Alt singleQuoted (Cat doubleQuoted (Star true (Lit ",")))) s s' ->
  literal_span (pos s) (pos s').
Proof.
  intros s s' Hwf HM.
  inversion HM as [| | | | | |? ? ? ? M1|? ? ? ? M1| | |]; subst; clear HM.
  - apply quoted_span in M1; [|exact Hwf].
    destruct M1 as (H1 & _ & H2 & H3 & _). unfold literal_span; auto.
  - inversion M1 as [| | | | |? ? ? t1 ? M2 M3| | | | |]; subst; clear M1.
    apply quoted_span in M2; [|exact Hwf].
    destruct M2 as (H1 & _ & H2 & H3 & _).
    pose proof (Matches_pos M3 H3).
    unfold literal_span. repeat split; auto; lia.
Qed.

(** The groups of the pattern and what their bodies are. *)
Lemma pattern_groups : forall Q : nat -> nat -> Prop,
  (forall s s', pos s <= length data ->
     Matches data stringLiteralPattern s s' -> Q (pos s) (pos s')) ->
  (forall s s', pos s <= length data ->
     Matches data (Alt singleQuoted (Cat doubleQuoted (Star true (Lit ",")))) s s' ->
     Q (pos s) (pos s')) ->
  groups_span data Q jsImportPattern.
Proof.
  intros Q Hs Hj.
  rewrite jsImportPattern_eq.
  unfold compileJsImportPattern, importPattern, requirePattern, exportPattern,
    jestMockPattern, jestRequireActualPattern, requireResolvePattern,
    jestCreateMockFromModulePattern.
  cbn [alts cats groups_span].
  assert (Gl : forall l, groups_span data Q (lits l))
    by (induction l; cbn [lits groups_span]; auto).
  assert (Gsq : groups_span data Q singleQuoted).
  { unfold singleQuoted, charactersPattern, Plus. cbn [cats groups_span]. tauto. }
  assert (Gdq : groups_span data Q doubleQuoted).
  { unfold doubleQuoted, charactersPattern, Plus. cbn [cats groups_span]. tauto. }
  assert (Gs : groups_span data Q stringLiteralPattern).
  { unfold stringLiteralPattern. cbn [groups_span]. tauto. }
  assert (Gc : groups_span data Q constPrefix).
  { unfold constPrefix, Quest, Plus. cbn [cats groups_span]. auto 10. }
  assert (Gf : groups_span data Q fromClause).
  { unfold fromClause, Quest, Plus. cbn [cats groups_span]. auto 10. }
  assert (Gr : groups_span data Q (Quest true (lits (B "return ")))).
  { unfold Quest. cbn [groups_span]. auto. }
  repeat match goal with
         | |- _ /\ _ => split
         end; auto.
Qed.

Lemma pattern_groups_span : groups_span data literal_span jsImportPattern.
Proof.
  apply pattern_groups; [apply stringLiteral_span|apply jestMock_span].
Qed.

(** The start state of a search has no capture. *)
Lemma caps_ok_start : forall Q p n, caps_ok Q (MState p (repeat None n)).
Proof.
  intros Q p n j lo hi. cbn [caps].
  assert (E : nth j (repeat (@None (nat * nat)) n) None = None).
  { revert j. induction n as [|n IH]; intros [|j]; simpl; auto. }
  rewrite E. discriminate.
Qed.

Lemma search_inv : forall fuel re ncap p m,
  p <= length data ->
  search data fuel re ncap p = Some m ->
  exists p' res, p <= p' <= length data /\
    rmatch data re Some (MState p' (repeat None ncap)) = Some res /\
    m = set_nth (caps res) 0 (Some (p', pos res)).
Proof.
  induction fuel as [|fuel IH]; intros re ncap p m Hp H; cbn [search] in H.
  - destruct (rmatch data re Some _) as [res|] eqn:E; [|discriminate].
    injection H as <-. exists p, res. repeat split; auto.
  - destruct (rmatch data re Some _) as [res|] eqn:E.
    + injection H as <-. exists p, res. repeat split; auto.
    + destruct (Nat.eqb_spec (snd (step data p)) 0) as [E0|E0]; [discriminate|].
      assert (Hlt : p < length data).
      { destruct (Nat.eq_dec p (length data)) as [->|]; [|lia].
        exfalso. apply E0. unfold step.
        rewrite skipn_all2 by lia. reflexivity. }
      pose proof (step_width _ Hlt) as W.
      apply IH in H; [|lia].
      destruct H as (p' & res & Hp' & Hr & Hm).
      exists p', res. repeat split; auto; lia.
Qed.

Lemma allMatches_inv : forall fuel re ncap n i p prev m,
  In m (allMatches data fuel re ncap n i p prev) ->
  exists p0, p0 <= length data /\ doExecute data re ncap p0 = Some m.
Proof.
  induction fuel as [|fuel IH]; intros re ncap n i p prev m H;
    cbn [allMatches] in H; [contradiction|].
  destruct ((i <? n) && (p <=? length data)) eqn:G; [|contradiction].
  apply andb_prop in G. destruct G as [_ G]. apply Nat.leb_le in G.
  destruct (doExecute data re ncap p) as [m0|] eqn:E; [|contradiction].
  destruct (span0 m0) as [b e].
  destruct (e =? p).
  - destruct prev as [q|].
    + destruct (negb (b =? q)).
      * destruct H as [<-|H]; [eauto|eapply IH; eauto].
      * eapply IH; eauto.
    + destruct H as [<-|H]; [eauto|eapply IH; eauto].
  - destruct H as [<-|H]; [eauto|eapply IH; eauto].
Qed.

(** Every match that the search delivers comes from a run of the
    matcher from a state without captures. *)
Lemma delivered_match : forall re m,
  In m (FindAllSubmatch re data) ->
  exists p res, p <= length data /\
    Matches data re (MState p (repeat None numCap)) res /\
    m = set_nth (caps res) 0 (Some (p, pos res)).
Proof.
  intros re m H. unfold FindAllSubmatch in H.
  apply allMatches_inv in H. destruct H as (p0 & Hp0 & H).
  unfold doExecute in H. apply search_inv in H; [|exact Hp0].
  destruct H as (p & res & Hp & Hr & Hm).
  apply rmatch_sound in Hr. destruct Hr as (s' & HM & E).
  injection E as ->.
  exists p, res. repeat split; auto; lia.
Qed.

Lemma delivered_captures : forall Q m K lo hi,
  groups_span data Q jsImportPattern ->
  In m (FindAllSubmatch jsImportPattern data) ->
  1 <= K -> nth K m None = Some (lo, hi) -> Q lo hi.
Proof.
  intros Q m K lo hi G Hin HK Hn.
  apply delivered_match in Hin. destruct Hin as (p & res & Hp & HM & ->).
  rewrite nth_set_nth in Hn.
  replace (K =? 0) with false in Hn by (symmetry; apply Nat.eqb_neq; lia).
  cbn [andb] in Hn.
  eapply (Matches_caps_ok HM G); eauto.
  apply caps_ok_start.
Qed.

End PatternFacts.

Lemma unquoteImportString_no_panic : forall buf lo hi,
  lo + 2 <= hi -> hi <= length buf ->
  snd (unquoteImportString buf lo hi) <> Panic.
Proof.
  intros buf lo hi H2 Hhi. unfold unquoteImportString. cbn [rd].
  rewrite length_slice by exact Hhi.
  replace (hi - lo <? 2) with false by (symmetry; apply Nat.ltb_ge; lia).
  set (q := if negb _ then _ else _).
  destruct (Ascii.eqb _ squote).
  - destruct (wr buf q 0 dquote) as [d1 q1].
    destruct (wr d1 q1 _ dquote) as [d2 q2].
    destruct (strconv.Unquote _); discriminate.
  - destruct (strconv.Unquote _); discriminate.
Qed.

Section NoPanic.

Variable tbl : Z -> Z.

Lemma ParseJS_loop_no_panic : forall n ms buf imports,
  length buf = n ->
  (forall m K lo hi, In m ms -> 1 <= K -> nth K m None = Some (lo, hi) ->
                     lo + 2 <= hi /\ hi <= n) ->
  snd (ParseJS_loop tbl ms buf imports) <> Panic.
Proof.
  intros n. induction ms as [|m ms IH]; intros buf imports Hlen Hcaps;
    cbn [ParseJS_loop]; [discriminate|].
  assert (Hrest : forall m' K lo hi, In m' ms -> 1 <= K ->
            nth K m' None = Some (lo, hi) -> lo + 2 <= hi /\ hi <= n)
    by (intros; eapply Hcaps; eauto; now right).
  destruct (switch m cases) as [[[K [lo hi]] lower]|] eqn:Es; [|now apply IH].
  apply switch_some in Es. destruct Es as [Hin Hn].
  apply cases_lower in Hin. destruct Hin as [HK _].
  destruct (Hcaps m K lo hi) as [H2 Hhi]; auto; [now left|lia|].
  pose proof (@unquoteImportString_no_panic buf lo hi H2 ltac:(lia)) as NP.
  pose proof (unquoteImportString_length buf lo hi) as HL.
  destruct (unquoteImportString buf lo hi) as [buf' [u|e|]]; cbn [fst snd] in *.
  - apply IH; auto. lia.
  - discriminate.
  - contradiction.
Qed.

(** C9: every capture that the search hands to the unquoter is at least
    two bytes long, lies inside the input and starts with a quote
    character; the unquoter's index and slice expressions are in range on
    it, in whatever state earlier rewrites left the buffer, and ParseJS
    does not panic. *)
Theorem C9_captures_in_bounds : forall data m K lo hi,
  In m (FindAllSubmatch jsImportPattern data) ->
  1 <= K -> nth K m None = Some (lo, hi) ->
  (lo + 2 <= hi /\ hi <= length data /\
   (nth_error data lo = Some squote \/ nth_error data lo = Some dquote)) /\
  (forall buf, length buf = length data ->
               snd (unquoteImportString buf lo hi) <> Panic) /\
  ParseJS tbl data <> Panic.
Proof.
  intros data m K lo hi Hin HK Hn.
  pose proof (@delivered_captures data (literal_span data) m K lo hi
                (pattern_groups_span data) Hin HK Hn) as HQ.
  split; [exact HQ|]. destruct HQ as (H2 & Hhi & _).
  split.
  - intros buf Hb. apply unquoteImportString_no_panic; [exact H2|lia].
  - unfold ParseJS, ParseJS_run.
    pose proof (@ParseJS_loop_no_panic (length data)
                  (FindAllSubmatch jsImportPattern data) data [] eq_refl) as NP.
    destruct (ParseJS_loop tbl _ data []) as [buf [c|e|]]; cbn [snd] in *;
      try discriminate.
    apply NP. intros m' K' lo' hi' Hin' HK' Hn'.
    pose proof (@delivered_captures data (literal_span data) m' K' lo' hi'
                  (pattern_groups_span data) Hin' HK' Hn') as (A & B' & _).
    auto.
Qed.

End NoPanic.

(** ParseJS does not panic on any input. *)
Lemma ParseJS_never_panics : forall tbl data, ParseJS tbl data <> Panic.
Proof.
  intros tbl data.
  pose proof (@ParseJS_loop_no_panic tbl (length data)
                (FindAllSubmatch jsImportPattern data) data [] eq_refl) as NP.
  unfold ParseJS, ParseJS_run.
  destruct (ParseJS_loop tbl _ data []) as [buf [c|e|]]; cbn [snd] in *;
    try discriminate.
  apply NP. intros m K lo hi Hin HK Hn.
  pose proof (@delivered_captures data (literal_span data) m K lo hi
                (pattern_groups_span data) Hin HK Hn) as (A & B' & _).
  auto.
Qed.

Lemma C9_witness :
  let data := B "const a = require('x')" in
  let m := [Some (0, 22); None; Some (18, 21); None; None; None; None; None] in
  In m (FindAllSubmatch jsImportPattern data) /\ 1 <= REQUIRE /\
  nth REQUIRE m None = Some (18, 21) /\
  18 + 2 <= 21 /\ ParseJS asciiCase data <> Panic.
Proof.
  intros data m.
  assert (Hin : In m (FindAllSubmatch jsImportPattern data))
    by (vm_compute; left; reflexivity).
  assert (HK : 1 <= REQUIRE) by (unfold REQUIRE; lia).
  assert (Hn : nth REQUIRE m None = Some (18, 21)) by reflexivity.
  destruct (@C9_captures_in_bounds asciiCase data m REQUIRE 18 21 Hin HK Hn)
    as ((A & _) & _ & C).
  exact (conj Hin (conj HK (conj Hn (conj A C)))).
Defined.

(** ** Reading matches backwards *)

Section Inversion.

Variable data : bytes.

Lemma cat_inv : forall r1 r2 s s',
  Matches data (Cat r1 r2) s s' ->
  exists s1, Matches data r1 s s1 /\ Matches data r2 s1 s'.
Proof. intros r1 r2 s s' H. inversion H; subst. eauto. Qed.

Lemma alt_inv : forall r1 r2 s s',
  Matches data (Alt r1 r2) s s' ->
  Matches data r1 s s' \/ Matches data r2 s s'.
Proof. intros r1 r2 s s' H. inversion H; subst; auto. Qed.

Lemma eps_inv : forall s s', Matches data Eps s s' -> s' = s.
Proof. intros s s' H. inversion H; subst; auto. Qed.

Lemma bol_inv : forall s s',
  Matches data BOL s s' -> bol_at data (pos s) = true /\ s' = s.
Proof. intros s s' H. inversion H; subst; auto. Qed.

Lemma lit_inv : forall c s s',
  Matches data (Lit c) s s' ->
  nth_error data (pos s) = Some c /\ s' = advance 1 s.
Proof. intros c s s' H. inversion H; subst; auto. Qed.

Lemma any_inv : forall s s',
  Matches data AnyNotNL s s' ->
  exists x, nth_error data (pos s) = Some x /\ is_nl x = false /\
            s' = advance (snd (step data (pos s))) s.
Proof. intros s s' H. inversion H; subst; eauto. Qed.

Lemma space_inv : forall s s',
  Matches data Space s s' ->
  exists x, nth_error data (pos s) = Some x /\ is_space x = true /\
            s' = advance 1 s.
Proof. intros s s' H. inversion H; subst; eauto. Qed.

Lemma star_inv : forall g r s s',
  Matches data (Star g r) s s' ->
  s' = s \/
  exists s1, Matches data r s s1 /\ pos s < pos s1 /\
             Matches data (Star g r) s1 s'.
Proof. intros g r s s' H. inversion H; subst; eauto. Qed.

Lemma cap_inv : forall n r s s',
  Matches data (Cap n r) s s' ->
  exists s1, Matches data r s s1 /\ s' = setcap n (pos s) (pos s1) s1.
Proof. intros n r s s' H. inversion H; subst; eauto. Qed.

Lemma nth_error_skipn_at : forall (l : bytes) a i,
  nth_error (skipn a l) i = nth_error l (a + i).
Proof.
  induction l as [|x l IH]; intros [|a] i; cbn; auto.
  now destruct i.
Qed.

Lemma skipn_head : forall (l : bytes) a c,
  nth_error l a = Some c <-> exists tl, skipn a l = c :: tl.
Proof.
  intros l a c.
  pose proof (nth_error_skipn_at l a 0) as E. rewrite Nat.add_0_r in E.
  rewrite <- E. destruct (skipn a l) as [|x tl]; cbn; split.
  - discriminate.
  - intros [tl' H]. discriminate.
  - intros H. injection H as ->. eauto.
  - intros [tl' H]. injection H as -> _. reflexivity.
Qed.

(** A run of literal bytes matches where the input has these bytes. *)
Lemma lits_inv : forall l s s',
  Matches data (lits l) s s' ->
  firstn (length l) (skipn (pos s) data) = l /\ s' = advance (length l) s.
Proof.
  induction l as [|c l IH]; intros s s' H; cbn [lits] in H.
  - apply eps_inv in H. subst. split; [reflexivity|].
    destruct s. unfold advance. cbn. now rewrite Nat.add_0_r.
  - apply cat_inv in H. destruct H as (s1 & H1 & H2).
    apply lit_inv in H1. destruct H1 as [Hc ->].
    apply IH in H2. destruct H2 as [Hl ->].
    cbn [advance pos caps] in *.
    apply skipn_head in Hc. destruct Hc as [tl E].
    split.
    + cbn [length firstn]. rewrite E. f_equal.
      replace (pos s + 1) with (1 + pos s) in Hl by lia.
      now rewrite <- skipn_skipn, E in Hl.
    + unfold advance. cbn [pos caps length]. f_equal. lia.
Qed.

Lemma lits_intro : forall l s,
  firstn (length l) (skipn (pos s) data) = l ->
  Matches data (lits l) s (advance (length l) s).
Proof.
  induction l as [|c l IH]; intros s H; cbn [lits].
  - replace (advance (length (@nil ascii)) s) with s; [constructor|].
    destruct s. unfold advance. cbn. now rewrite Nat.add_0_r.
  - destruct (skipn (pos s) data) as [|x tl] eqn:E; [discriminate|].
    cbn [length firstn] in H. injection H as -> Hl.
    assert (Hc : nth_error data (pos s) = Some c) by (apply skipn_head; eauto).
    econstructor; [now apply M_Lit|].
    replace (advance (length (c :: l)) s) with (advance (length l) (advance 1 s)).
    + apply IH. cbn [advance pos].
      replace (pos s + 1) with (1 + pos s) by lia.
      rewrite <- skipn_skipn, E. exact Hl.
    + unfold advance. cbn. f_equal. lia.
Qed.

(** Without groups the registers stay as they are. *)
Lemma Matches_no_group : forall r s s',
  Matches data r s s' -> has_group r = false -> caps s' = caps s.
Proof.
  induction 1; cbn [has_group]; intros G; auto;
    try (apply orb_false_elim in G; destruct G as [G1 G2]).
  - rewrite IHMatches2, IHMatches1; auto.
  - auto.
  - auto.
  - rewrite IHMatches2, IHMatches1; auto.
  - discriminate.
Qed.

(** An expression that cannot consume a newline matches no newline. *)
Lemma Matches_no_newline : forall r s s',
  Matches data r s s' -> eats_newline r = false -> pos s <= length data ->
  forall i, pos s <= i < pos s' -> nth_error data i <> Some newline.
Proof.
  induction 1; cbn [eats_newline]; intros G Hwf i Hi;
    try (apply orb_false_elim in G; destruct G as [G1 G2]);
    cbn [advance pos] in *; try lia; try discriminate.
  - assert (i = pos s) by lia. subst i. rewrite H. intros E.
    injection E as ->. unfold is_nl in G. now rewrite Ascii.eqb_refl in G.
  - destruct (Nat.eq_dec i (pos s)) as [->|Hne].
    + rewrite H. intros E. injection E as ->.
      unfold is_nl in H0. now rewrite Ascii.eqb_refl in H0.
    + intros E.
      assert (Hh : (128 <= byteZ newline)%Z).
      { apply (@DecodeRune_tail_high (skipn (pos s) data) (i - pos s)).
        - unfold step in Hi. lia.
        - rewrite nth_error_skipn_at.
          now replace (pos s + (i - pos s)) with i by lia. }
      vm_compute in Hh. now apply Hh.
  - pose proof (Matches_pos H Hwf).
    destruct (Nat.lt_ge_cases i (pos s1)).
    + apply IHMatches1; auto. lia.
    + apply IHMatches2; auto; lia.
  - apply IHMatches; auto.
  - apply IHMatches; auto.
  - pose proof (Matches_pos H Hwf).
    destruct (Nat.lt_ge_cases i (pos s1)).
    + apply IHMatches1; auto. lia.
    + apply IHMatches2; auto; lia.
  - apply IHMatches; auto.
Qed.

End Inversion.

(** ** A require call with a plain path, in either kind of quotes *)

Section RequireLiteral.

Variable q : ascii.
Variable p : bytes.
Hypothesis Hq : q = squote \/ q = dquote.
Hypothesis Hplain : plain_path p.

Let data : bytes := require_of q p.

Lemma require_of_shape : data = B "require(" ++ q :: p ++ q :: B ")".
Proof. reflexivity. Qed.

Lemma require_of_length : length data = 11 + length p.
Proof.
  rewrite require_of_shape. rewrite length_app. cbn [length B list_ascii_of_string].
  rewrite length_app. cbn [length]. lia.
Qed.

Lemma require_of_open : nth_error data 8 = Some q.
Proof. reflexivity. Qed.

Lemma require_of_body : forall j,
  nth_error data (9 + j) = nth_error (p ++ q :: B ")") j.
Proof. reflexivity. Qed.

Lemma require_of_close : nth_error data (9 + length p) = Some q.
Proof.
  rewrite require_of_body, nth_error_app2 by lia.
  now rewrite Nat.sub_diag.
Qed.

Lemma require_of_paren : nth_error data (10 + length p) = Some ")"%char.
Proof.
  change (10 + length p) with (9 + S (length p)).
  rewrite require_of_body, nth_error_app2 by lia.
  now replace (S (length p) - length p) with 1 by lia.
Qed.

(** The quote characters of the input are the two delimiters. *)
Lemma require_of_quotes : forall i c,
  nth_error data i = Some c -> c = squote \/ c = dquote ->
  c = q /\ (i = 8 \/ i = 9 + length p).
Proof.
  intros i c H Hc.
  destruct (Nat.lt_ge_cases i 8) as [Hi|Hi].
  - exfalso.
    do 8 (destruct i as [|i];
          [cbn in H; injection H as <-; destruct Hc; discriminate|]).
    lia.
  - destruct (Nat.eq_dec i 8) as [->|Hne].
    + rewrite require_of_open in H. injection H as <-. auto.
    + replace i with (9 + (i - 9)) in H by lia.
      rewrite require_of_body in H.
      destruct (Nat.lt_ge_cases (i - 9) (length p)) as [Hj|Hj].
      * rewrite nth_error_app1 in H by exact Hj.
        apply nth_error_In, Hplain in H.
        exfalso. destruct Hc; tauto.
      * rewrite nth_error_app2 in H by exact Hj.
        destruct (i - 9 - length p) as [|[|k]] eqn:E.
        -- cbn in H. injection H as <-. split; [reflexivity|]. lia.
        -- cbn in H. injection H as <-. destruct Hc; discriminate.
        -- cbn in H. now destruct k.
Qed.

Lemma require_of_quote_char : forall i c,
  nth_error data i = Some c -> c = squote \/ c = dquote -> c = q.
Proof. intros i c H Hc. now destruct (require_of_quotes _ H Hc). Qed.

(** A quoted literal can only be matched from the opening to the
    closing delimiter. *)
Lemma require_of_literal : forall q1 inner s s',
  q1 = squote \/ q1 = dquote ->
  pos s <= length data ->
  Matches data (cats [Lit q1; inner; Lit q1]) s s' ->
  q1 = q /\ pos s = 8 /\ pos s' = 10 + length p /\
  exists s1 s2, pos s1 = 9 /\ pos s2 = 9 + length p /\ caps s1 = caps s /\
                caps s' = caps s2 /\ Matches data inner s1 s2.
Proof.
  intros q1 inner s s' Hq1 Hwf HM.
  apply quoted_span in HM; [|exact Hwf].
  destruct HM as (Ho & Hc & H2 & Hlen & s1 & s2 & P1 & C1 & HM & P2 & C2).
  destruct (require_of_quotes _ Ho Hq1) as [-> Hpo].
  destruct (require_of_quotes _ Hc Hq1) as [_ Hpc].
  assert (pos s = 8 /\ pos s' = 10 + length p) as [E1 E2] by lia.
  repeat split; auto.
  exists s1, s2. repeat split; auto; lia.
Qed.

(** With a newline in the path no string literal matches anywhere. *)
Lemma require_of_newline_no_literal : forall j q1 s s',
  nth_error p j = Some newline ->
  q1 = squote \/ q1 = dquote ->
  pos s <= length data ->
  Matches data
    (cats [Lit q1; Star true (Alt charactersPattern (Lit (if Ascii.eqb q1 squote
                                                          then dquote else squote)));
           Lit q1]) s s' ->
  False.
Proof.
  intros j q1 s s' Hj Hq1 Hwf HM.
  apply require_of_literal in HM; auto.
  destruct HM as (_ & _ & _ & s1 & s2 & P1 & P2 & _ & _ & HM).
  assert (Hlt : j < length p) by (apply nth_error_Some; congruence).
  apply (Matches_no_newline HM) with (i := 9 + j).
  - destruct Hq1 as [-> | ->]; reflexivity.
  - rewrite P1, require_of_length. lia.
  - lia.
  - rewrite require_of_body, nth_error_app1 by exact Hlt. exact Hj.
Qed.

Lemma require_of_newline_no_capture : forall j m K,
  nth_error p j = Some newline ->
  In m (FindAllSubmatch jsImportPattern data) -> 1 <= K ->
  nth K m None = None.
Proof.
  intros j m K Hj Hin HK.
  destruct (nth K m None) as [[lo hi]|] eqn:E; [exfalso|reflexivity].
  apply (@delivered_captures data (fun _ _ => False) m K lo hi); auto.
  assert (Hsq : forall s s', pos s <= length data ->
                             Matches data singleQuoted s s' -> False).
  { intros s s' Hwf HM.
    apply (@require_of_newline_no_literal j squote s s'); auto. }
  assert (Hdq : forall s s', pos s <= length data ->
                             Matches data doubleQuoted s s' -> False).
  { intros s s' Hwf HM.
    apply (@require_of_newline_no_literal j dquote s s'); auto. }
  apply pattern_groups.
  - intros s s' Hwf HM. apply alt_inv in HM. destruct HM; eauto.
  - intros s s' Hwf HM. apply alt_inv in HM. destruct HM as [HM|HM]; [eauto|].
    apply cat_inv in HM. destruct HM as (s1 & HM & _). eauto.
Qed.

(** *** The path on one line *)

Definition start_state (at_ : nat) : mstate := MState at_ (repeat None numCap).

Definition require_final : mstate :=
  MState (11 + length p)
    [None; None; Some (8, 10 + length p); None; None; None; None; None].

Lemma star_space_stays : forall g x s s',
  nth_error data (pos s) = Some x -> is_space x = false ->
  Matches data (Star g Space) s s' -> s' = s.
Proof.
  intros g x s s' Hx Hs HM.
  apply star_inv in HM. destruct HM as [HM|(s1 & HM & _)]; [exact HM|].
  apply space_inv in HM. destruct HM as (y & Hy & Hsp & _).
  rewrite Hx in Hy. injection Hy as <-. congruence.
Qed.

Lemma constPrefix_stays : forall x s s',
  nth_error data (pos s) = Some x -> x <> "c"%char ->
  Matches data constPrefix s s' -> s' = s.
Proof.
  intros x s s' Hx Hc HM. unfold constPrefix, Quest in HM.
  apply alt_inv in HM. destruct HM as [HM|HM]; [|now apply eps_inv in HM].
  cbn [cats] in HM. apply cat_inv in HM. destruct HM as (s1 & HM & _).
  cbn [B list_ascii_of_string lits] in HM.
  apply cat_inv in HM. destruct HM as (s2 & HM & _).
  apply lit_inv in HM. destruct HM as [HM _]. congruence.
Qed.

(** The head of the five alternatives that allow leading white space
    and a prefix, at the start of the input. *)
Lemma line_head : forall prefix r s',
  (forall s s', pos s = 0 -> Matches data prefix s s' ->
     s' = s \/ (exists s1, Matches data (Lit "c") s s1)
            \/ Matches data (lits (B "return ")) s s') ->
  Matches data (Cat BOL (Cat (Star false Space) (Cat prefix r))) (start_state 0) s' ->
  Matches data r (start_state 0) s'.
Proof.
  intros prefix r s' Hp HM.
  apply cat_inv in HM. destruct HM as (s1 & H1 & HM).
  apply bol_inv in H1. destruct H1 as [_ ->].
  apply cat_inv in HM. destruct HM as (s2 & H2 & HM).
  apply (@star_space_stays false "r"%char) in H2; [|reflexivity|reflexivity].
  subst s2.
  apply cat_inv in HM. destruct HM as (s3 & H3 & HM).
  apply Hp in H3; [|reflexivity].
  destruct H3 as [->|[(s4 & H3)|H3]].
  - exact HM.
  - apply lit_inv in H3. destruct H3 as [H3 _]. discriminate.
  - apply lits_inv in H3. destruct H3 as [H3 _]. discriminate.
Qed.

Lemma constPrefix_head : forall s s',
  pos s = 0 -> Matches data constPrefix s s' ->
  s' = s \/ (exists s1, Matches data (Lit "c") s s1)
         \/ Matches data (lits (B "return ")) s s'.
Proof.
  intros s s' Hs HM. left.
  apply (@constPrefix_stays "r"%char) in HM; auto; [|discriminate].
  rewrite Hs. reflexivity.
Qed.

Lemma return_head : forall s s',
  pos s = 0 -> Matches data (Quest true (lits (B "return "))) s s' ->
  s' = s \/ (exists s1, Matches data (Lit "c") s s1)
         \/ Matches data (lits (B "return ")) s s'.
Proof.
  intros s s' Hs HM. unfold Quest in HM.
  apply alt_inv in HM. destruct HM as [HM|HM]; [auto|].
  apply eps_inv in HM. auto.
Qed.

Lemma start_not_lits : forall l r s',
  firstn (length l) data <> l ->
  Matches data (Cat (lits l) r) (start_state 0) s' -> False.
Proof.
  intros l r s' Hl HM.
  apply cat_inv in HM. destruct HM as (s1 & HM & _).
  apply lits_inv in HM. destruct HM as [HM _]. now apply Hl.
Qed.

Lemma q_not_letter : forall c, In c (B "abcdefghijklmnopqrstuvwxyz(") -> q <> c.
Proof.
  intros c Hc E. subst c.
  destruct Hq as [-> | ->]; cbn in Hc;
    repeat (destruct Hc as [Hc|Hc]; [discriminate|]); contradiction.
Qed.

(** Every match of the pattern at the start of the input is the
    require form around the whole literal. *)
Lemma require_of_unique : forall res,
  Matches data jsImportPattern (start_state 0) res -> res = require_final.
Proof.
  intros res HM.
  rewrite jsImportPattern_eq in HM. unfold compileJsImportPattern in HM.
  cbn [alts] in HM.
  repeat (apply alt_inv in HM; destruct HM as [HM|HM]).
  - (* import *)
    exfalso. unfold importPattern in HM. cbn [cats] in HM.
    apply cat_inv in HM. destruct HM as (s1 & H1 & HM).
    apply bol_inv in H1. destruct H1 as [_ ->].
    apply start_not_lits in HM; [exact HM|discriminate].
  - (* require *)
    unfold requirePattern in HM. cbn [cats] in HM.
    apply (line_head constPrefix_head) in HM.
    apply cat_inv in HM. destruct HM as (s8 & H8 & HM).
    apply lits_inv in H8. destruct H8 as [_ ->].
    apply cat_inv in HM. destruct HM as (sc & Hc & HM).
    apply cap_inv in Hc. destruct Hc as (t & Ht & ->).
    assert (Et : pos t = 10 + length p /\ caps t = repeat None numCap).
    { unfold stringLiteralPattern in Ht.
      apply alt_inv in Ht.
      destruct Ht as [Ht|Ht];
        (apply require_of_literal in Ht;
         [|auto|rewrite require_of_length; cbn; lia]);
        destruct Ht as (_ & _ & Pt & s1 & s2 & _ & _ & C1 & C2 & Hin);
        apply Matches_no_group in Hin; try reflexivity;
        (split; [exact Pt|]); rewrite C2, Hin, C1; reflexivity. }
    destruct Et as [Pt Ct].
    apply cat_inv in HM. destruct HM as (sp & Hp & HM).
    apply lit_inv in Hp. destruct Hp as [_ ->].
    apply cat_inv in HM. destruct HM as (se & He & HM).
    apply eps_inv in HM. subst res.
    apply star_inv in He. destruct He as [->|(s1 & He & _)].
    + unfold require_final, setcap, advance. cbn [pos caps].
      rewrite Pt, Ct. cbn. f_equal. lia.
    + exfalso. apply any_inv in He. destruct He as (x & Hx & _).
      apply nth_error_lt in Hx. cbn [advance setcap pos] in Hx.
      rewrite require_of_length in Hx. lia.
  - (* export *)
    exfalso. unfold exportPattern in HM. cbn [cats] in HM.
    apply cat_inv in HM. destruct HM as (s1 & H1 & HM).
    apply bol_inv in H1. destruct H1 as [_ ->].
    apply start_not_lits in HM; [exact HM|discriminate].
  - (* jest.mock *)
    exfalso. unfold jestMockPattern in HM. cbn [cats] in HM.
    apply (line_head constPrefix_head) in HM.
    apply start_not_lits in HM; [exact HM|discriminate].
  - (* jest.requireActual *)
    exfalso. unfold jestRequireActualPattern in HM. cbn [cats] in HM.
    apply (line_head return_head) in HM.
    apply start_not_lits in HM; [exact HM|discriminate].
  - (* require.resolve *)
    exfalso. unfold requireResolvePattern in HM. cbn [cats] in HM.
    apply (line_head constPrefix_head) in HM.
    apply cat_inv in HM. destruct HM as (s7 & H7 & HM).
    apply lits_inv in H7. destruct H7 as [_ ->].
    apply cat_inv in HM. destruct HM as (s8 & H8 & HM).
    apply any_inv in H8. destruct H8 as (x & _ & _ & ->).
    apply cat_inv in HM. destruct HM as (s9 & H9 & _).
    apply lits_inv in H9. destruct H9 as [H9 _].
    cbn in H9. injection H9 as H9 _.
    apply (@q_not_letter "r"%char); [cbn; tauto|exact H9].
  - (* jest.createMockFromModule *)
    exfalso. unfold jestCreateMockFromModulePattern in HM. cbn [cats] in HM.
    apply (line_head constPrefix_head) in HM.
    apply start_not_lits in HM; [exact HM|discriminate].
Qed.

Lemma Matches_end_eq : forall r s s2 s3,
  Matches data r s s2 -> s2 = s3 -> Matches data r s s3.
Proof. intros r s s2 s3 H <-. exact H. Qed.

(** A stretch of bytes without newline, followed by an ASCII byte, is a
    run of whole runes. *)
Lemma any_star_run : forall g cs n a,
  (forall i, a <= i < a + n ->
     exists c, nth_error data i = Some c /\ is_nl c = false) ->
  (exists c, nth_error data (a + n) = Some c /\ (byteZ c < 128)%Z) ->
  Matches data (Star g AnyNotNL) (MState a cs) (MState (a + n) cs).
Proof.
  intros g cs n.
  induction n as [n IH] using lt_wf_ind. intros a Hrun Hend.
  destruct n as [|n].
  - rewrite Nat.add_0_r. constructor.
  - destruct (Hrun a ltac:(lia)) as (x & Hx & Hnx).
    pose proof (step_width _ (nth_error_lt _ _ Hx)) as W.
    set (w := snd (step data a)) in *.
    assert (Hw : w <= S n).
    { destruct (Nat.le_gt_cases w (S n)) as [|Hgt]; [assumption|exfalso].
      destruct Hend as (c & Hc & Hascii).
      assert (128 <= byteZ c)%Z; [|lia].
      apply (@DecodeRune_tail_high (skipn a data) (S n)).
      - fold (step data a). fold w. lia.
      - now rewrite nth_error_skipn_at. }
    eapply M_StarS with (s1 := MState (a + w) cs).
    + exact (@M_Any data x (MState a cs) Hx Hnx).
    + cbn [pos]. lia.
    + replace (a + S n) with (a + w + (S n - w)) by lia.
      apply IH; [lia| |].
      * intros i Hi. apply Hrun. lia.
      * replace (a + w + (S n - w)) with (a + S n) by lia. exact Hend.
Qed.

Lemma q_ascii : (byteZ q < 128)%Z.
Proof. destruct Hq as [-> | ->]; vm_compute; reflexivity. Qed.

Hypothesis Hnl : forall c, In c p -> is_nl c = false.

(** Between the quotes: the path in one or no pass of the alternation
    under the star. *)
Lemma require_of_body_matches : forall c cs,
  Matches data (Star true (Alt charactersPattern (Lit c)))
    (MState 9 cs) (MState (9 + length p) cs).
Proof.
  intros c cs.
  assert (Hrun : forall n a, 9 <= a -> a + n = 9 + length p ->
            forall i, a <= i < a + n ->
            exists x, nth_error data i = Some x /\ is_nl x = false).
  { intros n a Ha Hn i Hi.
    replace i with (9 + (i - 9)) by lia.
    rewrite require_of_body, nth_error_app1 by lia.
    destruct (nth_error p (i - 9)) as [x|] eqn:E.
    - exists x. split; [reflexivity|]. apply Hnl. eapply nth_error_In; eauto.
    - apply nth_error_None in E. lia. }
  assert (Hend : exists x, nth_error data (9 + length p) = Some x /\ (byteZ x < 128)%Z).
  { exists q. split; [apply require_of_close|apply q_ascii]. }
  destruct (Nat.eq_dec (length p) 0) as [E0|Hlen].
  - rewrite E0, Nat.add_0_r. constructor.
  - destruct (Hrun (length p) 9 ltac:(lia) ltac:(lia) 9 ltac:(lia)) as (x & Hx & Hnx).
    pose proof (step_width _ (nth_error_lt _ _ Hx)) as W.
    set (w := snd (step data 9)) in *.
    assert (Hw : w <= length p).
    { destruct (Nat.le_gt_cases w (length p)) as [|Hgt]; [assumption|exfalso].
      destruct Hend as (y & Hy & Hascii).
      assert (128 <= byteZ y)%Z; [|lia].
      apply (@DecodeRune_tail_high (skipn 9 data) (length p)).
      - fold (step data 9). fold w. lia.
      - now rewrite nth_error_skipn_at. }
    eapply M_StarS with (s1 := MState (9 + length p) cs); [|cbn [pos]; lia|constructor].
    apply M_AltL. unfold charactersPattern, Plus.
    eapply M_Cat with (s1 := MState (9 + w) cs).
    + exact (@M_Any data x (MState 9 cs) Hx Hnx).
    + replace (9 + length p) with (9 + w + (length p - w)) by lia.
      apply any_star_run.
      * intros i Hi. apply (Hrun (length p) 9); lia.
      * replace (9 + w + (length p - w)) with (9 + length p) by lia. exact Hend.
Qed.

Lemma require_of_literal_matches : forall cs,
  Matches data stringLiteralPattern (MState 8 cs) (MState (10 + length p) cs).
Proof.
  intros cs. unfold stringLiteralPattern.
  assert (H : forall c, Matches data
            (cats [Lit q; Star true (Alt charactersPattern (Lit c)); Lit q])
            (MState 8 cs) (MState (10 + length p) cs)).
  { intros c. cbn [cats].
    eapply M_Cat; [exact (@M_Lit data q (MState 8 cs) require_of_open)|].
    eapply M_Cat; [apply require_of_body_matches|].
    eapply M_Cat; [exact (@M_Lit data q (MState (9 + length p) cs) require_of_close)|].
    eapply Matches_end_eq; [apply M_Eps|].
    unfold advance. cbn [pos caps]. f_equal. lia. }
  destruct Hq as [E|E].
  - apply M_AltL. unfold singleQuoted. rewrite <- E. apply H.
  - apply M_AltR. unfold doubleQuoted. rewrite <- E. apply H.
Qed.

Lemma require_of_exists :
  Matches data jsImportPattern (start_state 0) require_final.
Proof.
  rewrite jsImportPattern_eq. unfold compileJsImportPattern. cbn [alts].
  apply M_AltR, M_AltL. unfold requirePattern. cbn [cats].
  eapply M_Cat; [apply M_BOL; reflexivity|].
  eapply M_Cat; [apply M_Star0|].
  eapply M_Cat; [unfold constPrefix, Quest; apply M_AltR, M_Eps|].
  eapply M_Cat; [apply lits_intro; reflexivity|].
  eapply M_Cat; [apply M_Cap; apply require_of_literal_matches|].
  eapply M_Cat.
  { apply M_Lit. cbn [setcap pos]. apply require_of_paren. }
  eapply M_Cat; [apply M_Star0|].
  eapply Matches_end_eq; [apply M_Eps|].
  unfold require_final, advance, setcap. cbn. f_equal. lia.
Qed.

Lemma require_of_rmatch :
  rmatch data jsImportPattern Some (start_state 0) = Some require_final.
Proof.
  destruct (@rmatch_complete data jsImportPattern Some (start_state 0)
              require_final require_final) as [y Hy].
  - cbn. lia.
  - exact require_of_exists.
  - reflexivity.
  - rewrite Hy. f_equal.
    apply rmatch_sound in Hy. destruct Hy as (s' & HM & E).
    injection E as <-. now apply require_of_unique.
Qed.

Lemma search_hit : forall (d : bytes) fuel re ncap a r,
  rmatch d re Some (MState a (repeat None ncap)) = Some r ->
  search d fuel re ncap a = Some (set_nth (caps r) 0 (Some (a, pos r))).
Proof.
  intros d fuel re ncap a r H. destruct fuel; cbn [search]; now rewrite H.
Qed.

(** Away from the start of a line the pattern does not match. *)
Lemma pattern_needs_line_start : forall (d : bytes) a,
  bol_at d a = false ->
  rmatch d jsImportPattern Some (start_state a) = None.
Proof.
  intros d a Hb.
  destruct (rmatch d jsImportPattern Some (start_state a)) as [res|] eqn:E;
    [exfalso|reflexivity].
  apply rmatch_sound in E. destruct E as (s' & HM & _).
  rewrite jsImportPattern_eq in HM. unfold compileJsImportPattern in HM.
  cbn [alts] in HM.
  unfold importPattern, requirePattern, exportPattern, jestMockPattern,
    jestRequireActualPattern, requireResolvePattern,
    jestCreateMockFromModulePattern in HM.
  cbn [cats] in HM.
  repeat (apply alt_inv in HM; destruct HM as [HM|HM]);
    apply cat_inv in HM; destruct HM as (s1 & H1 & _);
    apply bol_inv in H1; destruct H1 as [H1 _];
    cbn [start_state pos] in H1; congruence.
Qed.

Definition require_match : gomatch :=
  [Some (0, 11 + length p); None; Some (8, 10 + length p);
   None; None; None; None; None].

Lemma allMatches_S : forall (d : bytes) fuel re ncap n i a prev,
  allMatches d (S fuel) re ncap n i a prev =
  if (i <? n) && (a <=? length d) then
    match doExecute d re ncap a with
    | None => []
    | Some m =>
      let '(b, e) := span0 m in
      if e =? a then
        let accept :=
          match prev with
          | Some q0 => negb (b =? q0)
          | None => true
          end in
        let width := snd (step d a) in
        let a' := if 0 <? width then a + width else length d + 1 in
        if accept
        then m :: allMatches d fuel re ncap n (S i) a' (Some e)
        else allMatches d fuel re ncap n i a' (Some e)
      else m :: allMatches d fuel re ncap n (S i) e (Some e)
    end
  else [].
Proof. reflexivity. Qed.

Lemma search_end : forall (d : bytes) re ncap a,
  rmatch d re Some (MState a (repeat None ncap)) = None ->
  search d 0 re ncap a = None.
Proof. intros d re ncap a H. cbn [search]. now rewrite H. Qed.

Lemma require_of_first :
  doExecute data jsImportPattern numCap 0 = Some require_match.
Proof.
  unfold doExecute.
  rewrite (@search_hit data _ _ _ 0 require_final require_of_rmatch).
  reflexivity.
Qed.

Lemma require_of_second :
  doExecute data jsImportPattern numCap (11 + length p) = None.
Proof.
  unfold doExecute. rewrite require_of_length, Nat.sub_diag.
  apply search_end.
  apply (@pattern_needs_line_start data (11 + length p)).
  unfold bol_at.
  change (11 + length p) with (S (10 + length p)). cbv iota beta.
  rewrite require_of_paren. reflexivity.
Qed.

Lemma require_of_matches :
  FindAllSubmatch jsImportPattern data = [require_match].
Proof.
  unfold FindAllSubmatch.
  replace (length data + 2) with (S (S (length data))) by lia.
  rewrite allMatches_S, require_of_first.
  replace ((0 <? length data + 1) && (0 <=? length data)) with true.
  2:{ symmetry. apply andb_true_intro. split;
      [apply Nat.ltb_lt; lia|apply Nat.leb_le; lia]. }
  assert (Es : span0 require_match = (0, 11 + length p)) by reflexivity.
  rewrite Es.
  assert (Ee : (11 + length p =? 0) = false) by reflexivity.
  rewrite Ee. f_equal.
  rewrite allMatches_S, require_of_second.
  now destruct ((1 <? length data + 1) && (11 + length p <=? length data)).
Qed.

Lemma bytes_Split_absent : forall (s : bytes) sep,
  (forall c, In c s -> c <> sep) -> bytes_Split s sep = [s].
Proof.
  induction s as [|c s IH]; intros sep H; cbn [bytes_Split]; [reflexivity|].
  destruct (Ascii.eqb_spec c sep) as [E|_].
  - exfalso. apply (H c); [now left|exact E].
  - rewrite IH; [reflexivity|]. intros c' Hc'. apply H. now right.
Qed.

Lemma require_of_slice : forall q0,
  slice (require_of q0 p) 8 (10 + length p) = q0 :: p ++ [q0].
Proof.
  intros q0. unfold slice.
  replace (10 + length p - 8) with (S (length p + 1)) by lia.
  change (skipn 8 (require_of q0 p)) with (q0 :: p ++ q0 :: B ")").
  cbn [firstn]. f_equal.
  rewrite firstn_app, firstn_all2 by lia.
  replace (length p + 1 - length p) with 1 by lia. reflexivity.
Qed.

(** What the unquoter hands to the decoder, and what it leaves in the
    input buffer. *)
Definition decoded_require : result bytes :=
  match strconv.Unquote (dquote :: p ++ [dquote]) with
  | Some res => Ok res
  | None => Err (B "unquoting string literal " ++ (dquote :: p ++ [dquote]) ++
                 B " from js: " ++ strconv.ErrSyntax)
  end.

Lemma require_of_rewritten :
  set_nth (set_nth data 8 dquote) (9 + length p) dquote = require_of dquote p.
Proof.
  unfold data.
  change (set_nth (require_of q p) 8 dquote)
    with (B "require(" ++ dquote :: p ++ q :: B ")").
  change (require_of dquote p) with (B "require(" ++ dquote :: p ++ dquote :: B ")").
  cbn [B list_ascii_of_string app Nat.add set_nth]. repeat f_equal.
  apply set_nth_middle.
Qed.

Lemma unquote_require_of :
  unquoteImportString data 8 (10 + length p)
    = (require_of dquote p, decoded_require).
Proof.
  unfold unquoteImportString. cbn [rd].
  unfold data. rewrite (require_of_slice q).
  assert (El : length (q :: p ++ [q]) = S (S (length p)))
    by (cbn [length]; rewrite length_app; cbn; lia).
  rewrite slice_inner, El.
  replace (S (S (length p)) <? 2) with false by reflexivity.
  assert (Es : spec_strip (q :: p ++ [q]) = p)
    by (unfold spec_strip; cbn [tl]; apply removelast_last).
  rewrite Es, bytes_Split_absent by (intros c Hc; now apply Hplain in Hc).
  cbn [length Nat.eqb negb rd].
  rewrite (require_of_slice q). cbn [nth].
  destruct Hq as [E|E].
  - replace (Ascii.eqb q squote) with true by (rewrite E; reflexivity).
    cbn [wr rd].
    rewrite (slice_set_nth (require_of q p) 8 (10 + length p) 0 dquote).
    rewrite length_set_nth, (require_of_slice q), El.
    replace (8 + 0) with 8 by reflexivity.
    replace (8 + (S (S (length p)) - 1)) with (9 + length p) by lia.
    fold data. rewrite require_of_rewritten, (require_of_slice dquote).
    unfold decoded_require. now destruct (strconv.Unquote _).
  - replace (Ascii.eqb q squote) with false by (rewrite E; reflexivity).
    cbn [rd]. rewrite (require_of_slice q).
    rewrite E. unfold decoded_require. now destruct (strconv.Unquote _).
Qed.

Variable tbl : Z -> Z.

(** The result of ParseJS on the one-line input, with no mention of the
    kind of quote. *)
Definition require_result : bytes * result (list bytes) :=
  (require_of dquote p,
   match decoded_require with
   | Ok unquoted => Ok (sort_Strings [strings_ToLower tbl unquoted])
   | Err err => Err (B "unquoting string literal " ++ (dquote :: p ++ [dquote]) ++
                     B " from js, " ++ err)
   | Panic => Panic
   end).

Lemma require_of_one_line : ParseJS_run tbl data = require_result.
Proof.
  unfold ParseJS_run. rewrite require_of_matches.
  cbn [ParseJS_loop].
  assert (Esw : switch require_match cases = Some (REQUIRE, (8, 10 + length p), true))
    by reflexivity.
  rewrite Esw, unquote_require_of.
  unfold require_result.
  destruct decoded_require as [u|e|]; cbn [app]; try reflexivity.
  now rewrite (require_of_slice dquote).
Qed.

End RequireLiteral.

(** C7: a path without quote characters and backslashes gives the same
    result in single and in double quotes, a value or an error; x gives
    x both ways. *)
Theorem C7_quote_kind_is_irrelevant : forall tbl p,
  plain_path p ->
  ParseJS tbl (require_of squote p) = ParseJS tbl (require_of dquote p) /\
  ParseJS tbl (require_of squote (B "x")) = Ok [B "x"] /\
  ParseJS tbl (require_of dquote (B "x")) = Ok [B "x"].
Proof.
  intros tbl p Hp.
  split; [|split; vm_compute; reflexivity].
  assert (Hp' : forall c, In c p -> c <> squote /\ c <> dquote)
    by (intros c Hc; apply Hp in Hc; tauto).
  destruct (existsb is_nl p) eqn:E.
  - (* a newline in the path: no literal is matched in either input *)
    apply existsb_exists in E. destruct E as (c & Hc & Enl).
    unfold is_nl in Enl. apply Ascii.eqb_eq in Enl. subst c.
    apply In_nth_error in Hc. destruct Hc as [j Hj].
    assert (R : forall q0, q0 = squote \/ q0 = dquote ->
                ParseJS tbl (require_of q0 p) = Ok []).
    { intros q0 Hq0. unfold ParseJS.
      rewrite ParseJS_no_captures; [reflexivity|].
      intros m K Hin HK.
      apply (@require_of_newline_no_capture q0 p Hq0 Hp j m K Hj Hin). lia. }
    rewrite (R squote), (R dquote); auto.
  - (* the path on one line: one match, the same text for the decoder *)
    assert (Hnl : forall c, In c p -> is_nl c = false).
    { intros c Hc. destruct (is_nl c) eqn:Ec; [|reflexivity].
      rewrite <- E. symmetry. apply existsb_exists. eauto. }
    unfold ParseJS.
    rewrite (@require_of_one_line squote p (or_introl eq_refl) Hp Hnl tbl).
    rewrite (@require_of_one_line dquote p (or_intror eq_refl) Hp Hnl tbl).
    reflexivity.
Qed.

Lemma C7_witness :
  plain_path (B "a/b") /\
  ParseJS asciiCase (require_of squote (B "a/b"))
    = ParseJS asciiCase (require_of dquote (B "a/b")).
Proof.
  assert (H : plain_path (B "a/b")).
  { intros c Hc. cbn in Hc.
    repeat (destruct Hc as [<-|Hc]; [repeat split; discriminate|]).
    contradiction. }
  split; [exact H|].
  exact (proj1 (@C7_quote_kind_is_irrelevant asciiCase (B "a/b") H)).
Defined.

(** ** The bounds of the loops

    The loops of the library are modelled with a bound on their rounds.
    The bounds are never reached: with any larger bound the functions
    return the same. *)

Section LoopBounds.

Variable data : bytes.

Lemma step_at_end : forall a, length data <= a -> snd (step data a) = 0.
Proof.
  intros a H. unfold step. now rewrite skipn_all2.
Qed.

Lemma search_fuel : forall re ncap f1 f2 a,
  length data - a <= f1 -> length data - a <= f2 ->
  search data f1 re ncap a = search data f2 re ncap a.
Proof.
  intros re ncap.
  induction f1 as [|f1 IH]; intros f2 a H1 H2; destruct f2 as [|f2];
    cbn [search]; destruct (rmatch data re Some _); try reflexivity.
  - rewrite step_at_end by lia. reflexivity.
  - rewrite step_at_end by lia. reflexivity.
  - destruct (Nat.eqb_spec (snd (step data a)) 0) as [E|E]; [reflexivity|].
    apply IH; lia.
Qed.

Lemma Matches_caps_length : forall r s s',
  Matches data r s s' -> length (caps s') = length (caps s).
Proof.
  induction 1; cbn [advance setcap caps]; try congruence.
  now rewrite length_set_nth.
Qed.

(** The whole match of a delivered match: it starts at or after the
    offset of the search and ends inside the input. *)
Lemma doExecute_span : forall re ncap a m,
  a <= length data ->
  doExecute data re (S ncap) a = Some m ->
  exists b e, span0 m = (b, e) /\ a <= b <= e /\ e <= length data.
Proof.
  intros re ncap a m Ha H. unfold doExecute in H.
  apply search_inv in H; [|exact Ha].
  destruct H as (b & res & Hb & Hr & ->).
  apply rmatch_sound in Hr. destruct Hr as (s' & HM & E). injection E as ->.
  pose proof (Matches_pos HM) as P. cbn [pos] in P. specialize (P ltac:(lia)).
  pose proof (Matches_caps_length HM) as L. cbn [caps] in L.
  rewrite repeat_length in L.
  exists b, (pos res). split; [|lia].
  unfold span0. destruct (caps res) as [|c0 cs]; [discriminate|reflexivity].
Qed.

Lemma allMatches_fuel : forall re ncap n f1 f2 i a prev,
  length data + 1 - a < f1 -> length data + 1 - a < f2 ->
  allMatches data f1 re (S ncap) n i a prev
    = allMatches data f2 re (S ncap) n i a prev.
Proof.
  intros re ncap n.
  induction f1 as [|f1 IH]; intros f2 i a prev H1 H2; [lia|].
  destruct f2 as [|f2]; [lia|].
  cbn [allMatches].
  destruct (i <? n); cbn [andb]; [|reflexivity].
  destruct (Nat.leb_spec a (length data)) as [Ha|Ha]; [|reflexivity].
  destruct (doExecute data re (S ncap) a) as [m|] eqn:E; [|reflexivity].
  destruct (doExecute_span _ _ Ha E) as (b & e & -> & Hb & He).
  destruct (Nat.eqb_spec e a) as [Ee|Ee].
  - assert (Hnext : a < (if 0 <? snd (step data a) then a + snd (step data a)
                         else length data + 1)).
    { destruct (Nat.ltb_spec 0 (snd (step data a))); lia. }
    set (a' := if 0 <? snd (step data a) then _ else _) in *.
    destruct prev as [q0|].
    + destruct (negb (b =? q0)); [f_equal|]; apply IH; lia.
    + f_equal. apply IH; lia.
  - f_equal. apply IH; lia.
Qed.

End LoopBounds.

Lemma FindAllSubmatch_fuel : forall data fuel,
  length data + 2 <= fuel ->
  allMatches data fuel jsImportPattern numCap (length data + 1) 0 0 None
    = FindAllSubmatch jsImportPattern data.
Proof.
  intros data fuel H. unfold FindAllSubmatch, numCap.
  apply allMatches_fuel; lia.
Qed.

Lemma DecodeRune_skip_shorter : forall (s : bytes),
  s <> [] -> length (skipn (snd (utf8.DecodeRune s)) s) < length s.
Proof.
  intros s H. pose proof (DecodeRune_width H).
  rewrite length_skipn. lia.
Qed.

Lemma Valid_fuel_enough : forall f1 f2 s,
  length s <= f1 -> length s <= f2 -> utf8.Valid_fuel f1 s = utf8.Valid_fuel f2 s.
Proof.
  induction f1 as [|f1 IH]; intros f2 s H1 H2.
  - destruct s; [now destruct f2|cbn in H1; lia].
  - destruct s as [|c s]; [now destruct f2|].
    destruct f2 as [|f2]; [cbn in H2; lia|].
    cbn [utf8.Valid_fuel].
    destruct (utf8.DecodeRune (c :: s)) as [r w] eqn:E.
    destruct ((r =? utf8.RuneError)%Z && (w =? 1)); [reflexivity|].
    assert (Hs : length (skipn w (c :: s)) < length (c :: s)).
    { replace w with (snd (utf8.DecodeRune (c :: s))) by now rewrite E.
      apply DecodeRune_skip_shorter. discriminate. }
    apply IH; lia.
Qed.

Lemma strings_Map_fuel : forall mapping f1 f2 s,
  length s <= f1 -> length s <= f2 ->
  strings_Map f1 mapping s = strings_Map f2 mapping s.
Proof.
  intros mapping.
  induction f1 as [|f1 IH]; intros f2 s H1 H2.
  - destruct s; [now destruct f2|cbn in H1; lia].
  - destruct s as [|c s]; [now destruct f2|].
    destruct f2 as [|f2]; [cbn in H2; lia|].
    cbn [strings_Map].
    destruct (utf8.DecodeRune (c :: s)) as [r w] eqn:E.
    assert (Hs : length (skipn w (c :: s)) < length (c :: s)).
    { replace w with (snd (utf8.DecodeRune (c :: s))) by now rewrite E.
      apply DecodeRune_skip_shorter. discriminate. }
    f_equal. apply IH; lia.
Qed.

Lemma hexdigits_shorter : forall n v s v' s',
  strconv.hexdigits n v s = Some (v', s') -> length s' <= length s.
Proof.
  induction n as [|n IH]; intros v s v' s' H; cbn [strconv.hexdigits] in H.
  - injection H as _ <-. lia.
  - destruct s as [|c s]; [discriminate|].
    destruct (strconv.unhex c); [|discriminate].
    apply IH in H. cbn [length]. lia.
Qed.

Lemma octdigits_shorter : forall n v s v' s',
  strconv.octdigits n v s = Some (v', s') -> length s' <= length s.
Proof.
  induction n as [|n IH]; intros v s v' s' H; cbn [strconv.octdigits] in H.
  - injection H as _ <-. lia.
  - destruct s as [|c s]; [discriminate|].
    destruct ((byteZ c - 48 <? 0) || (7 <? byteZ c - 48))%Z; [discriminate|].
    apply IH in H. cbn [length]. lia.
Qed.

(** Every round of the decoder consumes input. *)
Lemma UnquoteChar_shorter : forall s quote r mb rem,
  strconv.UnquoteChar s quote = Some (r, mb, rem) -> length rem < length s.
Proof.
  intros s quote r mb rem H. unfold strconv.UnquoteChar in H.
  destruct s as [|c tl]; [discriminate|].
  destruct (Ascii.eqb c quote && _); [discriminate|].
  destruct (utf8.RuneSelf <=? byteZ c)%Z.
  - destruct (utf8.DecodeRune (c :: tl)) as [r0 size] eqn:E.
    injection H as _ _ <-.
    replace size with (snd (utf8.DecodeRune (c :: tl))) by now rewrite E.
    apply DecodeRune_skip_shorter. discriminate.
  - destruct (negb (Ascii.eqb c bslash)).
    + injection H as _ _ <-. cbn [length]. lia.
    + destruct tl as [|c1 s2]; [discriminate|].
      cbn [length].
      destruct c1 as [[] [] [] [] [] [] [] []];
        try discriminate;
        repeat match type of H with
               | context [match ?x with _ => _ end] =>
                 let E := fresh "E" in destruct x eqn:E
               end;
        try discriminate;
        try (injection H as _ _ <-);
        repeat match goal with
               | E : strconv.hexdigits _ _ _ = Some _ |- _ =>
                 apply hexdigits_shorter in E
               | E : strconv.octdigits _ _ _ = Some _ |- _ =>
                 apply octdigits_shorter in E
               end;
        cbn [length] in *; try lia.
Qed.

Lemma unquote_loop_fuel : forall quote f1 f2 inp buf,
  length inp <= f1 -> length inp <= f2 ->
  strconv.unquote_loop f1 quote inp buf = strconv.unquote_loop f2 quote inp buf.
Proof.
  intros quote.
  induction f1 as [|f1 IH]; intros f2 inp buf H1 H2.
  - destruct inp; [now destruct f2|cbn in H1; lia].
  - destruct inp as [|c inp]; [now destruct f2|].
    destruct f2 as [|f2]; [cbn in H2; lia|].
    cbn [strconv.unquote_loop].
    destruct (Ascii.eqb c quote); [reflexivity|].
    destruct (strconv.UnquoteChar (c :: inp) quote) as [[[r mb] rem]|] eqn:E;
      [|reflexivity].
    apply UnquoteChar_shorter in E.
    destruct (is_nl c); [reflexivity|].
    destruct (Ascii.eqb quote squote); [reflexivity|].
    apply IH; cbn [length] in *; lia.
Qed.

(** An expression that is not nullable consumes input whenever it
    matches: with [star_bodies_consume], the test of [star_loop] that an
    iteration moved forward holds for every iteration of every star of the
    pattern. *)
Lemma Matches_consumes : forall data r s s',
  Matches data r s s' -> nullable r = false -> pos s <= length data ->
  pos s < pos s'.
Proof.
  induction 1; cbn [nullable]; intros N Hwf; try discriminate;
    cbn [advance setcap pos]; try lia.
  - apply nth_error_lt in H. pose proof (step_width _ H). lia.
  - pose proof (Matches_pos H Hwf) as P1.
    pose proof (Matches_pos H0 ltac:(lia)) as P2.
    apply andb_false_iff in N. destruct N as [N|N].
    + specialize (IHMatches1 N Hwf). lia.
    + specialize (IHMatches2 N ltac:(lia)). lia.
  - apply orb_false_elim in N. destruct N as [N _]. auto.
  - apply orb_false_elim in N. destruct N as [_ N]. auto.
  - auto.
Qed.


(** * Further properties *)

(** ** The matches of a scan *)

Section ScanFacts.

Variable data : bytes.

(** A match leaves the registers of the groups it does not contain. *)
Lemma Matches_other_groups : forall r s s',
  Matches data r s s' ->
  forall n, ~ In n (groups_of r) -> nth n (caps s') None = nth n (caps s) None.
Proof.
  induction 1; cbn [groups_of advance setcap caps]; intros j Hj; auto.
  - rewrite IHMatches2, IHMatches1; auto; intros Hin; apply Hj, in_or_app; auto.
  - apply IHMatches. intros Hin. apply Hj, in_or_app; auto.
  - apply IHMatches. intros Hin. apply Hj, in_or_app; auto.
  - rewrite IHMatches2, IHMatches1; auto.
  - rewrite nth_set_nth.
    destruct (Nat.eqb_spec j n) as [->|Hne].
    + exfalso. apply Hj. now left.
    + cbn [andb]. apply IHMatches. intros Hin. apply Hj. now right.
Qed.

(** Each alternative of the pattern has one group. *)
Lemma pattern_one_group : forall s s',
  Matches data jsImportPattern s s' ->
  exists K, 1 <= K <= 7 /\
    forall n, n <> K -> nth n (caps s') None = nth n (caps s) None.
Proof.
  intros s s' HM.
  rewrite jsImportPattern_eq in HM. unfold compileJsImportPattern in HM.
  cbn [alts] in HM.
  assert (One : forall r K, groups_of r = [K] -> Matches data r s s' ->
            forall n, n <> K -> nth n (caps s') None = nth n (caps s) None).
  { intros r K G M n Hn. apply (Matches_other_groups M).
    rewrite G. intros [E|[]]. congruence. }
  repeat (apply alt_inv in HM; destruct HM as [HM|HM]).
  - exists IMPORT. split; [cbv; lia|]. now apply (One importPattern).
  - exists REQUIRE. split; [cbv; lia|]. now apply (One requirePattern).
  - exists EXPORT. split; [cbv; lia|]. now apply (One exportPattern).
  - exists JEST_MOCK. split; [cbv; lia|]. now apply (One jestMockPattern).
  - exists JEST_REQUIRE_ACTUAL. split; [cbv; lia|].
    now apply (One jestRequireActualPattern).
  - exists REQUIRE_RESOLVE. split; [cbv; lia|].
    now apply (One requireResolvePattern).
  - exists JEST_CREATE_MOCK_FROM_MODULE. split; [cbv; lia|].
    now apply (One jestCreateMockFromModulePattern).
Qed.

(** Every alternative of the pattern begins with the line anchor. *)
Lemma pattern_at_line_start : forall s s',
  Matches data jsImportPattern s s' -> bol_at data (pos s) = true.
Proof.
  intros s s' HM.
  rewrite jsImportPattern_eq in HM. unfold compileJsImportPattern in HM.
  cbn [alts] in HM.
  unfold importPattern, requirePattern, exportPattern, jestMockPattern,
    jestRequireActualPattern, requireResolvePattern,
    jestCreateMockFromModulePattern in HM.
  cbn [cats] in HM.
  repeat (apply alt_inv in HM; destruct HM as [HM|HM]);
    apply cat_inv in HM; destruct HM as (s1 & H1 & _);
    apply bol_inv in H1; tauto.
Qed.

(** The registers of a match hold spans between the start of the match
    and the offset it has reached. *)
Lemma Matches_caps_inside : forall r s s',
  Matches data r s s' -> pos s <= length data ->
  forall p0,
  (forall n lo hi, nth n (caps s) None = Some (lo, hi) -> p0 <= lo /\ hi <= pos s) ->
  p0 <= pos s ->
  forall n lo hi, nth n (caps s') None = Some (lo, hi) -> p0 <= lo /\ hi <= pos s'.
Proof.
  induction 1; intros Hwf p0 Hin Hp0 j lo hi Hj;
    cbn [advance setcap pos caps] in *;
    try (apply Hin in Hj; lia).
  - pose proof (Matches_pos H Hwf) as P1.
    eapply IHMatches2; eauto; try lia.
  - eapply IHMatches; eauto.
  - eapply IHMatches; eauto.
  - pose proof (Matches_pos H Hwf) as P1.
    eapply IHMatches2; eauto; try lia.
  - pose proof (Matches_pos H Hwf) as P1.
    rewrite nth_set_nth in Hj.
    destruct ((j =? n) && (n <? length (caps s1))).
    + injection Hj as <- <-. lia.
    + eapply IHMatches; eauto.
Qed.

Lemma start_caps_none : forall n k, nth n (repeat (@None (nat * nat)) k) None = None.
Proof.
  intros n k. revert n. induction k as [|k IH]; intros [|n]; cbn; auto.
Qed.

(** X1: every match that the scan of ParseJS delivers has its eight
    registers, is not empty, lies inside the input and starts at the
    beginning of a line. *)
Theorem X1_match_shape : forall m,
  In m (FindAllSubmatch jsImportPattern data) ->
  length m = 8 /\
  exists b e, nth 0 m None = Some (b, e) /\
              b < e /\ e <= length data /\ bol_at data b = true.
Proof.
  intros m Hin.
  apply delivered_match in Hin. destruct Hin as (p & res & Hp & HM & ->).
  pose proof (Matches_caps_length HM) as L. cbn [caps] in L.
  rewrite repeat_length in L.
  split; [now rewrite length_set_nth|].
  exists p, (pos res). rewrite nth_set_nth, L.
  split; [reflexivity|].
  pose proof (Matches_pos HM) as P. cbn [pos] in P. specialize (P Hp).
  pose proof (@Matches_consumes data _ _ _ HM eq_refl) as C.
  cbn [pos] in C. specialize (C Hp).
  repeat split; try lia.
  apply (pattern_at_line_start HM).
Qed.

(** X2: a match has at most one of the seven captures, so the order of
    the cases of the switch of ParseJS decides nothing; the registers
    above the seventh do not exist. *)
Theorem X2_one_capture_per_match : forall m K1 K2,
  In m (FindAllSubmatch jsImportPattern data) ->
  1 <= K1 -> 1 <= K2 ->
  nth K1 m None <> None -> nth K2 m None <> None ->
  K1 = K2 /\ K1 <= 7.
Proof.
  intros m K1 K2 Hin H1 H2 N1 N2.
  apply delivered_match in Hin. destruct Hin as (p & res & Hp & HM & ->).
  apply pattern_one_group in HM. destruct HM as (K & HK & Hother).
  cbn [caps] in Hother.
  assert (E : forall J, 1 <= J ->
            nth J (set_nth (caps res) 0 (Some (p, pos res))) None <> None -> J = K).
  { intros J HJ HN. destruct (Nat.eq_dec J K) as [|Hne]; [assumption|exfalso].
    apply HN. rewrite nth_set_nth.
    replace (J =? 0) with false by (symmetry; apply Nat.eqb_neq; lia).
    cbn [andb]. rewrite Hother by exact Hne. apply start_caps_none. }
  rewrite (E K1 H1 N1), (E K2 H2 N2). split; [reflexivity|lia].
Qed.

(** X3: a capture lies inside the match that carries it and holds no
    newline: a literal is taken from one line. *)
Theorem X3_capture_inside_match_on_one_line : forall m b e K lo hi,
  In m (FindAllSubmatch jsImportPattern data) ->
  nth 0 m None = Some (b, e) ->
  1 <= K -> nth K m None = Some (lo, hi) ->
  b <= lo /\ hi <= e /\
  forall i, lo <= i < hi -> nth_error data i <> Some newline.
Proof.
  intros m b e K lo hi Hin H0 HK Hn.
  assert (Hline : forall i, lo <= i < hi -> nth_error data i <> Some newline).
  { apply (@delivered_captures data
             (fun lo hi => forall i, lo <= i < hi -> nth_error data i <> Some newline)
             m K lo hi); auto.
    apply pattern_groups.
    - intros s s' Hwf HM. now apply (Matches_no_newline HM).
    - intros s s' Hwf HM. now apply (Matches_no_newline HM). }
  apply delivered_match in Hin. destruct Hin as (p & res & Hp & HM & ->).
  pose proof (Matches_caps_length HM) as L. cbn [caps] in L.
  rewrite repeat_length in L.
  rewrite nth_set_nth, L in H0. cbn in H0. injection H0 as <- <-.
  rewrite nth_set_nth in Hn.
  replace (K =? 0) with false in Hn by (symmetry; apply Nat.eqb_neq; lia).
  cbn [andb] in Hn.
  destruct (@Matches_caps_inside _ _ _ HM Hp p) with (n := K) (lo := lo) (hi := hi)
    as [A B']; auto.
  intros n lo' hi' Hc. cbn [caps] in Hc. rewrite start_caps_none in Hc. discriminate.
Qed.

Lemma chained_weaken : forall ms p p', p <= p' -> chained p' ms -> chained p ms.
Proof.
  intros [|m ms] p p' H; cbn [chained]; [auto|]. intros (A & B' & C).
  repeat split; auto; lia.
Qed.

Lemma allMatches_chained : forall re ncap n fuel i a prev,
  chained a (allMatches data fuel re (S ncap) n i a prev).
Proof.
  intros re ncap n.
  induction fuel as [|fuel IH]; intros i a prev; cbn [allMatches]; [exact I|].
  destruct (i <? n); cbn [andb]; [|exact I].
  destruct (Nat.leb_spec a (length data)) as [Ha|Ha]; [|exact I].
  destruct (doExecute data re (S ncap) a) as [m|] eqn:E; [|exact I].
  destruct (@doExecute_span data re ncap a m Ha E) as (b & e & Es & Hb & He).
  rewrite Es.
  destruct (Nat.eqb_spec e a) as [Ee|Ee].
  - set (a' := if 0 <? snd (step data a) then _ else _).
    assert (Hnext : a <= a').
    { unfold a'. destruct (0 <? snd (step data a)); lia. }
    destruct prev as [q0|]; [destruct (negb (b =? q0))|].
    + cbn [chained]. rewrite Es. cbn [fst snd].
      repeat split; try lia. apply (@chained_weaken _ e a'); [lia|apply IH].
    + apply (@chained_weaken _ a a'); [lia|apply IH].
    + cbn [chained]. rewrite Es. cbn [fst snd].
      repeat split; try lia. apply (@chained_weaken _ e a'); [lia|apply IH].
  - cbn [chained]. rewrite Es. cbn [fst snd].
    repeat split; try lia. apply IH.
Qed.

Lemma chained_from : forall ms p j m,
  chained p ms -> nth_error ms j = Some m -> p <= fst (span0 m).
Proof.
  induction ms as [|m0 ms IH]; intros p j m C Hj; [now destruct j|].
  cbn [chained] in C. destruct C as (A & B' & C).
  destruct j as [|j]; cbn in Hj.
  - injection Hj as <-. exact A.
  - apply (IH _ _ _ C) in Hj. lia.
Qed.

Lemma chained_pairs : forall ms p i j m1 m2,
  chained p ms -> i < j ->
  nth_error ms i = Some m1 -> nth_error ms j = Some m2 ->
  snd (span0 m1) <= fst (span0 m2).
Proof.
  induction ms as [|m0 ms IH]; intros p i j m1 m2 C Hij H1 H2; [now destruct i|].
  cbn [chained] in C. destruct C as (A & B' & C).
  destruct j as [|j]; [lia|]. cbn in H2.
  destruct i as [|i]; cbn in H1.
  - injection H1 as <-. eapply chained_from; eauto.
  - apply (IH (snd (span0 m0)) i j m1 m2 C); [lia|exact H1|exact H2].
Qed.

(** X4: the matches come in the order of the input and do not overlap:
    a match delivered later starts at or after the end of every match
    delivered before it. *)
Theorem X4_matches_in_order_disjoint : forall i j m1 m2,
  i < j ->
  nth_error (FindAllSubmatch jsImportPattern data) i = Some m1 ->
  nth_error (FindAllSubmatch jsImportPattern data) j = Some m2 ->
  fst (span0 m1) <= snd (span0 m1) /\ snd (span0 m1) <= fst (span0 m2).
Proof.
  intros i j m1 m2 Hij H1 H2.
  pose proof (@allMatches_chained jsImportPattern 7 (length data + 1)
                (length data + 2) 0 0 None) as C.
  fold numCap in C. change (S 7) with numCap in C.
  fold (FindAllSubmatch jsImportPattern data) in C.
  split; [|eapply chained_pairs; eauto].
  apply nth_error_In in H1. apply delivered_match in H1.
  destruct H1 as (p & res & Hp & HM & ->).
  pose proof (Matches_caps_length HM) as L. cbn [caps] in L.
  rewrite repeat_length in L.
  pose proof (Matches_pos HM) as P. cbn [pos] in P. specialize (P Hp).
  unfold span0. rewrite nth_set_nth, L. cbn. lia.
Qed.

End ScanFacts.


(** ** What the unquoter writes into the input *)

Lemma nth_error_set_nth : forall A (l : list A) i j x,
  nth_error (set_nth l i x) j
    = if (j =? i) && (i <? length l) then Some x else nth_error l j.
Proof.
  induction l as [|y l IH]; intros i j x.
  - cbn [set_nth length].
    replace (i <? 0) with false by (symmetry; apply Nat.ltb_ge; lia).
    now rewrite Bool.andb_false_r.
  - destruct i as [|i], j as [|j]; cbn; auto.
Qed.

Lemma bytes_Split_present : forall (s : bytes) sep,
  In sep s -> 2 <= length (bytes_Split s sep).
Proof.
  induction s as [|c s IH]; intros sep H; [contradiction|].
  cbn [bytes_Split].
  destruct (Ascii.eqb_spec c sep) as [E|E].
  - pose proof (@bytes_Split_nonempty s sep).
    destruct (bytes_Split s sep); [contradiction|cbn; lia].
  - destruct H as [H|H]; [contradiction|].
    apply IH in H. destruct (bytes_Split s sep) as [|piece pieces]; cbn in *; lia.
Qed.

Lemma slice_of_slice : forall (data : bytes) lo hi,
  lo + 2 <= hi -> hi <= length data ->
  slice (slice data lo hi) 1 (length (slice data lo hi) - 1)
    = slice data (lo + 1) (hi - 1).
Proof.
  intros data lo hi H2 Hhi. rewrite length_slice by exact Hhi.
  unfold slice.
  rewrite skipn_firstn_comm, skipn_skipn, firstn_firstn.
  replace (1 + lo) with (lo + 1) by lia.
  f_equal. lia.
Qed.

Lemma nth_slice_head : forall (data : bytes) lo hi,
  lo < hi -> nth 0 (slice data lo hi) zero = nth lo data zero.
Proof.
  intros data lo hi H. unfold slice.
  destruct (hi - lo) as [|n] eqn:E; [lia|].
  rewrite <- (Nat.add_0_r lo) at 2. rewrite <- nth_skipn.
  destruct (skipn lo data); reflexivity.
Qed.

Lemma unquoter_buffer : forall data lo hi,
  lo + 2 <= hi -> hi <= length data ->
  fst (unquoteImportString data lo hi)
    = if rewrites_in_place data lo hi
      then set_nth (set_nth data lo dquote) (hi - 1) dquote
      else data.
Proof.
  intros data lo hi H2 Hhi.
  unfold unquoteImportString, rewrites_in_place. cbn [rd].
  pose proof (length_slice data lo Hhi) as Hlen.
  replace (length (slice data lo hi) <? 2) with false
    by (symmetry; apply Nat.ltb_ge; lia).
  rewrite slice_of_slice by assumption.
  set (body := slice data (lo + 1) (hi - 1)).
  destruct (existsb (Ascii.eqb dquote) body) eqn:Eb.
  - (* an inner double quote: the text is rebuilt in a fresh buffer *)
    rewrite Bool.andb_false_r.
    assert (Hin : In dquote body).
    { apply existsb_exists in Eb. destruct Eb as (c & Hc & E).
      apply Ascii.eqb_eq in E. now subst c. }
    apply bytes_Split_present in Hin.
    replace (length (bytes_Split body dquote) =? 1) with false
      by (symmetry; apply Nat.eqb_neq; lia).
    cbn [negb rd nth app]. 
    assert (Hdq : Ascii.eqb dquote squote = false) by reflexivity.
    rewrite Hdq. now destruct (strconv.Unquote _).
  - rewrite Bool.andb_true_r.
    rewrite bytes_Split_absent.
    2:{ intros c Hc E. subst c.
        assert (Et : existsb (Ascii.eqb dquote) body = true).
        { apply existsb_exists. exists dquote.
          split; [exact Hc|apply Ascii.eqb_refl]. }
        rewrite Et in Eb. discriminate. }
    cbn [length Nat.eqb negb rd].
    rewrite nth_slice_head by lia.
    destruct (Ascii.eqb (nth lo data zero) squote).
    + cbn [wr rd].
      rewrite (slice_set_nth data lo hi 0 dquote), length_set_nth, Hlen.
      replace (lo + 0) with lo by lia.
      replace (lo + (hi - lo - 1)) with (hi - 1) by lia.
      now destruct (strconv.Unquote _).
    + now destruct (strconv.Unquote _).
Qed.

(** X5: the unquoter changes its caller's buffer exactly when the
    capture starts with a single quote and has no inner double quote, and
    then it overwrites the first and the last byte of the capture with
    double quotes; in every other case the buffer is left as it was. *)
Theorem X5_unquoter_buffer : forall data lo hi,
  lo + 2 <= hi -> hi <= length data ->
  fst (unquoteImportString data lo hi)
    = if rewrites_in_place data lo hi
      then set_nth (set_nth data lo dquote) (hi - 1) dquote
      else data.
Proof. exact unquoter_buffer. Qed.

Section BufferFacts.

Variable tbl : Z -> Z.
Variable data : bytes.

Lemma pattern_literal_ends : groups_span data (literal_ends data) jsImportPattern.
Proof.
  assert (Hq : forall q inner s s', pos s <= length data ->
            Matches data (cats [Lit q; inner; Lit q]) s s' ->
            literal_ends data (pos s) (pos s')).
  { intros q inner s s' Hwf HM. apply quoted_span in HM; [|exact Hwf].
    destruct HM as (Ho & Hc & H2 & Hlen & _).
    repeat split; auto. intros E. congruence. }
  apply pattern_groups.
  - intros s s' Hwf HM. apply alt_inv in HM. destruct HM as [HM|HM]; eauto.
  - intros s s' Hwf HM. apply alt_inv in HM. destruct HM as [HM|HM]; [eauto|].
    apply cat_inv in HM. destruct HM as (s1 & HM & Hs).
    apply quoted_span in HM; [|exact Hwf].
    destruct HM as (Ho & _ & H2 & Hlen & _).
    pose proof (Matches_pos Hs Hlen).
    repeat split; try lia.
    intros E. rewrite Ho in E. discriminate.
Qed.

Lemma nth_nth_error : forall (l : bytes) i,
  i < length l -> nth_error l i = Some (nth i l zero).
Proof.
  intros l i H. now apply nth_error_nth'.
Qed.

Lemma unquoter_keeps_quotes_rewritten : forall buf lo hi,
  quotes_rewritten data buf -> literal_ends data lo hi ->
  quotes_rewritten data (fst (unquoteImportString buf lo hi)).
Proof.
  intros buf lo hi [Hlen Hbuf] (H2 & Hhi & Hends).
  rewrite unquoter_buffer by (try assumption; lia).
  unfold rewrites_in_place.
  destruct (Ascii.eqb_spec (nth lo buf zero) squote) as [E|E];
    cbn [andb]; [|now split].
  destruct (negb _); [|now split].
  assert (Hlo : nth_error buf lo = Some squote)
    by (rewrite nth_nth_error by lia; now rewrite E).
  assert (Dlo : nth_error data lo = Some squote).
  { destruct (Hbuf lo) as [<-|[_ C]]; [exact Hlo|].
    rewrite Hlo in C. injection C as C. vm_compute in C. discriminate. }
  specialize (Hends Dlo).
  split; [now rewrite !length_set_nth|].
  intros i. rewrite !nth_error_set_nth, !length_set_nth.
  destruct (Nat.eqb_spec i (hi - 1)) as [->|N1];
    [replace (hi - 1 <? length buf) with true by (symmetry; apply Nat.ltb_lt; lia);
     cbn [andb]; auto|].
  cbn [andb].
  destruct (Nat.eqb_spec i lo) as [->|N2];
    [replace (lo <? length buf) with true by (symmetry; apply Nat.ltb_lt; lia);
     cbn [andb]; auto|].
  cbn [andb]. apply Hbuf.
Qed.

Lemma ParseJS_loop_buffer : forall ms buf imports,
  quotes_rewritten data buf ->
  (forall m K lo hi, In m ms -> 1 <= K -> nth K m None = Some (lo, hi) ->
                     literal_ends data lo hi) ->
  quotes_rewritten data (fst (ParseJS_loop tbl ms buf imports)).
Proof.
  induction ms as [|m ms IH]; intros buf imports Hbuf Hcaps;
    cbn [ParseJS_loop]; [exact Hbuf|].
  assert (Hrest : forall m' K lo hi, In m' ms -> 1 <= K ->
            nth K m' None = Some (lo, hi) -> literal_ends data lo hi)
    by (intros; eapply Hcaps; eauto; now right).
  destruct (switch m cases) as [[[K [lo hi]] lower]|] eqn:Es; [|now apply IH].
  apply switch_some in Es. destruct Es as [Hin Hn].
  apply cases_lower in Hin. destruct Hin as [HK _].
  assert (Hq : literal_ends data lo hi) by (apply (Hcaps m K); auto; [now left|lia]).
  pose proof (@unquoter_keeps_quotes_rewritten buf lo hi Hbuf Hq) as Hnext.
  destruct (unquoteImportString buf lo hi) as [buf' [u|e|]]; cbn [fst] in *; auto.
Qed.

(** X6: ParseJS writes into the buffer it is given.  After the call,
    whether it succeeded or failed, the buffer has its length, and every
    byte is the byte of the input or a double quote where the input had a
    single quote; an input without single quotes comes back unchanged. *)
Theorem X6_ParseJS_buffer :
  quotes_rewritten data (fst (ParseJS_run tbl data)) /\
  (~ In squote data -> fst (ParseJS_run tbl data) = data).
Proof.
  assert (H : quotes_rewritten data (fst (ParseJS_run tbl data))).
  { unfold ParseJS_run.
    pose proof (@ParseJS_loop_buffer (FindAllSubmatch jsImportPattern data) data []) as L.
    destruct (ParseJS_loop tbl _ data []) as [buf r]. cbn [fst] in *.
    apply L.
    - split; auto.
    - intros m K lo hi Hin HK Hn.
      apply (@delivered_captures data (literal_ends data) m K lo hi); auto.
      apply pattern_literal_ends. }
  split; [exact H|].
  intros Hno. destruct H as [Hlen Hbuf].
  apply nth_error_ext. intros i.
  destruct (Hbuf i) as [E|[E _]]; [exact E|].
  exfalso. apply Hno. eapply nth_error_In; eauto.
Qed.

End BufferFacts.


(** ** What ParseJS returns *)

Section ResultFacts.

Variable tbl : Z -> Z.

Lemma ParseJS_loop_count : forall ms buf imports buf' collected,
  ParseJS_loop tbl ms buf imports = (buf', Ok collected) ->
  length collected = length imports + length (filter capturing ms).
Proof.
  induction ms as [|m ms IH]; intros buf imports buf' collected H;
    cbn [ParseJS_loop] in H; cbn [filter].
  - injection H as _ <-. cbn. lia.
  - unfold capturing at 1.
    destruct (switch m cases) as [[[K [lo hi]] lower]|]; [|now apply IH in H].
    destruct (unquoteImportString buf lo hi) as [buf1 [u|e|]]; try discriminate.
    apply IH in H. rewrite length_app in H. cbn [length] in *. lia.
Qed.

Lemma ParseJS_loop_length : forall ms buf imports,
  length (fst (ParseJS_loop tbl ms buf imports)) = length buf.
Proof.
  induction ms as [|m ms IH]; intros buf imports; cbn [ParseJS_loop];
    [reflexivity|].
  destruct (switch m cases) as [[[K [lo hi]] lower]|]; [|apply IH].
  pose proof (unquoteImportString_length buf lo hi) as L.
  destruct (unquoteImportString buf lo hi) as [buf1 [u|e|]]; cbn [fst] in *;
    try exact L.
  now rewrite IH.
Qed.

(** X7: when ParseJS succeeds it returns one path for every match that
    carries a capture, no more and no fewer: no capture is dropped and
    none is counted twice. *)
Theorem X7_one_path_per_capture : forall data l,
  ParseJS tbl data = Ok l ->
  length l = length (filter capturing (FindAllSubmatch jsImportPattern data)).
Proof.
  intros data l H.
  apply ParseJS_ok_inv in H. destruct H as (buf & collected & Hl & ->).
  apply ParseJS_loop_count in Hl. cbn [length] in Hl. rewrite Nat.add_0_l in Hl.
  rewrite <- Hl. symmetry. apply Permutation_length, sort_Strings_perm.
Qed.

(** X8: the error of ParseJS is that of the first capture, in the order
    of the scan, that does not decode: the captures before it have been
    decoded (and rewritten in the buffer), the matches after it are not
    looked at, and their bytes in the buffer are as they were. *)
Theorem X8_first_failure_decides : forall data ms1 m ms2 d1 collected K lo hi lower d2 e,
  FindAllSubmatch jsImportPattern data = ms1 ++ m :: ms2 ->
  ParseJS_loop tbl ms1 data [] = (d1, Ok collected) ->
  switch m cases = Some (K, (lo, hi), lower) ->
  unquoteImportString d1 lo hi = (d2, Err e) ->
  ParseJS_run tbl data
    = (d2, Err (B "unquoting string literal " ++ slice d2 lo hi
                ++ B " from js, " ++ e)) /\
  forall i, i <> lo -> i <> hi - 1 -> nth_error d2 i = nth_error d1 i.
Proof.
  intros data ms1 m ms2 d1 collected K lo hi lower d2 e Hms H1 Hs Hu.
  split.
  - unfold ParseJS_run. rewrite Hms.
    rewrite (ParseJS_fail_fast tbl ms1 m ms2 data [] H1 Hs Hu). reflexivity.
  - intros i Hlo Hhi.
    assert (E : d2 = fst (unquoteImportString d1 lo hi)) by now rewrite Hu.
    assert (Hb : lo + 2 <= hi /\ hi <= length d1).
    { pose proof (ParseJS_loop_length ms1 data []) as L.
      rewrite H1 in L. cbn [fst] in L. rewrite L.
      apply switch_some in Hs. destruct Hs as [Hin Hn].
      apply cases_lower in Hin. destruct Hin as [HK _].
      destruct (@delivered_captures data (literal_span data) m K lo hi
                  (pattern_groups_span data)) as (A & B' & _); auto; [|lia].
      rewrite Hms. apply in_or_app. right. now left. }
    rewrite E, unquoter_buffer by tauto.
    destruct (rewrites_in_place d1 lo hi); [|reflexivity].
    rewrite !nth_error_set_nth.
    replace (i =? hi - 1) with false by (symmetry; apply Nat.eqb_neq; lia).
    replace (i =? lo) with false by (symmetry; apply Nat.eqb_neq; lia).
    reflexivity.
Qed.

End ResultFacts.


(** ** Decoding *)

Lemma ends_in_backslash_cons : forall c piece,
  c <> bslash -> ends_in_backslash (c :: piece) = ends_in_backslash piece.
Proof.
  intros c piece Hc. unfold ends_in_backslash. cbn [rev].
  destruct (rev piece) as [|x r]; cbn [app]; [|reflexivity].
  now apply Ascii.eqb_neq.
Qed.

Lemma spec_reescape_cons : forall a b l,
  spec_reescape (a :: b :: l)
    = (if ends_in_backslash a then a else a ++ [bslash]) :: spec_reescape (b :: l).
Proof. reflexivity. Qed.

Lemma spec_reescape_nonempty : forall a l, spec_reescape (a :: l) <> [].
Proof. intros a [|b l]; discriminate. Qed.

Lemma bytes_Join_cons : forall a R sep,
  R <> [] -> bytes_Join (a :: R) sep = a ++ sep ++ bytes_Join R sep.
Proof. intros a [|r0 rs] sep H; [contradiction|reflexivity]. Qed.

(** Splitting on the double quote, putting a backslash after every piece
    but the last and joining with double quotes escapes the double quotes
    of a text without backslash. *)
Lemma join_reescape : forall s : bytes,
  (forall c, In c s -> c <> bslash) ->
  bytes_Join (spec_reescape (bytes_Split s dquote)) [dquote] = esc s.
Proof.
  induction s as [|c s IH]; intros Hs; [reflexivity|].
  assert (Hs' : forall x, In x s -> x <> bslash) by (intros; apply Hs; now right).
  specialize (IH Hs').
  pose proof (@bytes_Split_nonempty s dquote) as Hne.
  cbn [bytes_Split esc flat_map]. fold (esc s).
  destruct (Ascii.eqb c dquote) eqn:Ec.
  - destruct (bytes_Split s dquote) as [|piece pieces]; [contradiction|].
    rewrite spec_reescape_cons.
    rewrite bytes_Join_cons by apply spec_reescape_nonempty.
    rewrite IH. reflexivity.
  - destruct (bytes_Split s dquote) as [|piece pieces]; [contradiction|].
    assert (Hc : c <> bslash) by (apply Hs; now left).
    destruct pieces as [|p2 ps].
    + cbn [spec_reescape bytes_Join] in *. now rewrite IH.
    + rewrite spec_reescape_cons in *.
      rewrite bytes_Join_cons in * by apply spec_reescape_nonempty.
      rewrite ends_in_backslash_cons by exact Hc.
      rewrite <- IH.
      destruct (ends_in_backslash piece); reflexivity.
Qed.

Lemma esc_no_dquote : forall s : bytes, ~ In dquote s -> esc s = s.
Proof.
  induction s as [|c s IH]; intros H; [reflexivity|].
  cbn [esc flat_map]. fold (esc s).
  destruct (Ascii.eqb_spec c dquote) as [E|E].
  - exfalso. apply H. now left.
  - cbn [app]. f_equal. apply IH. intros Hin. apply H. now right.
Qed.

Lemma esc_app : forall a b : bytes, esc (a ++ b) = esc a ++ esc b.
Proof. intros a b. unfold esc. apply flat_map_app. Qed.

Lemma zbyte_byteZ : forall c, zbyte (byteZ c) = c.
Proof.
  intros c. unfold zbyte, byteZ.
  pose proof (N_ascii_bounded c) as Hb.
  rewrite Z.mod_small by lia.
  rewrite N2Z.id. apply ascii_N_embedding.
Qed.

Lemma UnquoteChar_plain : forall c tl,
  c <> dquote -> c <> bslash -> (byteZ c < 128)%Z ->
  strconv.UnquoteChar (c :: tl) dquote = Some (byteZ c, false, tl).
Proof.
  intros c tl Hd Hb Ha. unfold strconv.UnquoteChar.
  apply Ascii.eqb_neq in Hd. apply Ascii.eqb_neq in Hb.
  rewrite Hd, Hb. cbn [andb negb].
  replace (utf8.RuneSelf <=? byteZ c)%Z with false
    by (symmetry; apply Z.leb_gt; exact Ha).
  reflexivity.
Qed.

Lemma UnquoteChar_escaped_dquote : forall tl,
  strconv.UnquoteChar (bslash :: dquote :: tl) dquote = Some (34%Z, false, tl).
Proof. reflexivity. Qed.

(** The loop of the decoder reads an escaped text back. *)
Lemma unquote_loop_esc : forall s buf rest fuel,
  ascii_text s -> no_escape s ->
  length (esc s ++ dquote :: rest) <= fuel ->
  strconv.unquote_loop fuel dquote (esc s ++ dquote :: rest) buf
    = Some (buf ++ s, dquote :: rest).
Proof.
  induction s as [|c s IH]; intros buf rest fuel Ha Hn Hf.
  - cbn [esc flat_map app]. rewrite app_nil_r.
    destruct fuel; cbn [strconv.unquote_loop]; now rewrite Ascii.eqb_refl.
  - assert (Ha' : ascii_text s) by (intros x Hx; apply Ha; now right).
    assert (Hn' : no_escape s) by (intros x Hx; apply Hn; now right).
    destruct (Hn c ltac:(now left)) as [Hb Hnl].
    cbn [esc flat_map] in *. fold (esc s) in *.
    destruct (Ascii.eqb_spec c dquote) as [->|Hd].
    + cbn [app] in *. destruct fuel as [|fuel]; [cbn in Hf; lia|].
      cbn [strconv.unquote_loop].
      replace (Ascii.eqb bslash dquote) with false by reflexivity.
      rewrite UnquoteChar_escaped_dquote.
      replace (is_nl bslash) with false by reflexivity.
      replace (Ascii.eqb dquote squote) with false by reflexivity.
      cbn [negb orb]. rewrite Bool.orb_true_r.
      rewrite IH; auto; [|cbn [length] in Hf; lia].
      rewrite <- app_assoc. reflexivity.
    + cbn [app] in *. destruct fuel as [|fuel]; [cbn in Hf; lia|].
      cbn [strconv.unquote_loop].
      replace (Ascii.eqb c dquote) with false by (symmetry; now apply Ascii.eqb_neq).
      rewrite UnquoteChar_plain; auto; [|apply Ha; now left].
      replace (is_nl c) with false
        by (symmetry; unfold is_nl; now apply Ascii.eqb_neq).
      replace (Ascii.eqb dquote squote) with false by reflexivity.
      cbn [negb]. rewrite Bool.orb_true_r, zbyte_byteZ.
      rewrite IH; auto; [|cbn [length] in Hf; lia].
      rewrite <- app_assoc. reflexivity.
Qed.

Lemma index_first : forall (a b : bytes) x,
  ~ In x a -> strconv.index (a ++ x :: b) x = Some (length a).
Proof.
  induction a as [|c a IH]; intros b x H; cbn [app strconv.index length].
  - now rewrite Ascii.eqb_refl.
  - destruct (Ascii.eqb_spec c x) as [E|E]; [exfalso; apply H; now left|].
    rewrite IH; [reflexivity|]. intros Hin. apply H. now right.
Qed.

Lemma first_occurrence : forall (l : bytes) x,
  In x l -> exists a b, l = a ++ x :: b /\ ~ In x a.
Proof.
  induction l as [|c l IH]; intros x H; [contradiction|].
  destruct (ascii_dec c x) as [->|Hne].
  - exists [], l. split; [reflexivity|intros []].
  - destruct H as [H|H]; [contradiction|].
    destruct (IH x H) as (a & b & -> & Ha).
    exists (c :: a), b. split; [reflexivity|].
    intros [E|E]; [contradiction|now apply Ha].
Qed.

Lemma contains_bslash_here : forall (a b : bytes),
  strconv.contains (a ++ bslash :: b) bslash = true.
Proof.
  intros a b. unfold strconv.contains. apply existsb_exists.
  exists bslash. split; [apply in_or_app; right; now left|apply Ascii.eqb_refl].
Qed.

(** [strconv.Unquote] reads an escaped text between double quotes back. *)
Lemma Unquote_esc : forall s : bytes,
  ascii_text s -> no_escape s ->
  strconv.Unquote (dquote :: esc s ++ [dquote]) = Some s.
Proof.
  intros s Ha Hn. unfold strconv.Unquote, strconv.unquote.
  cbn [length nth skipn].
  replace (S (length (esc s ++ [dquote])) <? 2) with false.
  2:{ symmetry. apply Nat.ltb_ge. rewrite length_app. cbn. lia. }
  assert (Loop :
    strconv.unquote_loop (S (length (esc s ++ [dquote]))) dquote
      (esc s ++ [dquote]) [] = Some (s, [dquote])).
  { rewrite unquote_loop_esc; auto. }
  replace (Ascii.eqb dquote bquote) with false by reflexivity.
  replace (Ascii.eqb dquote dquote || Ascii.eqb dquote squote) with true
    by reflexivity.
  destruct (in_dec ascii_dec dquote s) as [Hin|Hno].
  - (* an inner double quote: the first one follows a backslash *)
    destruct (first_occurrence _ _ Hin) as (a & b & -> & Hna).
    rewrite esc_app, (@esc_no_dquote _ Hna) in *.
    cbn [esc flat_map] in *. rewrite Ascii.eqb_refl in *. fold (esc b) in *.
    cbn [app] in *.
    replace (a ++ bslash :: dquote :: esc b ++ [dquote])
      with ((a ++ [bslash]) ++ dquote :: esc b ++ [dquote]) in *
      by (rewrite <- app_assoc; reflexivity).
    rewrite <- !app_assoc in *. cbn [app] in *.
    replace (a ++ bslash :: dquote :: esc b ++ [dquote])
      with ((a ++ [bslash]) ++ dquote :: esc b ++ [dquote])
      by (rewrite <- app_assoc; reflexivity).
    rewrite index_first.
    2:{ intros Hx. apply in_app_or in Hx. destruct Hx as [Hx|[Hx|[]]];
        [now apply Hna|]. vm_compute in Hx. discriminate. }
    rewrite length_app. cbn [length].
    replace (firstn (length a + 1 + 2)
               (dquote :: (a ++ [bslash]) ++ dquote :: esc b ++ [dquote]))
      with ((dquote :: a) ++ bslash :: [dquote]).
    2:{ replace (length a + 1 + 2) with (S (length (a ++ [bslash]) + 1))
          by (rewrite length_app; cbn; lia).
        cbn [firstn app]. f_equal.
        rewrite firstn_app, firstn_all2 by lia.
        replace (length (a ++ [bslash]) + 1 - length (a ++ [bslash])) with 1 by lia.
        cbn [firstn]. now rewrite <- app_assoc. }
    rewrite contains_bslash_here. cbn [negb andb].
    replace ((a ++ [bslash]) ++ dquote :: esc b ++ [dquote])
      with (a ++ bslash :: dquote :: esc b ++ [dquote]) in *
      by (rewrite <- app_assoc; reflexivity).
    rewrite Loop. now rewrite Ascii.eqb_refl.
  - (* no inner double quote: both ways of the decoder give the text *)
    rewrite (@esc_no_dquote _ Hno) in *.
    rewrite index_first by exact Hno.
    assert (Es : slice (dquote :: s ++ [dquote]) 1 (length s + 2 - 1) = s).
    { unfold slice. cbn [skipn].
      replace (length s + 2 - 1 - 1) with (length s) by lia.
      rewrite firstn_app, Nat.sub_diag, firstn_all. cbn [firstn].
      now rewrite app_nil_r. }
    assert (Ek : skipn (length s + 2) (dquote :: s ++ [dquote]) = []).
    { apply skipn_all2. cbn [length]. rewrite length_app. cbn. lia. }
    rewrite Es, Ek, Loop, Ascii.eqb_refl.
    now destruct (_ && _).
Qed.

Lemma unquoter_round_trip : forall data lo hi c0 body c1,
  hi <= length data ->
  slice data lo hi = c0 :: body ++ [c1] ->
  ascii_text body -> no_escape body ->
  In dquote body \/ c0 = squote \/ (c0 = dquote /\ c1 = dquote) ->
  snd (unquoteImportString data lo hi) = Ok body.
Proof.
  intros data lo hi c0 body c1 Hhi Hcap Ha Hn Hcase.
  assert (Hlen : length (slice data lo hi) = S (S (length body)))
    by (rewrite Hcap; cbn [length]; rewrite length_app; cbn; lia).
  assert (Hstrip : spec_strip (slice data lo hi) = body)
    by (rewrite Hcap; unfold spec_strip; cbn [tl]; apply removelast_last).
  assert (Hnb : forall c, In c body -> c <> bslash) by (intros c Hc; now apply Hn).
  unfold unquoteImportString. cbn [rd].
  rewrite slice_inner, Hstrip, Hlen.
  replace (S (S (length body)) <? 2) with false by reflexivity.
  destruct (in_dec ascii_dec dquote body) as [Hin|Hno].
  - pose proof (bytes_Split_present _ _ Hin) as Hp.
    replace (length (bytes_Split body dquote) =? 1) with false
      by (symmetry; apply Nat.eqb_neq; lia).
    cbn [negb rd nth app].
    pose proof (escapePieces_spec (bytes_Split body dquote) []) as He.
    cbn [app length] in He. rewrite He, join_reescape by exact Hnb.
    replace (Ascii.eqb dquote squote) with false by reflexivity.
    cbn [rd]. now rewrite Unquote_esc.
  - rewrite bytes_Split_absent by (intros c Hc E; subst c; contradiction).
    cbn [length Nat.eqb negb rd]. rewrite Hcap. cbn [nth].
    destruct Hcase as [Hin|[->|[-> ->]]]; [contradiction| |].
    + replace (Ascii.eqb squote squote) with true by reflexivity.
      cbn [wr rd].
      rewrite (slice_set_nth data lo hi 0 dquote).
      rewrite (slice_set_nth (set_nth data (lo + 0) dquote) lo hi).
      rewrite (slice_set_nth data lo hi 0 dquote), Hcap.
      rewrite requote_in_place by (cbn [length]; rewrite length_app; cbn; lia).
      unfold spec_requote. cbn [tl]. rewrite removelast_last.
      cbn [app]. rewrite <- (@esc_no_dquote _ Hno) at 1.
      now rewrite Unquote_esc.
    + replace (Ascii.eqb dquote squote) with false by reflexivity.
      cbn [rd]. rewrite Hcap.
      rewrite <- (@esc_no_dquote _ Hno) at 1.
      now rewrite Unquote_esc.
Qed.

(** X9: a capture whose text between its first and last byte is ASCII
    without backslash and newline decodes to exactly that text, inner
    double and single quotes included, whenever the text has a double
    quote, or the capture starts with a single quote, or it is between two
    double quotes. *)
Theorem X9_unquoter_round_trip : forall data lo hi c0 body c1,
  hi <= length data ->
  slice data lo hi = c0 :: body ++ [c1] ->
  ascii_text body -> no_escape body ->
  In dquote body \/ c0 = squote \/ (c0 = dquote /\ c1 = dquote) ->
  snd (unquoteImportString data lo hi) = Ok body.
Proof. exact unquoter_round_trip. Qed.



(** The unquoter's escaping leaves alone the double quotes that are
    escaped already. *)
Lemma join_reescape_esc : forall s : bytes,
  (forall c, In c s -> c <> bslash) ->
  bytes_Join (spec_reescape (bytes_Split (esc s) dquote)) [dquote] = esc s.
Proof.
  induction s as [|c s IH]; intros Hs; [reflexivity|].
  assert (Hs' : forall x, In x s -> x <> bslash) by (intros; apply Hs; now right).
  specialize (IH Hs').
  pose proof (@bytes_Split_nonempty (esc s) dquote) as Hne.
  cbn [esc flat_map]. fold (esc s).
  destruct (Ascii.eqb c dquote) eqn:Ec.
  - cbn [app bytes_Split].
    replace (Ascii.eqb bslash dquote) with false by reflexivity.
    rewrite Ascii.eqb_refl.
    destruct (bytes_Split (esc s) dquote) as [|piece pieces]; [contradiction|].
    rewrite spec_reescape_cons.
    rewrite bytes_Join_cons by apply spec_reescape_nonempty.
    rewrite IH. reflexivity.
  - cbn [app bytes_Split]. rewrite Ec.
    destruct (bytes_Split (esc s) dquote) as [|piece pieces]; [contradiction|].
    assert (Hc : c <> bslash) by (apply Hs; now left).
    destruct pieces as [|p2 ps].
    + cbn [spec_reescape bytes_Join] in *. now rewrite IH.
    + rewrite spec_reescape_cons in *.
      rewrite bytes_Join_cons in * by apply spec_reescape_nonempty.
      rewrite ends_in_backslash_cons by exact Hc.
      rewrite <- IH.
      destruct (ends_in_backslash piece); reflexivity.
Qed.

Lemma esc_keeps_dquote : forall s : bytes, In dquote s -> In dquote (esc s).
Proof.
  intros s H. unfold esc. apply in_flat_map. exists dquote.
  split; [exact H|]. rewrite Ascii.eqb_refl. right. now left.
Qed.

(** X10: escaping the inner double quotes of a literal is optional.  A
    capture whose text is ASCII without backslash and newline, written
    with a backslash before each of its double quotes, decodes to the same
    text as the capture that has them bare (X9). *)
Theorem X10_escaped_quotes_decode_alike : forall data lo hi c0 s c1,
  hi <= length data ->
  slice data lo hi = c0 :: esc s ++ [c1] ->
  ascii_text s -> no_escape s ->
  In dquote s \/ c0 = squote \/ (c0 = dquote /\ c1 = dquote) ->
  snd (unquoteImportString data lo hi) = Ok s.
Proof.
  intros data lo hi c0 s c1 Hhi Hcap Ha Hn Hcase.
  destruct (in_dec ascii_dec dquote s) as [Hin|Hno].
  - assert (Hlen : length (slice data lo hi) = S (S (length (esc s))))
      by (rewrite Hcap; cbn [length]; rewrite length_app; cbn; lia).
    assert (Hstrip : spec_strip (slice data lo hi) = esc s)
      by (rewrite Hcap; unfold spec_strip; cbn [tl]; apply removelast_last).
    assert (Hnb : forall c, In c s -> c <> bslash) by (intros c Hc; now apply Hn).
    unfold unquoteImportString. cbn [rd].
    rewrite slice_inner, Hstrip, Hlen.
    replace (S (S (length (esc s))) <? 2) with false by reflexivity.
    pose proof (bytes_Split_present _ _ (esc_keeps_dquote _ Hin)) as Hp.
    replace (length (bytes_Split (esc s) dquote) =? 1) with false
      by (symmetry; apply Nat.eqb_neq; lia).
    cbn [negb rd nth app].
    pose proof (escapePieces_spec (bytes_Split (esc s) dquote) []) as He.
    cbn [app length] in He. rewrite He, join_reescape_esc by exact Hnb.
    replace (Ascii.eqb dquote squote) with false by reflexivity.
    cbn [rd]. now rewrite Unquote_esc.
  - rewrite (@esc_no_dquote _ Hno) in Hcap.
    now apply (@unquoter_round_trip data lo hi c0 s c1).
Qed.


(** On ASCII text [strings.ToLower] works byte by byte and consults no
    case table. *)
Lemma strings_ToLower_ascii : forall tbl s,
  ascii_text s -> strings_ToLower tbl s = map lower_ascii s.
Proof.
  intros tbl s Ha. unfold strings_ToLower.
  replace (forallb (fun c => (byteZ c <? utf8.RuneSelf)%Z) s) with true.
  2:{ symmetry. apply forallb_forall. intros c Hc. apply Z.ltb_lt.
      now apply Ha. }
  apply map_ext_in. intros c Hc. apply Ha in Hc.
  unfold lowerRune, lower_ascii.
  replace (byteZ c <=? 127)%Z with true by (symmetry; apply Z.leb_le; lia).
  destruct ((65 <=? byteZ c) && (byteZ c <=? 90))%Z; [reflexivity|].
  apply zbyte_byteZ.
Qed.

(** ** The match that the search finds first *)

Section Priority.

Variable data : bytes.

Lemma rmatch_cat : forall a b k s,
  rmatch data (Cat a b) k s = rmatch data a (rmatch data b k) s.
Proof. reflexivity. Qed.

Lemma rmatch_alt : forall a b k s,
  rmatch data (Alt a b) k s
    = orelse (rmatch data a k s) (fun _ => rmatch data b k s).
Proof. reflexivity. Qed.

Lemma rmatch_cap : forall n r k s,
  rmatch data (Cap n r) k s
    = rmatch data r (fun s' => k (setcap n (pos s) (pos s') s')) s.
Proof. reflexivity. Qed.

Lemma rmatch_eps : forall k s, rmatch data Eps k s = k s.
Proof. reflexivity. Qed.

Lemma rmatch_bol : forall k s,
  bol_at data (pos s) = true -> rmatch data BOL k s = k s.
Proof. intros k s H. cbn [rmatch]. now rewrite H. Qed.

Lemma rmatch_star : forall g r k s,
  rmatch data (Star g r) k s
    = star_loop (rmatch data r) g k (S (length data - pos s)) s.
Proof. reflexivity. Qed.

Lemma star_loop_greedy : forall body k n s,
  star_loop body true k (S n) s
    = orelse (body (fun s' => if pos s <? pos s'
                              then star_loop body true k n s' else None) s)
             (fun _ => k s).
Proof. reflexivity. Qed.

Lemma orelse_some : forall (a : option mstate) b x,
  a = Some x -> orelse a b = Some x.
Proof. intros a b x ->. reflexivity. Qed.

(** An expression without a match from a state fails with every
    continuation. *)
Lemma rmatch_none : forall r k s,
  (forall s', ~ Matches data r s s') -> rmatch data r k s = None.
Proof.
  intros r k s H. destruct (rmatch data r k s) as [x|] eqn:E; [|reflexivity].
  apply rmatch_sound in E. destruct E as (s' & HM & _). now apply H in HM.
Qed.

(** An expression with one way to match from a state hands that one
    state to its continuation. *)
Lemma rmatch_unique_end : forall r k s s1,
  pos s <= length data -> Matches data r s s1 ->
  (forall s', Matches data r s s' -> s' = s1) ->
  rmatch data r k s = k s1.
Proof.
  intros r k s s1 Hwf HM Hu.
  destruct (rmatch data r k s) as [x|] eqn:E.
  - apply rmatch_sound in E. destruct E as (s' & HM' & Hk).
    apply Hu in HM'. subst s'. now rewrite Hk.
  - destruct (k s1) as [x|] eqn:Ek; [|reflexivity].
    destruct (@rmatch_complete data r k s s1 x Hwf HM Ek) as [y Hy].
    congruence.
Qed.

Lemma rmatch_alt_left : forall a b k s x,
  rmatch data a k s = Some x -> rmatch data (Alt a b) k s = Some x.
Proof. intros a b k s x H. rewrite rmatch_alt, H. reflexivity. Qed.

Lemma rmatch_alt_right : forall a b k s,
  (forall s', ~ Matches data a s s') ->
  rmatch data (Alt a b) k s = rmatch data b k s.
Proof. intros a b k s H. now rewrite rmatch_alt, rmatch_none. Qed.

(** A star whose body has no match stops, whatever is left of its bound. *)
Lemma star_loop_stop : forall r g k n s,
  (forall s', ~ Matches data r s s') ->
  star_loop (rmatch data r) g k n s = k s.
Proof.
  intros r g k n s H. destruct n as [|n]; cbn [star_loop]; [reflexivity|].
  unfold orelse. rewrite rmatch_none by exact H.
  destruct g; [reflexivity|now destruct (k s)].
Qed.

(** A lazy star first tries to go on without an iteration. *)
Lemma star_lazy_zero : forall r k s x,
  k s = Some x -> rmatch data (Star false r) k s = Some x.
Proof.
  intros r k s x H. rewrite rmatch_star. cbn [star_loop]. now rewrite H.
Qed.

Lemma Matches_to : forall r s s2 s3,
  Matches data r s s2 -> s2 = s3 -> Matches data r s s3.
Proof. intros r s s2 s3 H <-. exact H. Qed.

Lemma step_ascii : forall a c,
  nth_error data a = Some c -> (byteZ c < 128)%Z -> snd (step data a) = 1.
Proof.
  intros a c H Hc. unfold step.
  apply skipn_head in H. destruct H as [tl ->].
  unfold utf8.DecodeRune, utf8.RuneSelf.
  now replace (byteZ c <? 128)%Z with true by (symmetry; apply Z.ltb_lt; exact Hc).
Qed.

(** A run of ASCII bytes without newline under a starred dot. *)
Lemma any_run : forall g cs n a,
  (forall i, a <= i < a + n ->
     exists c, nth_error data i = Some c /\ is_nl c = false /\ (byteZ c < 128)%Z) ->
  Matches data (Star g AnyNotNL) (MState a cs) (MState (a + n) cs).
Proof.
  intros g cs. induction n as [|n IH]; intros a Hrun.
  - rewrite Nat.add_0_r. constructor.
  - destruct (Hrun a ltac:(lia)) as (x & Hx & Hnx & Hax).
    eapply M_StarS with (s1 := MState (a + 1) cs).
    + eapply Matches_to; [exact (@M_Any data x (MState a cs) Hx Hnx)|].
      unfold advance. cbn [pos caps]. now rewrite (@step_ascii _ _ Hx Hax).
    + cbn [pos]. lia.
    + replace (a + S n) with (a + 1 + n) by lia.
      apply IH. intros i Hi. apply Hrun. lia.
Qed.

Lemma space_star_stays : forall g x s s',
  nth_error data (pos s) = Some x -> is_space x = false ->
  Matches data (Star g Space) s s' -> s' = s.
Proof.
  intros g x s s' Hx Hs HM.
  apply star_inv in HM. destruct HM as [HM|(s1 & HM & _)]; [exact HM|].
  apply space_inv in HM. destruct HM as (y & Hy & Hsp & _).
  rewrite Hx in Hy. injection Hy as <-. congruence.
Qed.

Lemma lits_mismatch : forall l r s s',
  firstn (length l) (skipn (pos s) data) <> l ->
  ~ Matches data (Cat (lits l) r) s s'.
Proof.
  intros l r s s' Hl HM.
  apply cat_inv in HM. destruct HM as (s1 & HM & _).
  apply lits_inv in HM. destruct HM as [HM _]. now apply Hl.
Qed.

Lemma constPrefix_stays_at : forall s s',
  firstn 6 (skipn (pos s) data) <> B "const " ->
  Matches data constPrefix s s' -> s' = s.
Proof.
  intros s s' Hc HM. unfold constPrefix, Quest in HM.
  apply alt_inv in HM. destruct HM as [HM|HM]; [|now apply eps_inv in HM].
  cbn [cats] in HM. now apply lits_mismatch in HM.
Qed.

Lemma lits_unique : forall l k s,
  pos s <= length data ->
  firstn (length l) (skipn (pos s) data) = l ->
  rmatch data (lits l) k s = k (advance (length l) s).
Proof.
  intros l k s Hwf Hl. apply rmatch_unique_end; [exact Hwf|now apply lits_intro|].
  intros s' HM. now apply lits_inv in HM.
Qed.

(** Where no line begins at or after an offset, the search from it finds
    nothing. *)
Lemma search_no_line_start : forall fuel a,
  (forall i, a <= i -> bol_at data i = false) ->
  search data fuel jsImportPattern numCap a = None.
Proof.
  induction fuel as [|fuel IH]; intros a H;
    pose proof (@pattern_needs_line_start data a (H a (le_n a))) as E;
    unfold start_state in E; cbn [search]; rewrite E.
  - reflexivity.
  - destruct (snd (step data a) =? 0); [reflexivity|].
    apply IH. intros i Hi. apply H. lia.
Qed.

End Priority.

(** ** [jest.mock] with a second argument *)

Section JestMockLiteral.

Variable q : ascii.
Variables p rest : bytes.
Hypothesis Hq : q = squote \/ q = dquote.
Hypothesis Hplain : plain_path p.
Hypothesis Hascii : ascii_text p.
Hypothesis Hline : forall c, In c p -> c <> newline.
Hypothesis Hrest : forall c, In c rest -> c <> squote /\ c <> dquote /\ c <> newline.
Hypothesis Hhead : hd_error rest <> Some ","%char.

Let data : bytes := jest_mock_of q p rest.

Lemma jest_mock_of_length : length data = 13 + length p + length rest.
Proof.
  unfold data, jest_mock_of. rewrite !length_app. cbn [length B list_ascii_of_string].
  lia.
Qed.

Lemma jest_mock_of_open : nth_error data 10 = Some q.
Proof. reflexivity. Qed.

Lemma jest_mock_of_body : forall j,
  nth_error data (11 + j) = nth_error (p ++ q :: ","%char :: rest) j.
Proof. reflexivity. Qed.

Lemma jest_mock_of_path : forall j,
  j < length p -> nth_error data (11 + j) = nth_error p j.
Proof. intros j Hj. now rewrite jest_mock_of_body, nth_error_app1. Qed.

Lemma jest_mock_of_tail : forall j,
  nth_error data (11 + length p + j) = nth_error (q :: ","%char :: rest) j.
Proof.
  intros j. rewrite <- Nat.add_assoc, jest_mock_of_body, nth_error_app2 by lia.
  f_equal. lia.
Qed.

Lemma jest_mock_of_close : nth_error data (11 + length p) = Some q.
Proof.
  pose proof (jest_mock_of_tail 0) as H. now rewrite Nat.add_0_r in H.
Qed.

Lemma jest_mock_of_comma : nth_error data (12 + length p) = Some ","%char.
Proof.
  pose proof (jest_mock_of_tail 1) as H.
  now replace (11 + length p + 1) with (12 + length p) in H by lia.
Qed.

Lemma jest_mock_of_rest : forall j,
  nth_error data (13 + length p + j) = nth_error rest j.
Proof.
  intros j. pose proof (jest_mock_of_tail (2 + j)) as H.
  now replace (11 + length p + (2 + j)) with (13 + length p + j) in H by lia.
Qed.

(** What a byte of the input is, by its offset. *)
Lemma jest_mock_of_byte : forall i c,
  nth_error data i = Some c ->
  (i < 10 /\ In c (B "jest.mock(")) \/
  (c = q /\ (i = 10 \/ i = 11 + length p)) \/
  (11 <= i < 11 + length p /\ In c p) \/
  (i = 12 + length p /\ c = ","%char) \/
  (13 + length p <= i /\ In c rest).
Proof.
  intros i c H.
  destruct (Nat.lt_ge_cases i 10) as [Hi|Hi].
  - left. split; [exact Hi|].
    do 10 (destruct i as [|i]; [cbn in H; injection H as <-; cbn; tauto|]).
    lia.
  - right.
    destruct (Nat.eq_dec i 10) as [->|N10].
    { rewrite jest_mock_of_open in H. injection H as <-. auto. }
    destruct (Nat.lt_ge_cases i (11 + length p)) as [Hp|Hp].
    { right. left. split; [lia|].
      replace i with (11 + (i - 11)) in H by lia.
      rewrite jest_mock_of_path in H by lia. eapply nth_error_In; eauto. }
    replace i with (11 + length p + (i - 11 - length p)) in H by lia.
    rewrite jest_mock_of_tail in H.
    destruct (i - 11 - length p) as [|[|j]] eqn:E; cbn in H.
    + injection H as <-. left. split; [reflexivity|]. right. lia.
    + injection H as <-. right. right. left. split; [lia|reflexivity].
    + right. right. right. split; [lia|]. eapply nth_error_In; eauto.
Qed.

(** The quote characters of the input are the two delimiters. *)
Lemma jest_mock_of_quotes : forall i c,
  nth_error data i = Some c -> c = squote \/ c = dquote ->
  c = q /\ (i = 10 \/ i = 11 + length p).
Proof.
  intros i c H Hc.
  destruct (jest_mock_of_byte _ H) as [[_ Hin]|[Hd|[[_ Hin]|[[_ E]|[_ Hin]]]]].
  - exfalso. cbn in Hin.
    repeat (destruct Hin as [Hin|Hin]; [subst c; destruct Hc; discriminate|]).
    exact Hin.
  - exact Hd.
  - exfalso. apply Hplain in Hin. destruct Hc; tauto.
  - exfalso. subst c. destruct Hc; discriminate.
  - exfalso. apply Hrest in Hin. destruct Hc; tauto.
Qed.

(** The input is one line. *)
Lemma jest_mock_of_one_line : forall i c,
  nth_error data i = Some c -> is_nl c = false.
Proof.
  intros i c H. unfold is_nl. apply Ascii.eqb_neq. intros E. subst c.
  destruct (jest_mock_of_byte _ H) as [[_ Hin]|[[Hd _]|[[_ Hin]|[[_ E]|[_ Hin]]]]].
  - cbn in Hin.
    repeat (destruct Hin as [Hin|Hin]; [discriminate Hin|]). exact Hin.
  - destruct Hq as [E|E]; rewrite E in Hd; discriminate.
  - now apply Hline in Hin.
  - discriminate.
  - apply Hrest in Hin. tauto.
Qed.

Lemma jest_mock_of_no_line_start : forall i, 1 <= i -> bol_at data i = false.
Proof.
  intros [|i] Hi; [lia|]. cbn [bol_at].
  destruct (nth_error data i) as [c|] eqn:E; [|reflexivity].
  now apply jest_mock_of_one_line in E.
Qed.

(** A quoted literal is matched from the opening to the closing
    delimiter only, and only in the kind of quote of the input. *)
Lemma jest_mock_of_literal : forall q1 inner s s',
  q1 = squote \/ q1 = dquote -> has_group inner = false ->
  pos s <= length data ->
  Matches data (cats [Lit q1; inner; Lit q1]) s s' ->
  q1 = q /\ pos s = 10 /\ s' = MState (12 + length p) (caps s).
Proof.
  intros q1 inner s s' Hq1 Hg Hwf HM.
  apply quoted_span in HM; [|exact Hwf].
  destruct HM as (Ho & Hc & H2 & Hlen & s1 & s2 & P1 & C1 & HM & P2 & C2).
  destruct (jest_mock_of_quotes _ Ho Hq1) as [-> Hpo].
  destruct (jest_mock_of_quotes _ Hc Hq1) as [_ Hpc].
  assert (pos s = 10 /\ pos s' = 12 + length p) as [E1 E2] by lia.
  split; [reflexivity|]. split; [exact E1|].
  apply Matches_no_group in HM; [|exact Hg].
  destruct s' as [ps cs]. cbn [pos caps] in *. f_equal; [lia|congruence].
Qed.

(** Between the quotes: the path in one or no pass of the alternation
    under the star. *)
Lemma jest_mock_of_literal_matches : forall c cs,
  Matches data (cats [Lit q; Star true (Alt charactersPattern (Lit c)); Lit q])
    (MState 10 cs) (MState (12 + length p) cs).
Proof.
  intros c cs. cbn [cats].
  assert (Hrun : forall i, 11 <= i < 11 + length p ->
            exists x, nth_error data i = Some x /\ is_nl x = false
                      /\ (byteZ x < 128)%Z).
  { intros i Hi.
    destruct (nth_error p (i - 11)) as [x|] eqn:E.
    - exists x. replace i with (11 + (i - 11)) by lia.
      rewrite jest_mock_of_path by lia.
      repeat split; [exact E| |apply Hascii; eapply nth_error_In; eauto].
      apply (@jest_mock_of_one_line (11 + (i - 11))).
      now rewrite jest_mock_of_path by lia.
    - apply nth_error_None in E. lia. }
  eapply M_Cat; [exact (@M_Lit data q (MState 10 cs) jest_mock_of_open)|].
  eapply M_Cat with (s1 := MState (11 + length p) cs).
  - unfold advance. cbn [pos caps Nat.add].
    destruct (Nat.eq_dec (length p) 0) as [E0|Hlen].
    + rewrite E0. cbn [Nat.add]. constructor.
    + eapply M_StarS with (s1 := MState (11 + length p) cs);
        [|cbn [pos]; lia|constructor].
      apply M_AltL. unfold charactersPattern, Plus.
      destruct (Hrun 11 ltac:(lia)) as (x & Hx & Hnx & Hax).
      eapply M_Cat with (s1 := MState 12 cs).
      * eapply Matches_to; [exact (@M_Any data x (MState 11 cs) Hx Hnx)|].
        unfold advance. cbn [pos caps]. now rewrite (@step_ascii data _ _ Hx Hax).
      * replace (11 + length p) with (12 + (length p - 1)) by lia.
        apply any_run. intros i Hi. apply Hrun. lia.
  - eapply M_Cat;
      [exact (@M_Lit data q (MState (11 + length p) cs) jest_mock_of_close)|].
    eapply Matches_to; [apply M_Eps|].
    unfold advance. cbn [pos caps]. f_equal. lia.
Qed.

(** *** The match at the start of the input *)

Let hi : nat := 12 + length p + (if Ascii.eqb q dquote then 1 else 0).

Definition jest_mock_final : mstate :=
  MState hi [None; None; None; None; Some (10, hi); None; None; None].

Definition jest_mock_match : gomatch :=
  [Some (0, hi); None; None; None; Some (10, hi); None; None; None].

Lemma jest_mock_of_group_elsewhere : forall s s',
  pos s <= length data -> pos s <> 10 -> ~ Matches data jestMockGroup s s'.
Proof.
  intros s s' Hwf Hne HM. unfold jestMockGroup in HM.
  apply cap_inv in HM. destruct HM as (t & HM & _).
  apply alt_inv in HM. destruct HM as [HM|HM].
  - unfold singleQuoted in HM.
    apply jest_mock_of_literal in HM; [tauto|auto|reflexivity|exact Hwf].
  - apply cat_inv in HM. destruct HM as (t1 & HM & _).
    unfold doubleQuoted in HM.
    apply jest_mock_of_literal in HM; [tauto|auto|reflexivity|exact Hwf].
Qed.

Lemma jest_mock_of_no_comma : forall cs s',
  ~ Matches data (Lit ","%char) (MState (13 + length p) cs) s'.
Proof.
  intros cs s' HM. apply lit_inv in HM. destruct HM as [HM _].
  cbn [pos] in HM.
  pose proof (jest_mock_of_rest 0) as E. rewrite Nat.add_0_r, HM in E.
  apply Hhead. now destruct rest.
Qed.

(** One round of the star over the group: the literal, with the comma
    after it when the literal is in double quotes, and no second round. *)
Lemma jest_mock_of_group_once : forall k N x,
  k jest_mock_final = Some x ->
  rmatch data jestMockGroup
    (fun s' => if 10 <? pos s'
               then star_loop (rmatch data jestMockGroup) true k N s'
               else None)
    (start_state 10) = Some x.
Proof.
  intros k N x Hk.
  set (K := fun s' : mstate =>
              if 10 <? pos s'
              then star_loop (rmatch data jestMockGroup) true k N s'
              else None).
  assert (Hwf : pos (start_state 10) <= length data)
    by (rewrite jest_mock_of_length; cbn; lia).
  assert (Hstop : forall e cs, 11 <= e <= length data ->
            K (MState e cs) = k (MState e cs)).
  { intros e cs He. unfold K. cbn [pos].
    replace (10 <? e) with true by (symmetry; apply Nat.ltb_lt; lia).
    apply star_loop_stop. intros s' HM.
    apply jest_mock_of_group_elsewhere in HM; [exact HM|cbn [pos]; lia|cbn [pos]; lia]. }
  assert (Hlit : forall q1 c, q1 = q ->
            Matches data
              (cats [Lit q1; Star true (Alt charactersPattern (Lit c)); Lit q1])
              (start_state 10) (MState (12 + length p) (repeat None numCap))).
  { intros q1 c ->. apply jest_mock_of_literal_matches. }
  assert (Huniq : forall q1 c s',
            q1 = squote \/ q1 = dquote ->
            Matches data
              (cats [Lit q1; Star true (Alt charactersPattern (Lit c)); Lit q1])
              (start_state 10) s' ->
            q1 = q /\ s' = MState (12 + length p) (repeat None numCap)).
  { intros q1 c s' Hq1 HM.
    apply jest_mock_of_literal in HM; [|exact Hq1|reflexivity|exact Hwf].
    destruct HM as (Eq & _ & ->). auto. }
  unfold jestMockGroup at 1. rewrite rmatch_cap, rmatch_alt.
  destruct Hq as [E|E].
  - (* single quotes: the first alternative, no comma *)
    apply orelse_some. unfold singleQuoted.
    rewrite (@rmatch_unique_end data _ _ (start_state 10)
               (MState (12 + length p) (repeat None numCap)) Hwf
               (Hlit squote dquote (eq_sym E))).
    2:{ intros s' HM. now apply Huniq in HM; [|auto]. }
    unfold setcap, start_state. cbn [pos caps].
    rewrite Hstop by (rewrite jest_mock_of_length; lia).
    rewrite <- Hk. f_equal. unfold jest_mock_final.
    replace hi with (12 + length p)
      by (unfold hi; rewrite E; cbn [Ascii.eqb]; cbn; lia).
    reflexivity.
  - (* double quotes: the second alternative and the comma *)
    rewrite (@rmatch_none data singleQuoted).
    2:{ intros s' HM. unfold singleQuoted in HM.
        apply Huniq in HM; [|auto]. destruct HM as [Eq _].
        rewrite E in Eq. discriminate Eq. }
    cbn [orelse]. rewrite rmatch_cat. unfold doubleQuoted.
    rewrite (@rmatch_unique_end data _ _ (start_state 10)
               (MState (12 + length p) (repeat None numCap)) Hwf
               (Hlit dquote squote (eq_sym E))).
    2:{ intros s' HM. now apply Huniq in HM; [|auto]. }
    rewrite rmatch_star, star_loop_greedy.
    apply orelse_some.
    rewrite (@rmatch_unique_end data (Lit ","%char) _
               (MState (12 + length p) (repeat None numCap))
               (MState (13 + length p) (repeat None numCap))).
    + cbn [pos].
      replace (12 + length p <? 13 + length p) with true
        by (symmetry; apply Nat.ltb_lt; lia).
      rewrite star_loop_stop by apply jest_mock_of_no_comma.
      unfold setcap, start_state. cbn [pos caps].
      rewrite Hstop by (rewrite jest_mock_of_length; lia).
      rewrite <- Hk. f_equal. unfold jest_mock_final.
      replace hi with (13 + length p)
        by (unfold hi; rewrite E; cbn [Ascii.eqb]; cbn; lia).
      reflexivity.
    + cbn [pos]. rewrite jest_mock_of_length. lia.
    + eapply Matches_to;
        [exact (@M_Lit data ","%char (MState (12 + length p) (repeat None numCap))
                  jest_mock_of_comma)|].
      unfold advance. cbn [pos caps]. f_equal. lia.
    + intros s' HM. apply lit_inv in HM. destruct HM as [_ ->].
      unfold advance. cbn [pos caps]. f_equal. lia.
Qed.

Lemma jest_mock_of_rmatch_jestMock :
  rmatch data jestMockPattern Some (start_state 0) = Some jest_mock_final.
Proof.
  assert (Hwf : forall a, a <= 10 -> a <= length data)
    by (intros a Ha; rewrite jest_mock_of_length; lia).
  unfold jestMockPattern. cbn [cats].
  rewrite rmatch_cat, rmatch_bol by reflexivity.
  rewrite rmatch_cat. apply star_lazy_zero.
  rewrite rmatch_cat. unfold constPrefix, Quest. rewrite rmatch_alt_right.
  2:{ intros s' HM. cbn [cats] in HM.
      apply lits_mismatch in HM; [exact HM|]. intros E. cbn in E. discriminate E. }
  rewrite rmatch_eps.
  rewrite rmatch_cat, lits_unique; [|apply Hwf; cbn; lia|reflexivity].
  rewrite rmatch_cat.
  rewrite (@rmatch_unique_end data AnyNotNL _ _ (MState 5 (repeat None numCap))).
  2:{ apply Hwf. cbn. lia. }
  2:{ eapply Matches_to.
      - eapply (@M_Any data "."%char); reflexivity.
      - reflexivity. }
  2:{ intros s' HM. apply any_inv in HM. destruct HM as (x & _ & _ & ->).
      reflexivity. }
  rewrite rmatch_cat, lits_unique; [|apply Hwf; cbn; lia|reflexivity].
  rewrite rmatch_cat, rmatch_star, star_loop_greedy.
  apply orelse_some.
  apply jest_mock_of_group_once. reflexivity.
Qed.

Lemma jest_mock_of_rmatch :
  rmatch data jsImportPattern Some (start_state 0) = Some jest_mock_final.
Proof.
  rewrite jsImportPattern_eq. unfold compileJsImportPattern. cbn [alts].
  rewrite rmatch_alt_right.
  2:{ intros s' HM. unfold importPattern in HM. cbn [cats] in HM.
      apply cat_inv in HM. destruct HM as (s1 & H1 & HM).
      apply bol_inv in H1. destruct H1 as [_ ->].
      apply lits_mismatch in HM; [exact HM|]. intros E. cbn in E. discriminate E. }
  rewrite rmatch_alt_right.
  2:{ intros s' HM. unfold requirePattern in HM. cbn [cats] in HM.
      apply cat_inv in HM. destruct HM as (s1 & H1 & HM).
      apply bol_inv in H1. destruct H1 as [_ ->].
      apply cat_inv in HM. destruct HM as (s2 & H2 & HM).
      apply (@space_star_stays data false "j"%char) in H2;
        [|reflexivity|reflexivity]. subst s2.
      apply cat_inv in HM. destruct HM as (s3 & H3 & HM).
      apply constPrefix_stays_at in H3;
        [|intros E; cbn in E; discriminate E]. subst s3.
      apply lits_mismatch in HM; [exact HM|]. intros E. cbn in E. discriminate E. }
  rewrite rmatch_alt_right.
  2:{ intros s' HM. unfold exportPattern in HM. cbn [cats] in HM.
      apply cat_inv in HM. destruct HM as (s1 & H1 & HM).
      apply bol_inv in H1. destruct H1 as [_ ->].
      apply lits_mismatch in HM; [exact HM|]. intros E. cbn in E. discriminate E. }
  apply rmatch_alt_left. exact jest_mock_of_rmatch_jestMock.
Qed.

Lemma jest_mock_of_first :
  doExecute data jsImportPattern numCap 0 = Some jest_mock_match.
Proof.
  unfold doExecute.
  rewrite (@search_hit data _ _ _ 0 jest_mock_final jest_mock_of_rmatch).
  reflexivity.
Qed.

Lemma jest_mock_of_second :
  doExecute data jsImportPattern numCap hi = None.
Proof.
  unfold doExecute. apply search_no_line_start.
  intros i Hi. apply jest_mock_of_no_line_start. unfold hi in Hi. lia.
Qed.

Lemma jest_mock_of_matches :
  FindAllSubmatch jsImportPattern data = [jest_mock_match].
Proof.
  unfold FindAllSubmatch.
  replace (length data + 2) with (S (S (length data))) by lia.
  rewrite allMatches_S, jest_mock_of_first.
  replace ((0 <? length data + 1) && (0 <=? length data)) with true.
  2:{ symmetry. apply andb_true_intro. split;
      [apply Nat.ltb_lt; lia|apply Nat.leb_le; lia]. }
  assert (Es : span0 jest_mock_match = (0, hi)) by reflexivity.
  rewrite Es.
  assert (Ee : (hi =? 0) = false) by reflexivity.
  rewrite Ee. f_equal.
  rewrite allMatches_S, jest_mock_of_second.
  now destruct ((1 <? length data + 1) && (hi <=? length data)).
Qed.

(** *** The capture and the path *)

Lemma jest_mock_of_capture :
  slice data 10 hi
    = q :: (p ++ (if Ascii.eqb q dquote then [dquote] else []))
        ++ [if Ascii.eqb q dquote then ","%char else q].
Proof.
  unfold slice.
  change (skipn 10 data) with (q :: p ++ q :: ","%char :: rest).
  unfold hi. destruct Hq as [E|E]; rewrite E.
  - replace (Ascii.eqb squote dquote) with false by reflexivity.
    replace (12 + length p + 0 - 10) with (S (length p + 1)) by lia.
    cbn [firstn]. f_equal. rewrite firstn_app_2, app_nil_r. reflexivity.
  - replace (Ascii.eqb dquote dquote) with true by reflexivity.
    replace (12 + length p + 1 - 10) with (S (length p + 2)) by lia.
    cbn [firstn]. f_equal. rewrite firstn_app_2, <- app_assoc. reflexivity.
Qed.

Variable tbl : Z -> Z.

Lemma jest_mock_of_result :
  ParseJS tbl data
    = Ok [map lower_ascii (p ++ (if Ascii.eqb q dquote then [dquote] else []))].
Proof.
  set (body := p ++ (if Ascii.eqb q dquote then [dquote] else [])).
  assert (Ha : ascii_text body).
  { intros c Hc. unfold body in Hc. apply in_app_or in Hc.
    destruct Hc as [Hc|Hc]; [now apply Hascii|].
    destruct (Ascii.eqb q dquote); [|contradiction].
    destruct Hc as [<-|[]]. vm_compute. reflexivity. }
  assert (Hn : no_escape body).
  { intros c Hc. unfold body in Hc. apply in_app_or in Hc.
    destruct Hc as [Hc|Hc].
    - split; [apply Hplain in Hc; tauto|now apply Hline].
    - destruct (Ascii.eqb q dquote); [|contradiction].
      destruct Hc as [<-|[]]. split; intros E; vm_compute in E; discriminate E. }
  assert (Hu : snd (unquoteImportString data 10 hi) = Ok body).
  { apply (@unquoter_round_trip data 10 hi q body
             (if Ascii.eqb q dquote then ","%char else q)).
    - unfold hi. rewrite jest_mock_of_length.
      destruct (Ascii.eqb q dquote); lia.
    - exact jest_mock_of_capture.
    - exact Ha.
    - exact Hn.
    - destruct Hq as [E|E]; [right; left; exact E|].
      left. unfold body. rewrite E.
      replace (Ascii.eqb dquote dquote) with true by reflexivity.
      apply in_or_app. right. now left. }
  unfold ParseJS, ParseJS_run. rewrite jest_mock_of_matches.
  cbn [ParseJS_loop].
  assert (Esw : switch jest_mock_match cases = Some (JEST_MOCK, (10, hi), true))
    by reflexivity.
  rewrite Esw.
  destruct (unquoteImportString data 10 hi) as [buf r]. cbn [snd] in Hu. subst r.
  cbn [ParseJS_loop snd app sort_Strings insert_sorted].
  now rewrite strings_ToLower_ascii.
Qed.

End JestMockLiteral.

(** X11: [jest.mock] of a quoted path, a comma and the rest of the line
    (no quote, no newline, no second comma at its start).  For a path of
    ASCII bytes without quotes, backslash and newline the result depends
    on the kind of quote: in single quotes ParseJS returns the lower-cased
    path, in double quotes the comma is captured with the literal, the
    unquoter strips it in place of the closing quote, and ParseJS returns
    the lower-cased path followed by a double quote. *)
Theorem X11_jest_mock_quote_kind : forall tbl p rest,
  plain_path p -> ascii_text p -> (forall c, In c p -> c <> newline) ->
  (forall c, In c rest -> c <> squote /\ c <> dquote /\ c <> newline) ->
  hd_error rest <> Some ","%char ->
  ParseJS tbl (jest_mock_of squote p rest) = Ok [map lower_ascii p] /\
  ParseJS tbl (jest_mock_of dquote p rest) = Ok [map lower_ascii p ++ [dquote]].
Proof.
  intros tbl p rest Hp Ha Hl Hr Hh. split.
  - rewrite (@jest_mock_of_result squote p rest (or_introl eq_refl) Hp Ha Hl Hr Hh tbl).
    replace (Ascii.eqb squote dquote) with false by reflexivity.
    now rewrite app_nil_r.
  - rewrite (@jest_mock_of_result dquote p rest (or_intror eq_refl) Hp Ha Hl Hr Hh tbl).
    replace (Ascii.eqb dquote dquote) with true by reflexivity.
    rewrite map_app. reflexivity.
Qed.

(** X12: [require] of a quoted ASCII path without quotes, backslash and
    newline, alone in the input: ParseJS returns the lower-cased path and
    leaves the literal in double quotes in the buffer, whichever quotes it
    had. *)
Theorem X12_require_plain_path : forall tbl q p,
  q = squote \/ q = dquote ->
  plain_path p -> ascii_text p -> (forall c, In c p -> c <> newline) ->
  ParseJS_run tbl (require_of q p)
    = (require_of dquote p, Ok [map lower_ascii p]).
Proof.
  intros tbl q p Hq Hp Ha Hl.
  assert (Hnl : forall c, In c p -> is_nl c = false).
  { intros c Hc. unfold is_nl. apply Ascii.eqb_neq. now apply Hl. }
  rewrite (@require_of_one_line q p Hq Hp Hnl tbl).
  unfold require_result, decoded_require.
  assert (Hno : ~ In dquote p) by (intros Hc; apply Hp in Hc; tauto).
  assert (Hn : no_escape p).
  { intros c Hc. split; [apply Hp in Hc; tauto|now apply Hl]. }
  pose proof (Unquote_esc Ha Hn) as U.
  rewrite (@esc_no_dquote _ Hno) in U. rewrite U.
  cbn [sort_Strings insert_sorted]. now rewrite strings_ToLower_ascii.
Qed.

(** ** The further properties on the example inputs *)

Lemma X1_witness :
  let m := [Some (13, 30); Some (27, 30); None; None; None; None; None; None] in
  In m (FindAllSubmatch jsImportPattern twoLines) /\
  length m = 8 /\
  exists b e, nth 0 m None = Some (b, e) /\
              b < e /\ e <= length twoLines /\ bol_at twoLines b = true.
Proof.
  intros m.
  assert (Hin : In m (FindAllSubmatch jsImportPattern twoLines))
    by (vm_compute; right; left; reflexivity).
  exact (conj Hin (@X1_match_shape twoLines m Hin)).
Defined.

Lemma X2_witness :
  let m := [Some (0, 12); None; Some (8, 11); None; None; None; None; None] in
  In m (FindAllSubmatch jsImportPattern twoLines) /\
  1 <= REQUIRE /\ nth REQUIRE m None <> None /\
  REQUIRE = REQUIRE /\ REQUIRE <= 7.
Proof.
  intros m.
  assert (Hin : In m (FindAllSubmatch jsImportPattern twoLines))
    by (vm_compute; left; reflexivity).
  assert (HK : 1 <= REQUIRE) by (unfold REQUIRE; lia).
  assert (Hn : nth REQUIRE m None <> None) by discriminate.
  exact (conj Hin (conj HK (conj Hn
    (@X2_one_capture_per_match twoLines m REQUIRE REQUIRE Hin HK HK Hn Hn)))).
Defined.

Lemma X3_witness :
  let m := [Some (0, 12); None; Some (8, 11); None; None; None; None; None] in
  In m (FindAllSubmatch jsImportPattern twoLines) /\
  nth 0 m None = Some (0, 12) /\ 1 <= REQUIRE /\
  nth REQUIRE m None = Some (8, 11) /\
  0 <= 8 /\ 11 <= 12 /\
  forall i, 8 <= i < 11 -> nth_error twoLines i <> Some newline.
Proof.
  intros m.
  assert (Hin : In m (FindAllSubmatch jsImportPattern twoLines))
    by (vm_compute; left; reflexivity).
  assert (H0 : nth 0 m None = Some (0, 12)) by reflexivity.
  assert (HK : 1 <= REQUIRE) by (unfold REQUIRE; lia).
  assert (Hn : nth REQUIRE m None = Some (8, 11)) by reflexivity.
  exact (conj Hin (conj H0 (conj HK (conj Hn
    (@X3_capture_inside_match_on_one_line twoLines m 0 12 REQUIRE 8 11
       Hin H0 HK Hn))))).
Defined.

Lemma X4_witness :
  let m1 := [Some (0, 12); None; Some (8, 11); None; None; None; None; None] in
  let m2 := [Some (13, 30); Some (27, 30); None; None; None; None; None; None] in
  0 < 1 /\
  nth_error (FindAllSubmatch jsImportPattern twoLines) 0 = Some m1 /\
  nth_error (FindAllSubmatch jsImportPattern twoLines) 1 = Some m2 /\
  fst (span0 m1) <= snd (span0 m1) /\ snd (span0 m1) <= fst (span0 m2).
Proof.
  intros m1 m2.
  assert (H1 : nth_error (FindAllSubmatch jsImportPattern twoLines) 0 = Some m1)
    by (vm_compute; reflexivity).
  assert (H2 : nth_error (FindAllSubmatch jsImportPattern twoLines) 1 = Some m2)
    by (vm_compute; reflexivity).
  exact (conj Nat.lt_0_1 (conj H1 (conj H2
    (@X4_matches_in_order_disjoint twoLines 0 1 m1 m2 Nat.lt_0_1 H1 H2)))).
Defined.

Lemma X5_witness :
  8 + 2 <= 11 /\ 11 <= length twoLines /\
  fst (unquoteImportString twoLines 8 11)
    = if rewrites_in_place twoLines 8 11
      then set_nth (set_nth twoLines 8 dquote) (11 - 1) dquote
      else twoLines.
Proof.
  assert (H2 : 8 + 2 <= 11) by lia.
  assert (Hhi : 11 <= length twoLines) by (vm_compute; lia).
  exact (conj H2 (conj Hhi (@X5_unquoter_buffer twoLines 8 11 H2 Hhi))).
Defined.

Lemma X6_witness :
  let data := require_of dquote (B "a") in
  ~ In squote data /\ fst (ParseJS_run asciiCase data) = data.
Proof.
  intros data.
  assert (Hno : ~ In squote data).
  { intros H. vm_compute in H.
    repeat (destruct H as [H|H]; [discriminate H|]). exact H. }
  exact (conj Hno (proj2 (@X6_ParseJS_buffer asciiCase data) Hno)).
Defined.

Lemma X7_witness :
  ParseJS asciiCase twoLines = Ok [B "a"; B "b"] /\
  length [B "a"; B "b"]
    = length (filter capturing (FindAllSubmatch jsImportPattern twoLines)).
Proof.
  assert (H : ParseJS asciiCase twoLines = Ok [B "a"; B "b"])
    by (vm_compute; reflexivity).
  exact (conj H (@X7_one_path_per_capture asciiCase twoLines [B "a"; B "b"] H)).
Defined.

Lemma X8_witness :
  let m1 := [Some (0, 12); None; Some (8, 11); None; None; None; None; None] in
  let m2 := [Some (13, 26); None; Some (21, 25); None; None; None; None; None] in
  let m3 := [Some (27, 39); None; Some (35, 38); None; None; None; None; None] in
  let d1 := set_nth (set_nth badSecond 8 dquote) 10 dquote in
  let d2 := set_nth (set_nth d1 21 dquote) 24 dquote in
  let e := B "unquoting string literal " ++ slice d2 21 25 ++ B " from js: "
           ++ strconv.ErrSyntax in
  FindAllSubmatch jsImportPattern badSecond = [m1] ++ m2 :: [m3] /\
  ParseJS_loop asciiCase [m1] badSecond [] = (d1, Ok [B "a"]) /\
  switch m2 cases = Some (REQUIRE, (21, 25), true) /\
  unquoteImportString d1 21 25 = (d2, Err e) /\
  ParseJS_run asciiCase badSecond
    = (d2, Err (B "unquoting string literal " ++ slice d2 21 25
                ++ B " from js, " ++ e)) /\
  forall i, i <> 21 -> i <> 25 - 1 -> nth_error d2 i = nth_error d1 i.
Proof.
  intros m1 m2 m3 d1 d2 e.
  assert (Hms : FindAllSubmatch jsImportPattern badSecond = [m1] ++ m2 :: [m3])
    by (vm_compute; reflexivity).
  assert (H1 : ParseJS_loop asciiCase [m1] badSecond [] = (d1, Ok [B "a"]))
    by (vm_compute; reflexivity).
  assert (Hs : switch m2 cases = Some (REQUIRE, (21, 25), true)) by reflexivity.
  assert (Hu : unquoteImportString d1 21 25 = (d2, Err e))
    by (vm_compute; reflexivity).
  exact (conj Hms (conj H1 (conj Hs (conj Hu
    (@X8_first_failure_decides asciiCase badSecond [m1] m2 [m3] d1 [B "a"]
       REQUIRE 21 25 true d2 e Hms H1 Hs Hu))))).
Defined.

Lemma X9_witness :
  let data := B "require('a" ++ dq ++ B "b')" in
  let body := B "a" ++ dq ++ B "b" in
  13 <= length data /\
  slice data 8 13 = squote :: body ++ [squote] /\
  ascii_text body /\ no_escape body /\
  (In dquote body \/ squote = squote \/ (squote = dquote /\ squote = dquote)) /\
  snd (unquoteImportString data 8 13) = Ok body.
Proof.
  intros data body.
  assert (Hhi : 13 <= length data) by (vm_compute; lia).
  assert (Hcap : slice data 8 13 = squote :: body ++ [squote]) by reflexivity.
  assert (Ha : ascii_text body).
  { intros c Hc. vm_compute in Hc.
    repeat (destruct Hc as [Hc|Hc]; [subst c; vm_compute; reflexivity|]).
    contradiction. }
  assert (Hn : no_escape body).
  { intros c Hc. vm_compute in Hc.
    repeat (destruct Hc as [Hc|Hc];
            [subst c; split; intros E; vm_compute in E; discriminate E|]).
    contradiction. }
  assert (Hcase : In dquote body \/ squote = squote \/
                  (squote = dquote /\ squote = dquote))
    by (left; right; left; reflexivity).
  exact (conj Hhi (conj Hcap (conj Ha (conj Hn (conj Hcase
    (@X9_unquoter_round_trip data 8 13 squote body squote
       Hhi Hcap Ha Hn Hcase)))))).
Defined.

Lemma X10_witness :
  let data := B "import " ++ dq ++ B "a" ++ [bslash] ++ dq ++ B "b" ++ dq in
  let s := B "a" ++ dq ++ B "b" in
  13 <= length data /\
  slice data 7 13 = dquote :: esc s ++ [dquote] /\
  ascii_text s /\ no_escape s /\
  (In dquote s \/ dquote = squote \/ (dquote = dquote /\ dquote = dquote)) /\
  snd (unquoteImportString data 7 13) = Ok s.
Proof.
  intros data s.
  assert (Hhi : 13 <= length data) by (vm_compute; lia).
  assert (Hcap : slice data 7 13 = dquote :: esc s ++ [dquote]) by reflexivity.
  assert (Ha : ascii_text s).
  { intros c Hc. vm_compute in Hc.
    repeat (destruct Hc as [Hc|Hc]; [subst c; vm_compute; reflexivity|]).
    contradiction. }
  assert (Hn : no_escape s).
  { intros c Hc. vm_compute in Hc.
    repeat (destruct Hc as [Hc|Hc];
            [subst c; split; intros E; vm_compute in E; discriminate E|]).
    contradiction. }
  assert (Hcase : In dquote s \/ dquote = squote \/
                  (dquote = dquote /\ dquote = dquote))
    by (left; right; left; reflexivity).
  exact (conj Hhi (conj Hcap (conj Ha (conj Hn (conj Hcase
    (@X10_escaped_quotes_decode_alike data 7 13 dquote s dquote
       Hhi Hcap Ha Hn Hcase)))))).
Defined.

Lemma X11_witness :
  let p := B "Lib/X" in
  let rest := B " f)" in
  plain_path p /\ ascii_text p /\ (forall c, In c p -> c <> newline) /\
  (forall c, In c rest -> c <> squote /\ c <> dquote /\ c <> newline) /\
  hd_error rest <> Some ","%char /\
  ParseJS asciiCase (jest_mock_of squote p rest) = Ok [B "lib/x"] /\
  ParseJS asciiCase (jest_mock_of dquote p rest) = Ok [B "lib/x" ++ dq].
Proof.
  intros p rest.
  assert (Hp : plain_path p).
  { intros c Hc. vm_compute in Hc.
    repeat (destruct Hc as [Hc|Hc];
            [subst c; repeat split; intros E; vm_compute in E; discriminate E|]).
    contradiction. }
  assert (Ha : ascii_text p).
  { intros c Hc. vm_compute in Hc.
    repeat (destruct Hc as [Hc|Hc]; [subst c; vm_compute; reflexivity|]).
    contradiction. }
  assert (Hl : forall c, In c p -> c <> newline).
  { intros c Hc. vm_compute in Hc.
    repeat (destruct Hc as [Hc|Hc];
            [subst c; intros E; vm_compute in E; discriminate E|]).
    contradiction. }
  assert (Hr : forall c, In c rest -> c <> squote /\ c <> dquote /\ c <> newline).
  { intros c Hc. vm_compute in Hc.
    repeat (destruct Hc as [Hc|Hc];
            [subst c; repeat split; intros E; vm_compute in E; discriminate E|]).
    contradiction. }
  assert (Hh : hd_error rest <> Some ","%char) by discriminate.
  exact (conj Hp (conj Ha (conj Hl (conj Hr (conj Hh
    (@X11_jest_mock_quote_kind asciiCase p rest Hp Ha Hl Hr Hh)))))).
Defined.

Lemma X12_witness :
  let p := B "Lib/X" in
  (squote = squote \/ squote = dquote) /\
  plain_path p /\ ascii_text p /\ (forall c, In c p -> c <> newline) /\
  ParseJS_run asciiCase (require_of squote p)
    = (require_of dquote p, Ok [B "lib/x"]).
Proof.
  intros p.
  assert (Hq : squote = squote \/ squote = dquote) by (left; reflexivity).
  assert (Hp : plain_path p).
  { intros c Hc. vm_compute in Hc.
    repeat (destruct Hc as [Hc|Hc];
            [subst c; repeat split; intros E; vm_compute in E; discriminate E|]).
    contradiction. }
  assert (Ha : ascii_text p).
  { intros c Hc. vm_compute in Hc.
    repeat (destruct Hc as [Hc|Hc]; [subst c; vm_compute; reflexivity|]).
    contradiction. }
  assert (Hl : forall c, In c p -> c <> newline).
  { intros c Hc. vm_compute in Hc.
    repeat (destruct Hc as [Hc|Hc];
            [subst c; intros E; vm_compute in E; discriminate E|]).
    contradiction. }
  exact (conj Hq (conj Hp (conj Ha (conj Hl
    (@X12_require_plain_path asciiCase squote p Hq Hp Ha Hl))))).
Defined.
